(** * mpts: Multithreaded Ping Two Subnets

    A shallow embedding of [mpts.py] and the properties of its address
    enumeration, retry logic, worker pools, classification step and
    command-line handling.

    Conventions of the embedding:
    - Python [int] is [Z]; Python [str] is [string], the UTF-8 bytes of its
      characters; a Python list is [list]; the tuple [(final_octet, ip_str)]
      is a pair [Z * string].
    - A raised exception is a value of [exn]; a function that may raise
      returns [exn + A], and a whole call ends in an [outcome].
    - [get_returncode], the seam the tests mock, is a parameter: a function
      of the number of calls made so far and of the target.
    - The two thread pools are modelled by an interleaving semantics: a
      schedule picks which thread performs its next atomic action.  The
      atomic actions are the operations CPython itself executes atomically:
      [Queue.put], [Queue.get], [Queue.task_done], [Queue.join],
      [list.append], one call of [get_returncode], one [print].
    - What is printed is kept as a list of [line] values, one per [print]
      call; the calls of [get_returncode] are kept as a log. *)

From Stdlib Require Import ZArith List String Ascii Bool Lia Arith.
From Stdlib Require Import Permutation Sorted.
Import ListNotations.

Local Open Scope string_scope.
Local Open Scope list_scope.
Local Open Scope Z_scope.

(* ================================================================== *)
(** * Python values, strings and integers                              *)
(* ================================================================== *)

(** Exceptions the program can raise.  [AddressValueError] and
    [NetmaskValueError] of [ipaddress] are subclasses of [ValueError]. *)
Inductive exn : Type :=
| ValueError
| AssertionError
| IndexError.

(** The variable [skip] of [main] holds either a [str] (its default [""])
    or, after [int(skip)], an [int]. *)
Inductive pyval : Type :=
| PStr (s : string)
| PInt (z : Z).

(** [final_octet == skip], with [final_octet] an [int]: an [int] never
    equals a [str]. *)
Definition int_eq_pyval (n : Z) (v : pyval) : bool :=
  match v with
  | PInt z => n =? z
  | PStr _ => false
  end.

Module PyStr.

Definition is_digit (c : ascii) : bool :=
  let n := nat_of_ascii c in ((48 <=? n) && (n <=? 57))%nat.

Definition digit_val (c : ascii) : Z := Z.of_nat (nat_of_ascii c) - 48.

Definition digit_char (d : Z) : ascii := ascii_of_nat (Z.to_nat (48 + d)).

(** The characters [int(str)] skips around the number: C's [isspace], that
    is TAB, LF, VT, FF, CR and space.  (FS..US, which [str.isspace] counts
    as whitespace, are not skipped: [int] leaves an ASCII string as it is
    and hands it to [PyLong_FromString].) *)
Definition is_space (c : ascii) : bool :=
  let n := nat_of_ascii c in
  (((9 <=? n) && (n <=? 13)) || (n =? 32))%nat.

Fixpoint all_chars (p : ascii -> bool) (s : string) : bool :=
  match s with
  | EmptyString => true
  | String c r => p c && all_chars p r
  end.

(** [s.isascii()] *)
Definition is_ascii (s : string) : bool :=
  all_chars (fun c => (nat_of_ascii c <? 128)%nat) s.

(** [s.isascii() and s.isdigit()]: non-empty and made of '0'..'9'. *)
Definition is_ascii_digits (s : string) : bool :=
  match s with
  | EmptyString => false
  | _ => all_chars is_digit s
  end.

(** Value of a run of decimal digits, most significant first. *)
Fixpoint digits_value (acc : Z) (s : string) : Z :=
  match s with
  | EmptyString => acc
  | String c r => digits_value (10 * acc + digit_val c) r
  end.

(** [str(n)] for an [int]: decimal digits, with a minus sign when
    negative. *)
Fixpoint digits_of (fuel : nat) (n : Z) (acc : string) : string :=
  match fuel with
  | O => acc
  | S f =>
      let acc' := String (digit_char (n mod 10)) acc in
      if n / 10 =? 0 then acc' else digits_of f (n / 10) acc'
  end.

Definition str_int (n : Z) : string :=
  if n <? 0 then String "-"%char (digits_of (S (Z.to_nat (- n))) (- n) "")
  else digits_of (S (Z.to_nat n)) n "".

(** [s.split(sep)] for a one-character separator: always at least one
    piece, empty pieces kept. *)
Fixpoint split (sep : ascii) (s : string) : list string :=
  match s with
  | EmptyString => [EmptyString]
  | String c r =>
      if Ascii.eqb c sep then EmptyString :: split sep r
      else match split sep r with
           | [] => [String c EmptyString]
           | p :: ps => String c p :: ps
           end
  end.

(** Skipping the whitespace before and after the number. *)
Fixpoint lstrip (s : string) : string :=
  match s with
  | EmptyString => EmptyString
  | String c r => if is_space c then lstrip r else s
  end.

Fixpoint rstrip (s : string) : string :=
  match s with
  | EmptyString => EmptyString
  | String c r =>
      match rstrip r with
      | EmptyString => if is_space c then EmptyString else String c EmptyString
      | r' => String c r'
      end
  end.

(** The digit part accepted by [int(str)] in base 10: digits, with single
    underscores allowed between two digits.  [prev] tells whether the
    previous character was a digit. *)
Fixpoint int_digits (prev : bool) (acc : Z) (s : string) : option Z :=
  match s with
  | EmptyString => if prev then Some acc else None
  | String c r =>
      if is_digit c then int_digits true (10 * acc + digit_val c) r
      else if Ascii.eqb c "_"%char then
             if prev then
               match r with
               | String d _ => if is_digit d then int_digits false acc r else None
               | EmptyString => None
               end
             else None
           else None
  end.

(** [sys.get_int_max_str_digits()], at its default. *)
Definition int_max_str_digits : Z := 4300.

(** The number of digits of a run of digits and underscores. *)
Fixpoint count_digits (s : string) : Z :=
  match s with
  | EmptyString => 0
  | String c r => (if is_digit c then 1 else 0) + count_digits r
  end.

(** The digit part with the limit on its length: more than
    [int_max_str_digits] digits are refused (leading zeros count,
    underscores do not). *)
Definition int_body (t : string) : option Z :=
  match int_digits false 0 t with
  | Some v => if int_max_str_digits <? count_digits t then None else Some v
  | None => None
  end.

(** [int(s)] for a [str], as CPython 3.11 does it: [None] stands for
    [ValueError].  Whitespace around the number is skipped, one sign is
    allowed, then come the digits.  A [str] is held as its UTF-8 bytes, and
    the function is exact on every ASCII [str]; a [str] with a non-ASCII
    character is refused here, although [int] accepts the decimal digits and
    the whitespace of other scripts. *)
Definition int_of_str (s : string) : option Z :=
  match rstrip (lstrip s) with
  | String "+"%char r => int_body r
  | String "-"%char r => option_map Z.opp (int_body r)
  | t => int_body t
  end.

(** [s[-3:]]: the last three characters, or all of [s] when shorter. *)
Definition last3 (s : string) : string :=
  let n := String.length s in
  substring (n - 3) 3 s.

(** [x in s] for two strings: [x] occurs in [s] as a contiguous run. *)
Fixpoint contains (x s : string) : bool :=
  prefix x s ||
  match s with
  | EmptyString => false
  | String _ r => contains x r
  end.

Definition join_dot (l : list string) : string :=
  String.concat "." l.

End PyStr.

(* ================================================================== *)
(** * The [ipaddress] module, as far as the program uses it            *)
(* ================================================================== *)

(** An [IPv4Address] is its 32-bit integer; an [IPv4Network] is a network
    address and a prefix length.  Parsing follows CPython's [ipaddress]
    (3.9.5 and later, where an octet with a leading zero is refused);
    every parse error there is a [ValueError], here [None]. *)
Module IPAddress.

Definition ALL_ONES : Z := 2 ^ 32 - 1.

Record IPv4Network : Type := mkNet {
  network_address : Z;
  prefixlen : Z
}.

(** [_parse_octet] *)
Definition parse_octet (s : string) : option Z :=
  if negb (PyStr.is_ascii_digits s) then None
  else if (3 <? String.length s)%nat then None
  else if negb (String.eqb s "0") &&
          match s with String c _ => Ascii.eqb c "0"%char | EmptyString => false end
       then None
  else let v := PyStr.digits_value 0 s in
       if 255 <? v then None else Some v.

(** [int.from_bytes(octets, 'big')] for four octets *)
Definition from_bytes (o1 o2 o3 o4 : Z) : Z :=
  Z.lor (Z.shiftl o1 24) (Z.lor (Z.shiftl o2 16) (Z.lor (Z.shiftl o3 8) o4)).

(** [_ip_int_from_string] *)
Definition ip_int_from_string (s : string) : option Z :=
  match s with
  | EmptyString => None
  | _ =>
      match map parse_octet (PyStr.split "."%char s) with
      | [Some o1; Some o2; Some o3; Some o4] => Some (from_bytes o1 o2 o3 o4)
      | _ => None
      end
  end.

(** [_prefix_from_prefix_string] *)
Definition prefix_from_prefix_string (s : string) : option Z :=
  if PyStr.is_ascii_digits s then
    let p := PyStr.digits_value 0 s in
    if (0 <=? p) && (p <=? 32) then Some p else None
  else None.

(** [_ip_int_from_prefix] *)
Definition ip_int_from_prefix (p : Z) : Z :=
  Z.lxor ALL_ONES (Z.shiftr ALL_ONES p).

(** [_count_righthand_zero_bits(number, bits)] *)
Fixpoint count_zero_bits (bits : nat) (number : Z) : Z :=
  match bits with
  | O => 0
  | S b => if Z.testbit number 0 then 0
           else 1 + count_zero_bits b (Z.shiftr number 1)
  end.

(** [_prefix_from_ip_int]: [None] is its [ValueError]. *)
Definition prefix_from_ip_int (ip_int : Z) : option Z :=
  let trailing_zeroes := count_zero_bits 32 ip_int in
  let p := 32 - trailing_zeroes in
  let leading_ones := Z.shiftr ip_int trailing_zeroes in
  let all_ones := Z.shiftl 1 p - 1 in
  if leading_ones =? all_ones then Some p else None.

(** [_prefix_from_ip_string]: a dotted netmask, else a dotted hostmask. *)
Definition prefix_from_ip_string (s : string) : option Z :=
  match ip_int_from_string s with
  | None => None
  | Some ip_int =>
      match prefix_from_ip_int ip_int with
      | Some p => Some p
      | None => prefix_from_ip_int (Z.lxor ip_int ALL_ONES)
      end
  end.

(** [_make_netmask] on a [str], returning the prefix length. *)
Definition make_netmask (s : string) : option Z :=
  match prefix_from_prefix_string s with
  | Some p => Some p
  | None => prefix_from_ip_string s
  end.

(** [IPv4Network(address)] on a [str], with the default [strict=True]. *)
Definition parse_network (address : string) : option IPv4Network :=
  let parts := PyStr.split "/"%char address in
  match parts with
  | [addr] =>
      match ip_int_from_string addr with
      | Some a => Some (mkNet a 32)
      | None => None
      end
  | [addr; mask] =>
      match ip_int_from_string addr with
      | None => None
      | Some a =>
          match make_netmask mask with
          | None => None
          | Some p =>
              if Z.land a (ip_int_from_prefix p) =? a
              then Some (mkNet a p) else None
          end
      end
  | _ => None
  end.

(** The hostmask and broadcast address of a network. *)
Definition hostmask (n : IPv4Network) : Z :=
  Z.lxor (ip_int_from_prefix (prefixlen n)) ALL_ONES.

Definition broadcast_address (n : IPv4Network) : Z :=
  Z.lor (network_address n) (hostmask n).

(** [IPv4Network.__iter__]: every address from the network address to
    the broadcast address, both included. *)
Definition iter (n : IPv4Network) : list Z :=
  map (fun k => network_address n + Z.of_nat k)
      (seq 0 (Z.to_nat (broadcast_address n + 1 - network_address n))).

(** Octet [i] (0 = most significant) of an address: [to_bytes(4, 'big')]. *)
Definition octet (i : Z) (ip : Z) : Z :=
  Z.land (Z.shiftr ip (8 * (3 - i))) 255.

(** [str(ip)]: the dotted quad. *)
Definition str (ip : Z) : string :=
  PyStr.join_dot (map (fun i => PyStr.str_int (octet i ip)) [0; 1; 2; 3]).

End IPAddress.

(* ================================================================== *)
(** * Standard output                                                  *)
(* ================================================================== *)

(** One value per [print] call of the program; the text each stands for
    is the format string of that call. *)
Inductive line : Type :=
| LIsUp (addr : string)                       (* <addr> is up *)
| LIsDown (addr : string)                     (* <addr> is down *)
| LFailedPing (addr : string) (attempt : Z)   (* <addr> failed ping - attempt <n> *)
| LNoFailures (cidr1 cidr2 : string)          (* Both ... are fully responding ... *)
| LFailedRequests (cidr : string) (addrs : list string)
| LOctetsButNot (cidr other : string) (octets : list Z)
| LOctetsBoth (cidr1 cidr2 : string) (octets : list Z)
| LUsage                                      (* usage:  python3 mpts.py ... *)
| LHelp                                       (* help:  python3 mpts.py ... *)
| LOnly24                                     (* --cidr1 and --cidr2 accept CIDR/24 subnets only. *)
| LSkipInvalid                                (* --skip <octet> must have a valid octet value ... *)
| LBlank
| LCidr1 (cidr : string)
| LCidr2 (cidr : string).

(** How a call ends: with a value, with [sys.exit], with an uncaught
    exception, or not yet (the schedule given to the run stopped before the
    main thread reached its [return]). *)
Inductive outcome (A : Type) : Type :=
| Returned (a : A)
| SysExit (code : option Z)
| Raised (e : exn)
| Running.
Arguments Returned {A} a.
Arguments SysExit {A} code.
Arguments Raised {A} e.
Arguments Running {A}.

(* ================================================================== *)
(** * Address enumeration (the two [for ip in IPv4Network(...)] loops) *)
(* ================================================================== *)

(** A queue item: [(final_octet, ip_str)]. *)
Definition target : Type := (Z * string)%type.

(** [int(ip_str.split(".")[3])] *)
Definition final_octet_of (ip_str : string) : exn + Z :=
  match nth_error (PyStr.split "."%char ip_str) 3 with
  | None => inl IndexError
  | Some o =>
      match PyStr.int_of_str o with
      | None => inl ValueError
      | Some z => inr z
      end
  end.

(** The body of the loop over the addresses [addrs] of a network, with
    [ips] the list built so far. *)
Fixpoint build_ips (skip : pyval) (addrs : list Z) (ips : list target)
  : exn + list target :=
  match addrs with
  | [] => inr ips
  | ip :: rest =>
      let ip_str := IPAddress.str ip in
      match final_octet_of ip_str with
      | inl e => inl e
      | inr final_octet =>
          if (final_octet =? 0) || int_eq_pyval final_octet skip
          then build_ips skip rest ips
          else build_ips skip rest (ips ++ [(final_octet, ip_str)])
      end
  end.

(** [for ip in ipaddress.IPv4Network(cidr): ...], starting from [[]]. *)
Definition enumerate_ips (cidr : string) (skip : pyval) : exn + list target :=
  match IPAddress.parse_network cidr with
  | None => inl ValueError
  | Some net => build_ips skip (IPAddress.iter net) []
  end.

(* ================================================================== *)
(** * [print_results]                                                  *)
(* ================================================================== *)

(** [list.sort()] on a list of [int]: ascending. *)
Fixpoint insert_sorted (x : Z) (l : list Z) : list Z :=
  match l with
  | [] => [x]
  | y :: r => if x <=? y then x :: l else y :: insert_sorted x r
  end.

Fixpoint sort (l : list Z) : list Z :=
  match l with
  | [] => []
  | x :: r => insert_sorted x (sort r)
  end.

(** [octet in octets] *)
Definition octet_in (octet : Z) (octets : list Z) : bool :=
  existsb (Z.eqb octet) octets.

(** The first classification loop: octets of [failed_ips1_octets] go to
    the exclusive list or to the common list. *)
Fixpoint split_octets (octets others excl common : list Z)
  : list Z * list Z :=
  match octets with
  | [] => (excl, common)
  | octet :: rest =>
      if negb (octet_in octet others)
      then split_octets rest others (excl ++ [octet]) common
      else split_octets rest others excl (common ++ [octet])
  end.

(** The second loop: octets of [failed_ips2_octets] not in the first. *)
Fixpoint excl_octets (octets others excl : list Z) : list Z :=
  match octets with
  | [] => excl
  | octet :: rest =>
      if negb (octet_in octet others)
      then excl_octets rest others (excl ++ [octet])
      else excl_octets rest others excl
  end.

(** The returned 5-tuple. *)
Record result : Type := mkResult {
  failed_ips1 : list target;
  failed_ips2 : list target;
  failed_ips1_excl_octets : list Z;
  failed_ips2_excl_octets : list Z;
  failed_ips_common_octets : list Z
}.

(** [print_results]: the printed lines and the returned tuple. *)
Definition print_results (cidr1 : string) (failed_ips1 : list target)
                         (cidr2 : string) (failed_ips2 : list target)
  : list line * result :=
  let failed_ips1_octets := map fst failed_ips1 in
  let failed_ips2_octets := map fst failed_ips2 in
  let failed_ips1_addrs := map snd failed_ips1 in
  let failed_ips2_addrs := map snd failed_ips2 in
  let '(excl1, common) :=
    split_octets failed_ips1_octets failed_ips2_octets [] [] in
  let excl2 := excl_octets failed_ips2_octets failed_ips1_octets [] in
  let excl1 := sort excl1 in
  let excl2 := sort excl2 in
  let common := sort common in
  let printed :=
    match failed_ips1, failed_ips2 with
    | [], [] => [LNoFailures cidr1 cidr2]
    | _, _ => [LFailedRequests cidr1 failed_ips1_addrs;
               LFailedRequests cidr2 failed_ips2_addrs;
               LOctetsButNot cidr1 cidr2 excl1;
               LOctetsButNot cidr2 cidr1 excl2;
               LOctetsBoth cidr1 cidr2 common]
    end in
  (printed, mkResult failed_ips1 failed_ips2 excl1 excl2 common).

(* ================================================================== *)
(** * [ping_thread] and the two thread pools                           *)
(* ================================================================== *)

(** What the body of the [while attempt < 4] loop decides once the return
    code is known. *)
Inductive verdict : Type :=
| Up      (* return_code == 0: print "is up", break *)
| Down    (* return_code != 0 and attempt == 3: print "is down", append, break *)
| Retry.  (* print "failed ping", attempt += 1 *)

Definition judge (return_code attempt : Z) : verdict :=
  if return_code =? 0 then Up
  else if negb (return_code =? 0) && (attempt =? 3) then Down
  else Retry.

Inductive pool_id : Type := P1 | P2.

Definition pool_id_eqb (a b : pool_id) : bool :=
  match a, b with
  | P1, P1 | P2, P2 => true
  | _, _ => false
  end.

(** Where a worker thread stands in [ping_thread]. *)
Inductive wstate : Type :=
| WGet                                       (* at [ip = q.get()] *)
| WPing (ip : target) (attempt : Z)          (* at [while attempt < 4] *)
| WBranch (ip : target) (attempt : Z) (return_code : Z)
                                             (* at [if return_code == 0] *)
| WTaskDone.                                 (* at [q.task_done()] *)

(** One thread pool: its [queue.Queue] (the items and the counter
    [unfinished_tasks]), its worker threads in the order they were started,
    and its failure list. *)
Record pool : Type := mkPool {
  queue : list target;
  unfinished_tasks : nat;
  workers : list wstate;
  faillist : list target
}.

(** One call of [get_returncode], as a mock records it. *)
Record call : Type := mkCall {
  c_pool : pool_id;
  c_worker : nat;
  c_ip : target;
  c_attempt : Z;
  c_rc : Z
}.

(** What the main thread still has to do in [initiate_ping_queues] once
    both address lists are built. *)
Inductive minstr : Type :=
| MStart (p : pool_id) (i : nat)     (* Thread(target=ping_thread, ...).start() *)
| MPut (p : pool_id) (ip : target)   (* ips_q.put(ip) *)
| MJoin (p : pool_id).               (* ips_q.join() *)

Record state : Type := mkState {
  main_pc : list minstr;
  pool1 : pool;
  pool2 : pool;
  calls : list call;      (* newest first *)
  stdout : list line      (* oldest first *)
}.

Inductive tid : Type :=
| TMain
| TWorker (p : pool_id) (i : nat).

Definition get_pool (p : pool_id) (s : state) : pool :=
  match p with P1 => pool1 s | P2 => pool2 s end.

Definition set_pool (p : pool_id) (pl : pool) (s : state) : state :=
  match p with
  | P1 => mkState (main_pc s) pl (pool2 s) (calls s) (stdout s)
  | P2 => mkState (main_pc s) (pool1 s) pl (calls s) (stdout s)
  end.

Definition set_main_pc (pc : list minstr) (s : state) : state :=
  mkState pc (pool1 s) (pool2 s) (calls s) (stdout s).

Definition add_call (c : call) (s : state) : state :=
  mkState (main_pc s) (pool1 s) (pool2 s) (c :: calls s) (stdout s).

Definition print (l : line) (s : state) : state :=
  mkState (main_pc s) (pool1 s) (pool2 s) (calls s) (stdout s ++ [l]).

(** Replace element [i] of a list (nothing happens out of range). *)
Fixpoint upd {A : Type} (i : nat) (x : A) (l : list A) : list A :=
  match l, i with
  | [], _ => []
  | _ :: r, O => x :: r
  | y :: r, S j => y :: upd j x r
  end.

Definition set_worker (i : nat) (w : wstate) (pl : pool) : pool :=
  mkPool (queue pl) (unfinished_tasks pl) (upd i w (workers pl)) (faillist pl).

Definition num_threads : nat := 20.

(** The main thread's program, in the order of the source: start pool 1,
    fill queue 1, start pool 2, fill queue 2, join queue 1, join queue 2. *)
Definition main_program (ips1 ips2 : list target) : list minstr :=
  map (MStart P1) (seq 0 num_threads) ++ map (MPut P1) ips1 ++
  map (MStart P2) (seq 0 num_threads) ++ map (MPut P2) ips2 ++
  [MJoin P1; MJoin P2].

Definition empty_pool : pool := mkPool [] 0 [] [].

Definition initial_state (out : list line) (ips1 ips2 : list target) : state :=
  mkState (main_program ips1 ips2) empty_pool empty_pool [] out.

(** What a run leaves behind besides its outcome: the printed lines, the
    calls of [get_returncode] (newest first) and the number of worker
    threads started. *)
Record effects : Type := mkEffects {
  e_stdout : list line;
  e_calls : list call;
  e_threads : nat
}.

Definition effects_of (s : state) : effects :=
  mkEffects (stdout s) (calls s)
            (List.length (workers (pool1 s)) + List.length (workers (pool2 s))).

Definition print_lines (ls : list line) (s : state) : state :=
  fold_left (fun s l => print l s) ls s.

Section Sweep.

(** [get_returncode(ip, response)]: the return code of the ping just
    run.  It is the seam the tests mock; its first argument here is the
    number of calls made before this one, so that a mock with a
    [side_effect] sequence is a function of it, and a real ping is any
    such function. *)
Variable get_returncode : nat -> target -> Z.

(** One atomic action of the main thread; [None] when it cannot move
    (it has returned, or it waits in [join]). *)
Definition step_main (s : state) : option state :=
  match main_pc s with
  | [] => None
  | MStart p _ :: pc =>
      let pl := get_pool p s in
      Some (set_main_pc pc
              (set_pool p (mkPool (queue pl) (unfinished_tasks pl)
                                  (workers pl ++ [WGet]) (faillist pl)) s))
  | MPut p ip :: pc =>
      let pl := get_pool p s in
      Some (set_main_pc pc
              (set_pool p (mkPool (queue pl ++ [ip]) (S (unfinished_tasks pl))
                                  (workers pl) (faillist pl)) s))
  | MJoin p :: pc =>
      if (unfinished_tasks (get_pool p s) =? 0)%nat
      then Some (set_main_pc pc s) else None
  end.

(** One atomic action of [ping_thread] as run by worker [i] of pool [p],
    whose queue and failure list are those of the pool; [None] when there is
    no such thread or it waits in [q.get()] on an empty queue. *)
Definition ping_thread (p : pool_id) (i : nat) (s : state) : option state :=
  let pl := get_pool p s in
  match nth_error (workers pl) i with
  | None => None
  | Some WGet =>
      match queue pl with
      | [] => None
      | ip :: q' =>
          Some (set_pool p (mkPool q' (unfinished_tasks pl)
                                   (upd i (WPing ip 1) (workers pl))
                                   (faillist pl)) s)
      end
  | Some (WPing ip attempt) =>
      if attempt <? 4 then
        let return_code := get_returncode (List.length (calls s)) ip in
        Some (add_call (mkCall p i ip attempt return_code)
                (set_pool p (set_worker i (WBranch ip attempt return_code) pl) s))
      else Some (set_pool p (set_worker i WTaskDone pl) s)
  | Some (WBranch ip attempt return_code) =>
      match judge return_code attempt with
      | Up =>
          Some (print (LIsUp (snd ip))
                  (set_pool p (set_worker i WTaskDone pl) s))
      | Down =>
          Some (print (LIsDown (snd ip))
                  (set_pool p (mkPool (queue pl) (unfinished_tasks pl)
                                      (upd i WTaskDone (workers pl))
                                      (faillist pl ++ [ip])) s))
      | Retry =>
          Some (print (LFailedPing (snd ip) attempt)
                  (set_pool p (set_worker i (WPing ip (attempt + 1)) pl) s))
      end
  | Some WTaskDone =>
      Some (set_pool p (mkPool (queue pl) (Nat.pred (unfinished_tasks pl))
                               (upd i WGet (workers pl)) (faillist pl)) s)
  end.

Definition step (t : tid) (s : state) : option state :=
  match t with
  | TMain => step_main s
  | TWorker p i => ping_thread p i s
  end.

(** Run a schedule: each entry names the thread that moves next; a
    thread that cannot move leaves the state as it is. *)
Fixpoint run (sched : list tid) (s : state) : state :=
  match sched with
  | [] => s
  | t :: rest =>
      match step t s with
      | Some s' => run rest s'
      | None => run rest s
      end
  end.

(** [initiate_ping_queues(cidr1, cidr2, skip)] under the schedule
    [sched], with [out] already printed. *)
Definition initiate_ping_queues (cidr1 cidr2 : string) (skip : pyval)
                                (out : list line) (sched : list tid)
  : outcome result * effects :=
  match enumerate_ips cidr1 skip with
  | inl e => (Raised e, mkEffects out [] 0)
  | inr ips1 =>
      match enumerate_ips cidr2 skip with
      | inl e => (Raised e, mkEffects out [] 0)
      | inr ips2 =>
          let s := run sched (initial_state out ips1 ips2) in
          match main_pc s with
          | [] =>
              let '(printed, r) :=
                print_results cidr1 (faillist (pool1 s))
                              cidr2 (faillist (pool2 s)) in
              (Returned r, effects_of (print_lines printed s))
          | _ => (Running, effects_of s)
          end
      end
  end.

End Sweep.

(* ================================================================== *)
(** * [main]                                                           *)
(* ================================================================== *)

(** What [getopt.getopt(argv, "h", ["cidr1=", "cidr2=", "skip="])] gives:
    a [GetoptError], or the list of [(opt, arg)] pairs. *)
Inductive getopt_result : Type :=
| GetoptError
| GetoptOk (opts : list (string * string)).

(** The [for opt, arg in opts] loop of [main]: the lines printed and
    either the final [(cidr1, cidr2, skip)] or the way the loop was left. *)
Fixpoint read_opts (opts : list (string * string)) (cidr1 cidr2 : string)
                   (skip : pyval)
  : list line * outcome (string * string * pyval) :=
  match opts with
  | [] => ([], Returned (cidr1, cidr2, skip))
  | (opt, arg) :: rest =>
      if String.eqb opt "-h" then ([LHelp], SysExit None)
      else if PyStr.contains opt "--cidr1" then
        let cidr1 := arg in
        if negb (String.eqb (PyStr.last3 cidr1) "/24")
        then ([LOnly24], SysExit None)
        else read_opts rest cidr1 cidr2 skip
      else if PyStr.contains opt "--cidr2" then
        let cidr2 := arg in
        if negb (String.eqb (PyStr.last3 cidr2) "/24")
        then ([LOnly24], SysExit None)
        else read_opts rest cidr1 cidr2 skip
      else if PyStr.contains opt "--skip" then
        match PyStr.int_of_str arg with
        | None =>
            (* ValueError, caught by [except ValueError or AssertionError],
               which is [except ValueError] *)
            ([LSkipInvalid], SysExit None)
        | Some skip =>
            if (0 <=? skip) && (skip <=? 255)
            then read_opts rest cidr1 cidr2 (PInt skip)
            else (* the assert fails; AssertionError is not caught *)
              ([], Raised AssertionError)
        end
      else ([], Raised AssertionError)
  end.

Section Main.

Variable get_returncode : nat -> target -> Z.

(** [main(argv)], from the result of [getopt] on [argv]. *)
Definition main (g : getopt_result) (sched : list tid)
  : outcome result * effects :=
  let cidr1 := "192.168.1.0/24" in
  let cidr2 := "192.168.2.0/24" in
  let skip := PStr "" in
  match g with
  | GetoptError => (SysExit (Some 2), mkEffects [LUsage] [] 0)
  | GetoptOk opts =>
      match read_opts opts cidr1 cidr2 skip with
      | (out, Returned (cidr1, cidr2, skip)) =>
          initiate_ping_queues get_returncode cidr1 cidr2 skip
            (out ++ [LBlank; LCidr1 cidr1; LCidr2 cidr2]) sched
      | (out, SysExit code) => (SysExit code, mkEffects out [] 0)
      | (out, Raised e) => (Raised e, mkEffects out [] 0)
      | (out, Running) => (Running, mkEffects out [] 0)
      end
  end.

End Main.

(** A schedule that lets the main thread run up to its first [join], then
    lets worker 0 of each pool work through its queue, then lets the main
    thread finish. *)
Definition one_worker_schedule (n1 n2 : nat) : list tid :=
  repeat TMain (2 * num_threads + n1 + n2) ++
  repeat (TWorker P1 0) (8 * n1) ++
  repeat (TWorker P2 0) (8 * n2) ++
  [TMain; TMain].

(** A schedule in which the twenty workers of both pools and the main
    thread take turns. *)
Definition round_robin_round : list tid :=
  TMain :: flat_map (fun i => [TWorker P1 i; TWorker P2 i]) (seq 0 num_threads).

Definition round_robin (rounds : nat) : list tid :=
  List.concat (repeat round_robin_round rounds).

(* ================================================================== *)
(** * Vocabulary of the statements                                     *)
(* ================================================================== *)

(** No character of [s] is [sep]. *)
Definition free_of (sep : ascii) (s : string) : bool :=
  PyStr.all_chars (fun c => negb (Ascii.eqb c sep)) s.

(** The whole numbers [lo, lo+1, ..., lo+n-1]. *)
Definition zrange (lo : Z) (n : nat) : list Z :=
  map (fun k => lo + Z.of_nat k) (seq 0 n).

(** The address of a /24 network [net] at offset [k], as [str] prints it. *)
Definition dotted (net : IPAddress.IPv4Network) (k : Z) : string :=
  let a := IPAddress.network_address net in
  PyStr.join_dot [PyStr.str_int (IPAddress.octet 0 a);
                  PyStr.str_int (IPAddress.octet 1 a);
                  PyStr.str_int (IPAddress.octet 2 a);
                  PyStr.str_int k].

(** The tuple queued for an address, and the test of the loop. *)
Definition target_of (ip : Z) : target :=
  (IPAddress.octet 3 ip, IPAddress.str ip).

Definition kept (skip : pyval) (ip : Z) : bool :=
  negb ((IPAddress.octet 3 ip =? 0) || int_eq_pyval (IPAddress.octet 3 ip) skip).

(** [cidr] is accepted by [IPv4Network] and is a /24. *)
Definition valid24 (cidr : string) (net : IPAddress.IPv4Network) : Prop :=
  IPAddress.parse_network cidr = Some net /\ IPAddress.prefixlen net = 24.

(** [cidr] is accepted by [IPv4Network] and has exactly 256 addresses. *)
Definition denotes_256 (cidr : string) : Prop :=
  exists net, IPAddress.parse_network cidr = Some net /\
              List.length (IPAddress.iter net) = 256%nat.

(** The two default ranges of [main]. *)
Definition default_net1 : IPAddress.IPv4Network := IPAddress.mkNet 3232235776 24.

Definition default_net2 : IPAddress.IPv4Network := IPAddress.mkNet 3232236032 24.

(** The targets of a /24 network when nothing is skipped. *)
Definition all_targets (net : IPAddress.IPv4Network) : list target :=
  map (fun k => (k, dotted net k)) (zrange 1 255).

(** Forgetting the addresses of a failure list. *)
Definition erase_addrs (l : list target) : list target :=
  map (fun t => (fst t, "")) l.

(** The three derived sequences of a result. *)
Definition derived (r : result) : list Z * list Z * list Z :=
  (failed_ips1_excl_octets r, failed_ips2_excl_octets r,
   failed_ips_common_octets r).

(** The failure list of pool [p] in a result. *)
Definition failed_of (p : pool_id) (r : result) : list target :=
  match p with P1 => failed_ips1 r | P2 => failed_ips2 r end.

(** The range of pool [p]. *)
Definition pick {A : Type} (p : pool_id) (x1 x2 : A) : A :=
  match p with P1 => x1 | P2 => x2 end.

Definition target_eq_dec (x y : target) : {x = y} + {x <> y}.
Proof. decide equality; [apply string_dec | apply Z.eq_dec]. Defined.

(** Number of occurrences of [x] in [l]. *)
Definition cnt (x : target) (l : list target) : nat :=
  count_occ target_eq_dec l x.

(** The targets the main thread has still to put on the queue of [p]. *)
Fixpoint unput (p : pool_id) (pc : list minstr) : list target :=
  match pc with
  | [] => []
  | MPut q ip :: r => if pool_id_eqb q p then ip :: unput p r else unput p r
  | _ :: r => unput p r
  end.

(** The target a worker is probing, if any. *)
Definition holding (w : wstate) : list target :=
  match w with
  | WPing ip _ | WBranch ip _ _ => [ip]
  | WGet | WTaskDone => []
  end.

Definition inflight (ws : list wstate) : list target := flat_map holding ws.

Definition at_task_done (w : wstate) : nat :=
  match w with WTaskDone => 1 | _ => 0 end.

Definition done_count (ws : list wstate) : nat :=
  list_sum (map at_task_done ws).

(** The calls of [get_returncode] made for target [t] of pool [p], newest
    first. *)
Definition is_call_of (p : pool_id) (t : target) (c : call) : bool :=
  pool_id_eqb (c_pool c) p && if target_eq_dec (c_ip c) t then true else false.

Definition calls_of (p : pool_id) (t : target) (cs : list call) : list call :=
  filter (is_call_of p t) cs.

(** [cs], newest first, are exactly the attempts [n], ..., 1 of worker [i]
    of pool [p] on target [t], each with a nonzero return code. *)
Fixpoint failed_run (p : pool_id) (i : nat) (t : target) (n : nat)
                    (cs : list call) : Prop :=
  match n, cs with
  | O, [] => True
  | S m, c :: r =>
      c = mkCall p i t (Z.of_nat (S m)) (c_rc c) /\ c_rc c <> 0 /\
      failed_run p i t m r
  | _, _ => False
  end.

(** [cs] is the history of a target found up: some failed attempts of one
    worker, at most two, then one attempt of that worker returning 0. *)
Definition up_history (p : pool_id) (t : target) (cs : list call) : Prop :=
  exists i n r, (n <= 2)%nat /\
    cs = mkCall p i t (Z.of_nat (S n)) 0 :: r /\ failed_run p i t n r.

(** [cs] is the history of a target found down: three failed attempts of
    one worker. *)
Definition down_history (p : pool_id) (t : target) (cs : list call) : Prop :=
  exists i, failed_run p i t 3 cs.

(** The attempt numbers [n], [n-1], ..., 1. *)
Definition attempts_desc (n : nat) : list Z := map Z.of_nat (rev (seq 1 n)).

(** Target [t] of pool [p] has three calls in the log, all nonzero. *)
Definition down_in_log (p : pool_id) (cs : list call) (t : target) : bool :=
  Nat.eqb (List.length (calls_of p t cs)) 3 &&
  forallb (fun c => negb (c_rc c =? 0)) (calls_of p t cs).

(** What the log says about the target worker [i] of pool [p] holds. *)
Definition worker_ok (p : pool_id) (i : nat) (w : wstate) (cs : list call) : Prop :=
  match w with
  | WGet | WTaskDone => True
  | WPing t a =>
      exists n, (n <= 2)%nat /\ a = Z.of_nat (S n) /\
                failed_run p i t n (calls_of p t cs)
  | WBranch t a rc =>
      exists n r, (n <= 2)%nat /\ a = Z.of_nat (S n) /\
                  calls_of p t cs = mkCall p i t a rc :: r /\
                  failed_run p i t n r
  end.

(** The targets enumerated for pool [p]. *)
Definition ips_of (ips1 ips2 : list target) (p : pool_id) : list target :=
  match p with P1 => ips1 | P2 => ips2 end.

(** The invariant of pool [p]; [ups] lists the targets already found up. *)
Record pool_inv (ips1 ips2 : list target) (p : pool_id) (s : state)
                (ups : list target) : Prop := {
  pi_count : forall x,
    cnt x (ips_of ips1 ips2 p)
    = (cnt x (unput p (main_pc s)) + cnt x (queue (get_pool p s)) +
       cnt x (inflight (workers (get_pool p s))) +
       cnt x ups + cnt x (faillist (get_pool p s)))%nat;
  pi_unfinished :
    unfinished_tasks (get_pool p s)
    = (List.length (queue (get_pool p s)) +
       List.length (inflight (workers (get_pool p s))) +
       done_count (workers (get_pool p s)))%nat;
  pi_workers : forall i w,
    nth_error (workers (get_pool p s)) i = Some w ->
    worker_ok p i w (calls s);
  pi_waiting : forall t,
    In t (unput p (main_pc s) ++ queue (get_pool p s)) ->
    calls_of p t (calls s) = [];
  pi_ups : forall t, In t ups -> up_history p t (calls_of p t (calls s));
  pi_failed : forall t,
    In t (faillist (get_pool p s)) ->
    down_history p t (calls_of p t (calls s));
  pi_calls : forall c,
    In c (calls s) -> c_pool c = p -> In (c_ip c) (ips_of ips1 ips2 p)
}.

(** Every recorded return code is what [get_returncode] gave at that
    point. *)
Fixpoint log_ok (get_returncode : nat -> target -> Z) (cs : list call) : Prop :=
  match cs with
  | [] => True
  | c :: r =>
      c_rc c = get_returncode (List.length r) (c_ip c) /\
      log_ok get_returncode r
  end.

Definition no_join (pc : list minstr) : Prop :=
  forall p, ~ In (MJoin p) pc.

(** Where the main thread stands: before the first [join], between the
    two, or after both; a queue it has joined has no unfinished task. *)
Definition pc_ok (s : state) : Prop :=
  (exists pre, no_join pre /\ main_pc s = pre ++ [MJoin P1; MJoin P2]) \/
  (main_pc s = [MJoin P2] /\ unfinished_tasks (pool1 s) = 0%nat) \/
  (main_pc s = [] /\ unfinished_tasks (pool1 s) = 0%nat /\
   unfinished_tasks (pool2 s) = 0%nat).

(** The invariant of every state a sweep reaches. *)
Definition inv (get_returncode : nat -> target -> Z)
               (ips1 ips2 : list target) (s : state) : Prop :=
  (exists ups1, pool_inv ips1 ips2 P1 s ups1) /\
  (exists ups2, pool_inv ips1 ips2 P2 s ups2) /\
  log_ok get_returncode (calls s) /\ pc_ok s.

(** Number of worker threads of pool [p] the main thread has still to
    start. *)
Fixpoint unstarted (p : pool_id) (pc : list minstr) : nat :=
  match pc with
  | [] => 0
  | MStart q _ :: r =>
      if pool_id_eqb q p then S (unstarted p r) else unstarted p r
  | _ :: r => unstarted p r
  end.

(** Steps the main thread still has to take for an instruction, counting
    for a [put] the eight a worker takes for the item. *)
Definition instr_weight (i : minstr) : nat :=
  match i with
  | MStart _ _ => 1
  | MPut _ _ => 9
  | MJoin _ => 1
  end.

(** Steps a worker has at most left for the item it holds. *)
Definition worker_weight (w : wstate) : nat :=
  match w with
  | WGet => 0
  | WPing _ a => 3 + 2 * Z.to_nat (3 - a)
  | WBranch _ a _ => 2 + 2 * Z.to_nat (3 - a)
  | WTaskDone => 1
  end.

Definition pool_weight (pl : pool) : nat :=
  8 * List.length (queue pl) + list_sum (map worker_weight (workers pl)).

(** A bound on the number of steps left in a state. *)
Definition measure (s : state) : nat :=
  list_sum (map instr_weight (main_pc s)) +
  pool_weight (pool1 s) + pool_weight (pool2 s).

(** Each pool has [num_threads] workers, started or still to start. *)
Definition threads_ok (s : state) : Prop :=
  forall p, (List.length (workers (get_pool p s)) + unstarted p (main_pc s)
             = num_threads)%nat.

(** The sweep was started: [initiate_ping_queues] got as far as its
    threads. *)
Definition sweep_started {A : Type} (o : outcome A) : Prop :=
  match o with
  | Returned _ | Running => True
  | SysExit _ | Raised _ => False
  end.

(** Rejected: [sys.exit] or an exception, with no call of
    [get_returncode] and no worker thread started. *)
Definition rejected (X : outcome result * effects) : Prop :=
  ((exists code, fst X = SysExit code) \/ (exists e, fst X = Raised e)) /\
  e_calls (snd X) = [] /\ e_threads (snd X) = 0%nat.

(* ================================================================== *)
(** * The lines of the workers; fair schedules                         *)
(* ================================================================== *)

(** The line a worker prints for an attempt once its return code is
    known: the three [print] calls of [ping_thread]. *)
Definition line_for (ip : target) (attempt return_code : Z) : line :=
  match judge return_code attempt with
  | Up => LIsUp (snd ip)
  | Down => LIsDown (snd ip)
  | Retry => LFailedPing (snd ip) attempt
  end.

Definition line_of_call (c : call) : line :=
  line_for (c_ip c) (c_attempt c) (c_rc c).

(** The lines the workers have still to print for the return codes they
    hold. *)
Definition pending_line (w : wstate) : list line :=
  match w with
  | WBranch ip attempt return_code => [line_for ip attempt return_code]
  | _ => []
  end.

Definition pending_lines (ws : list wstate) : list line :=
  flat_map pending_line ws.

Definition pend (s : state) : list line :=
  pending_lines (workers (pool1 s)) ++ pending_lines (workers (pool2 s)).

(** What is printed after [out] is, up to order, one line per call of
    [get_returncode], less the lines still to print. *)
Definition lines_inv (out : list line) (s : state) : Prop :=
  exists W, stdout s = out ++ W /\
            Permutation (W ++ pend s) (map line_of_call (calls s)).






(* ================================================================== *)
(** * [verify_octets] of the test suite                                *)
(* ================================================================== *)

(** [x in l] for a string and a list of strings. *)
Definition str_in (x : string) (l : list string) : bool :=
  existsb (String.eqb x) l.

(** The prefix built from an address, [octets = ip_str.split(".")] and
    then the f-string of [octets[0]], [octets[1]] and [octets[2]]. *)
Definition cidr_prefix (ip_str : string) : exn + string :=
  let octets := PyStr.split "." ip_str in
  match nth_error octets 0, nth_error octets 1, nth_error octets 2 with
  | Some o0, Some o1, Some o2 => inr (o0 ++ "." ++ o1 ++ "." ++ o2)%string
  | _, _, _ => inl IndexError
  end.

(** The f-string of a prefix and an [int] octet. *)
Definition full_ip (cidr_prefix : string) (octet : Z) : string :=
  (cidr_prefix ++ "." ++ PyStr.str_int octet)%string.

(** [verify_octets(result)]: [inr tt] when every [assertTrue] holds; a
    failing one raises [AssertionError], and [result[0][0]] or
    [result[1][0]] on an empty failure list raises [IndexError]. *)
Definition verify_octets (r : result) : exn + unit :=
  match failed_ips1 r with
  | [] => inl IndexError
  | item1 :: _ =>
      match cidr_prefix (snd item1) with
      | inl e => inl e
      | inr cidr1_prefix =>
          match failed_ips2 r with
          | [] => inl IndexError
          | item2 :: _ =>
              match cidr_prefix (snd item2) with
              | inl e => inl e
              | inr cidr2_prefix =>
                  let cidr1_ips_list := map snd (failed_ips1 r) in
                  let cidr2_ips_list := map snd (failed_ips2 r) in
                  if negb (forallb
                             (fun octet =>
                                str_in (full_ip cidr1_prefix octet) cidr1_ips_list)
                             (failed_ips1_excl_octets r))
                  then inl AssertionError
                  else if negb (forallb
                                  (fun octet =>
                                     str_in (full_ip cidr2_prefix octet)
                                            cidr2_ips_list)
                                  (failed_ips2_excl_octets r))
                  then inl AssertionError
                  else if negb (forallb
                                  (fun octet =>
                                     str_in (full_ip cidr1_prefix octet)
                                            cidr1_ips_list &&
                                     str_in (full_ip cidr2_prefix octet)
                                            cidr2_ips_list)
                                  (failed_ips_common_octets r))
                  then inl AssertionError
                  else inr tt
              end
          end
      end
  end.

(* ================================================================== *)
(** * Test doubles and concrete runs                                   *)
(* ================================================================== *)

(** A return-code generator in the style of the tests' mocks: the first
    [k] calls fail, the later ones succeed. *)
Definition first_fail (k : nat) (n : nat) (t : target) : Z :=
  if (n <? k)%nat then 1 else 0.

Definition always (rc : Z) (n : nat) (t : target) : Z := rc.

(** Two small ranges, a generator whose first four calls fail, and the
    schedule that lets one worker per pool do all the work. *)
Definition demo_sweep : outcome result * effects :=
  initiate_ping_queues (first_fail 4) "10.0.0.0/30" "10.0.1.0/30"
    (PStr "") [] (one_worker_schedule 3 3).

Definition demo_ips1 : list target :=
  [(1, "10.0.0.1"); (2, "10.0.0.2"); (3, "10.0.0.3")].

Definition demo_ips2 : list target :=
  [(1, "10.0.1.1"); (2, "10.0.1.2"); (3, "10.0.1.3")].

(** A sweep of two small ranges with offset 2 excluded and every ping
    failing. *)
Definition skip_sweep : outcome result * effects :=
  initiate_ping_queues (always 1) "10.0.0.0/30" "10.0.1.0/30"
    (PInt 2) [] (one_worker_schedule 2 2).

(** The default sweep with every ping failing, and with every ping
    succeeding, under the schedule where one worker per pool does all the
    work. *)
Definition all_down_run : outcome result * effects :=
  main (always 1) (GetoptOk []) (one_worker_schedule 255 255).

Definition all_up_run : outcome result * effects :=
  main (always 0) (GetoptOk []) (one_worker_schedule 255 255).

(* ================================================================== *)
(** * Sanity checks of the model on concrete inputs                    *)
(* ================================================================== *)

Example str_int_254 : PyStr.str_int 254 = "254".
Proof. reflexivity. Qed.

Example str_int_0 : PyStr.str_int 0 = "0".
Proof. reflexivity. Qed.

Example int_of_str_ex : map PyStr.int_of_str [" 42 "; "+7"; "-0012"; "1_000"; "1__0"; "_1"; "1_"; ""; "4a"; "300"]
  = [Some 42; Some 7; Some (-12); Some 1000; None; None; None; None; None; Some 300].
Proof. reflexivity. Qed.

(** [int] skips TAB..CR and space but not FS..US, and refuses more than
    4300 digits, leading zeros included. *)
Example int_of_str_space :
  map PyStr.int_of_str
      [String (ascii_of_nat 28) "300"; String (ascii_of_nat 31) "300";
       String (ascii_of_nat 11) "300"; "300" ++ String (ascii_of_nat 12) ""]%string
  = [None; None; Some 300; Some 300].
Proof. reflexivity. Qed.

Example int_of_str_limit :
  map (fun s => match PyStr.int_of_str s with Some _ => true | None => false end)
      [string_of_list_ascii (repeat "1"%char 4300);
       string_of_list_ascii (repeat "1"%char 4301);
       string_of_list_ascii (repeat "0"%char 4301);
       String "-" (string_of_list_ascii (repeat "1"%char 4300))]
  = [true; false; false; true].
Proof. vm_compute. reflexivity. Qed.

Example split_ex : PyStr.split "."%char "192.168.1.7" = ["192"; "168"; "1"; "7"].
Proof. reflexivity. Qed.

Example split_ex2 : PyStr.split "/"%char "/24" = [""; "24"].
Proof. reflexivity. Qed.

Example last3_ex : map PyStr.last3 ["192.168.1.0/24"; "/2"; ""; "x/24"] = ["/24"; "/2"; ""; "/24"].
Proof. reflexivity. Qed.

Example contains_ex : map (fun o => PyStr.contains o "--cidr1") ["--cidr1"; "--cidr2"; "--skip"; "-h"; ""; "cidr"]
  = [true; false; false; false; true; true].
Proof. reflexivity. Qed.

Example parse_ex1 : IPAddress.parse_network "192.168.1.0/24"
  = Some (IPAddress.mkNet 3232235776 24).
Proof. reflexivity. Qed.

Example parse_ex2 : map IPAddress.parse_network
  ["192.168.1.5/24"; "192.168.1.0/33"; "192.168.01.0/24"; "1.2.3/24"; "1.2.3.0/24/24"; "/24"; "foo/24"; "1.2.3.256/24"]
  = [None; None; None; None; None; None; None; None].
Proof. reflexivity. Qed.

Example parse_ex3 : map IPAddress.parse_network
  ["10.0.0.0/255.255.255.0"; "10.0.0.0/0.0.0.255"; "10.0.0.4/30"; "10.0.0.4"; "0.0.0.0/0.0.0.0"; "10.0.0.0/024"]
  = [Some (IPAddress.mkNet 167772160 24); Some (IPAddress.mkNet 167772160 24);
     Some (IPAddress.mkNet 167772164 30); Some (IPAddress.mkNet 167772164 32);
     Some (IPAddress.mkNet 0 0); Some (IPAddress.mkNet 167772160 24)].
Proof. reflexivity. Qed.

Example iter_ex : map IPAddress.str (IPAddress.iter (IPAddress.mkNet 167772164 30))
  = ["10.0.0.4"; "10.0.0.5"; "10.0.0.6"; "10.0.0.7"].
Proof. reflexivity. Qed.

Example iter_len_ex : List.length (IPAddress.iter (IPAddress.mkNet 3232235776 24)) = 256%nat.
Proof. reflexivity. Qed.

Example print_results_ex :
  snd (print_results "a" [(9, "1.1.1.9"); (3, "1.1.1.3"); (7, "1.1.1.7")]
                     "b" [(7, "2.2.2.7"); (250, "2.2.2.250"); (4, "2.2.2.4")])
  = mkResult [(9, "1.1.1.9"); (3, "1.1.1.3"); (7, "1.1.1.7")]
             [(7, "2.2.2.7"); (250, "2.2.2.250"); (4, "2.2.2.4")]
             [3; 9] [4; 250] [7].
Proof. reflexivity. Qed.

Example enumerate_ex :
  enumerate_ips "10.0.0.252/30" (PInt 254)
  = inr [(252, "10.0.0.252"); (253, "10.0.0.253"); (255, "10.0.0.255")].
Proof. reflexivity. Qed.

(** Two workers of the first pool take the first two targets and the
    second finishes first: the failure list comes out in another order than
    the enumeration, the three derived sequences do not change. *)
Example interleaving_ex :
  fst (initiate_ping_queues (always 1) "10.0.0.0/30" "10.0.1.0/30" (PStr "") []
         (repeat TMain 46 ++ [TWorker P1 0; TWorker P1 1] ++
          repeat (TWorker P1 1) 7 ++ repeat (TWorker P1 0) 15 ++
          repeat (TWorker P2 5) 24 ++ [TMain; TMain]))
  = Returned (mkResult [(2, "10.0.0.2"); (1, "10.0.0.1"); (3, "10.0.0.3")]
                       [(1, "10.0.1.1"); (2, "10.0.1.2"); (3, "10.0.1.3")]
                       [] [] [1; 2; 3]).
Proof. vm_compute. reflexivity. Qed.

(** A schedule that stops before the main thread is past its joins gives
    no result. *)
Example running_ex :
  fst (initiate_ping_queues (always 1) "10.0.0.0/30" "10.0.1.0/30" (PStr "") []
         (repeat TMain 60 ++ repeat (TWorker P1 0) 10))
  = Running.
Proof. vm_compute. reflexivity. Qed.

Example main_options_ex :
  map (fun opts => main (always 0) (GetoptOk opts) [])
      [[("-h", "")]; [("--cidr1", "10.0.0.0/16")]; [("--cidr2", "10.0.0.1/24")];
       [("--skip", "x")]; [("--skip", "256")]; [("--verbose", "")]]
  = [(SysExit None, mkEffects [LHelp] [] 0);
     (SysExit None, mkEffects [LOnly24] [] 0);
     (Raised ValueError,
      mkEffects [LBlank; LCidr1 "192.168.1.0/24"; LCidr2 "10.0.0.1/24"] [] 0);
     (SysExit None, mkEffects [LSkipInvalid] [] 0);
     (Raised AssertionError, mkEffects [] [] 0);
     (Raised AssertionError, mkEffects [] [] 0)].
Proof. vm_compute. reflexivity. Qed.

Example main_getopt_error_ex :
  main (always 0) GetoptError [] = (SysExit (Some 2), mkEffects [LUsage] [] 0).
Proof. reflexivity. Qed.

(** The first 300 calls fail, offset 42 is skipped, and the threads take
    turns: the main thread fills the first queue while its workers already
    drain it, so all the failures fall in the first range. *)
Example round_robin_ex :
  match fst (main (first_fail 300) (GetoptOk [("--skip", "42")]) (round_robin 700)) with
  | Returned r =>
      (List.length (failed_ips1 r), List.length (failed_ips2 r),
       List.length (failed_ips1_excl_octets r),
       List.length (failed_ips_common_octets r),
       existsb (Z.eqb 42) (map fst (failed_ips1 r)))
  | _ => (0%nat, 0%nat, 0%nat, 0%nat, true)
  end
  = (98%nat, 0%nat, 98%nat, 0%nat, false).
Proof. vm_compute. reflexivity. Qed.

(* ================================================================== *)
(** * Lists: sorting and the classification loops                      *)
(* ================================================================== *)

Section SortFacts.

Lemma insert_sorted_perm (x : Z) (l : list Z) :
  Permutation (x :: l) (insert_sorted x l).
Proof.
  induction l as [|y r IH]; simpl.
  - apply Permutation_refl.
  - destruct (x <=? y).
    + apply Permutation_refl.
    + apply perm_trans with (y :: x :: r).
      * apply perm_swap.
      * apply perm_skip, IH.
Qed.

Lemma sort_perm (l : list Z) : Permutation l (sort l).
Proof.
  induction l as [|x r IH]; simpl.
  - apply perm_nil.
  - apply perm_trans with (x :: sort r).
    + apply perm_skip, IH.
    + apply insert_sorted_perm.
Qed.

Lemma insert_sorted_sorted (x : Z) (l : list Z) :
  Sorted Z.le l -> Sorted Z.le (insert_sorted x l).
Proof.
  induction l as [|y r IH]; simpl; intros Hs.
  - repeat constructor.
  - destruct (x <=? y) eqn:E.
    + apply Z.leb_le in E. constructor; [exact Hs | constructor; exact E].
    + apply Z.leb_gt in E.
      inversion Hs as [|? ? Hr Hhd]; subst.
      constructor.
      * apply IH, Hr.
      * destruct r as [|z r']; simpl.
        -- constructor. lia.
        -- destruct (x <=? z); constructor; [lia|].
           inversion Hhd; subst. assumption.
Qed.

Lemma sort_sorted (l : list Z) : Sorted Z.le (sort l).
Proof.
  induction l as [|x r IH]; simpl.
  - constructor.
  - apply insert_sorted_sorted, IH.
Qed.

Lemma sort_In (l : list Z) (x : Z) : In x (sort l) <-> In x l.
Proof.
  split; intros H.
  - eapply Permutation_in; [apply Permutation_sym, sort_perm | exact H].
  - eapply Permutation_in; [apply sort_perm | exact H].
Qed.

Lemma sort_length (l : list Z) : List.length (sort l) = List.length l.
Proof. symmetry. apply Permutation_length, sort_perm. Qed.

End SortFacts.

Lemma octet_in_In (o : Z) (l : list Z) : octet_in o l = true <-> In o l.
Proof.
  unfold octet_in. rewrite existsb_exists. split.
  - intros [x [Hin Heq]]. apply Z.eqb_eq in Heq. subst. exact Hin.
  - intros Hin. exists o. split; [exact Hin | apply Z.eqb_refl].
Qed.

Lemma octet_in_not_In (o : Z) (l : list Z) : octet_in o l = false <-> ~ In o l.
Proof.
  rewrite <- octet_in_In. destruct (octet_in o l); split; intros H; congruence.
Qed.

(** The two loops are filters that keep the order of their input. *)
Lemma split_octets_filter (octets others excl common : list Z) :
  split_octets octets others excl common
  = (excl ++ filter (fun o => negb (octet_in o others)) octets,
     common ++ filter (fun o => octet_in o others) octets).
Proof.
  revert excl common.
  induction octets as [|o r IH]; intros excl common; simpl.
  - now rewrite !app_nil_r.
  - destruct (octet_in o others); simpl; rewrite IH, <- app_assoc; reflexivity.
Qed.

Lemma excl_octets_filter (octets others excl : list Z) :
  excl_octets octets others excl
  = excl ++ filter (fun o => negb (octet_in o others)) octets.
Proof.
  revert excl.
  induction octets as [|o r IH]; intros excl; simpl.
  - now rewrite app_nil_r.
  - destruct (octet_in o others); simpl; rewrite IH; [reflexivity|].
    now rewrite <- app_assoc.
Qed.

(** The result tuple of [print_results], loop by loop. *)
Lemma print_results_result (cidr1 cidr2 : string) (f1 f2 : list target) :
  snd (print_results cidr1 f1 cidr2 f2)
  = mkResult f1 f2
      (sort (filter (fun o => negb (octet_in o (map fst f2))) (map fst f1)))
      (sort (filter (fun o => negb (octet_in o (map fst f1))) (map fst f2)))
      (sort (filter (fun o => octet_in o (map fst f2)) (map fst f1))).
Proof.
  unfold print_results.
  rewrite split_octets_filter, excl_octets_filter. reflexivity.
Qed.

Lemma erase_addrs_fst (l : list target) : map fst (erase_addrs l) = map fst l.
Proof. unfold erase_addrs. rewrite map_map. reflexivity. Qed.

(** C1: for all failure lists, [print_results] returns as exclusive
    octets of the first list the ascending sorted sequence of the offsets of
    the first list that are not offsets of the second, as exclusive octets
    of the second list the ascending sorted sequence of the offsets of the
    second that are not offsets of the first, and as common octets the
    ascending sorted sequence of the offsets of the first that are offsets
    of the second; membership is by offset value alone: erasing every
    address leaves the three sequences unchanged. *)
Theorem C1_classification (cidr1 cidr2 : string) (failuresA failuresB : list target) :
  let r := snd (print_results cidr1 failuresA cidr2 failuresB) in
  let A := map fst failuresA in
  let B := map fst failuresB in
  (Sorted Z.le (failed_ips1_excl_octets r) /\
   Permutation (failed_ips1_excl_octets r)
               (filter (fun o => negb (octet_in o B)) A) /\
   (forall o, In o (failed_ips1_excl_octets r) <-> In o A /\ ~ In o B)) /\
  (Sorted Z.le (failed_ips2_excl_octets r) /\
   Permutation (failed_ips2_excl_octets r)
               (filter (fun o => negb (octet_in o A)) B) /\
   (forall o, In o (failed_ips2_excl_octets r) <-> In o B /\ ~ In o A)) /\
  (Sorted Z.le (failed_ips_common_octets r) /\
   Permutation (failed_ips_common_octets r)
               (filter (fun o => octet_in o B) A) /\
   (forall o, In o (failed_ips_common_octets r) <-> In o A /\ In o B)) /\
  derived (snd (print_results cidr1 (erase_addrs failuresA)
                              cidr2 (erase_addrs failuresB))) = derived r.
Proof.
  intros r A B. subst r.
  rewrite !print_results_result. unfold derived. simpl.
  fold A B. rewrite !erase_addrs_fst. fold A B.
  assert (Hnot : forall l1 l2 o,
             In o (sort (filter (fun o => negb (octet_in o l2)) l1))
             <-> In o l1 /\ ~ In o l2).
  { intros l1 l2 o. rewrite sort_In, filter_In, negb_true_iff, octet_in_not_In.
    tauto. }
  assert (Hboth : forall l1 l2 o,
             In o (sort (filter (fun o => octet_in o l2) l1))
             <-> In o l1 /\ In o l2).
  { intros l1 l2 o. rewrite sort_In, filter_In, octet_in_In. tauto. }
  split; [|split; [|split]].
  - split; [apply sort_sorted | split; [apply Permutation_sym, sort_perm | apply Hnot]].
  - split; [apply sort_sorted | split; [apply Permutation_sym, sort_perm | apply Hnot]].
  - split; [apply sort_sorted | split; [apply Permutation_sym, sort_perm | apply Hboth]].
  - reflexivity.
Qed.

(** C10: the three derived sequences of [print_results] are pairwise
    disjoint, and the two failure lists are returned as they were given. *)
Theorem C10_disjoint_and_inputs_returned
  (cidr1 cidr2 : string) (failuresA failuresB : list target) :
  let r := snd (print_results cidr1 failuresA cidr2 failuresB) in
  (forall o, ~ (In o (failed_ips1_excl_octets r) /\ In o (failed_ips2_excl_octets r))) /\
  (forall o, ~ (In o (failed_ips1_excl_octets r) /\ In o (failed_ips_common_octets r))) /\
  (forall o, ~ (In o (failed_ips2_excl_octets r) /\ In o (failed_ips_common_octets r))) /\
  failed_ips1 r = failuresA /\
  failed_ips2 r = failuresB.
Proof.
  intros r. subst r. rewrite print_results_result. simpl.
  split; [|split; [|split; [|split; reflexivity]]]; intros o [H1 H2];
    apply sort_In, filter_In in H1; apply sort_In, filter_In in H2;
    destruct H1 as [H1a H1b]; destruct H2 as [H2a H2b];
    try apply negb_true_iff in H1b; try apply negb_true_iff in H2b.
  - apply octet_in_not_In in H1b. contradiction.
  - congruence.
  - apply octet_in_not_In in H1b. contradiction.
Qed.

(* ================================================================== *)
(** * Strings: splitting a dotted quad                                 *)
(* ================================================================== *)

Section StringFacts.

Lemma split_free (sep : ascii) (s : string) :
  free_of sep s = true -> PyStr.split sep s = [s].
Proof.
  induction s as [|c r IH]; simpl; intros H.
  - reflexivity.
  - apply andb_prop in H. destruct H as [Hc Hr].
    apply negb_true_iff in Hc. rewrite Hc, (IH Hr). reflexivity.
Qed.

Lemma split_app_sep (sep : ascii) (s t : string) :
  free_of sep s = true ->
  PyStr.split sep (s ++ String sep t)%string = s :: PyStr.split sep t.
Proof.
  induction s as [|c r IH]; simpl; intros H.
  - rewrite Ascii.eqb_refl. reflexivity.
  - apply andb_prop in H. destruct H as [Hc Hr].
    apply negb_true_iff in Hc. rewrite Hc, (IH Hr). reflexivity.
Qed.

Lemma split_join4 (a b c d : string) :
  free_of "."%char a = true -> free_of "."%char b = true ->
  free_of "."%char c = true -> free_of "."%char d = true ->
  PyStr.split "."%char (PyStr.join_dot [a; b; c; d]) = [a; b; c; d].
Proof.
  intros Ha Hb Hc Hd. unfold PyStr.join_dot. simpl.
  rewrite (split_app_sep _ a _ Ha), (split_app_sep _ b _ Hb),
          (split_app_sep _ c _ Hc), (split_free _ d Hd).
  reflexivity.
Qed.

Lemma zrange_In (lo : Z) (n : nat) (x : Z) :
  In x (zrange lo n) <-> lo <= x < lo + Z.of_nat n.
Proof.
  unfold zrange. rewrite in_map_iff. split.
  - intros [k [Hk Hin]]. apply in_seq in Hin. lia.
  - intros H. exists (Z.to_nat (x - lo)). split; [lia|].
    apply in_seq. lia.
Qed.

Lemma filter_cons_false {A : Type} (f : A -> bool) (x : A) (l : list A) :
  f x = false -> filter f (x :: l) = filter f l.
Proof. intros H. simpl. now rewrite H. Qed.

Lemma zrange_sorted (lo : Z) (n : nat) : Sorted Z.lt (zrange lo n).
Proof.
  unfold zrange. generalize 0%nat as m.
  induction n as [|n IH]; intros m.
  - constructor.
  - cbn [seq map]. constructor; [apply IH|].
    destruct n; cbn [seq map]; constructor. lia.
Qed.

Lemma zrange_0_256 : zrange 0 256 = 0 :: zrange 1 255.
Proof. vm_compute. reflexivity. Qed.

Lemma zrange_length (lo : Z) (n : nat) : List.length (zrange lo n) = n.
Proof. unfold zrange. now rewrite length_map, length_seq. Qed.

(** What [str] and [int] do on the 256 octet values, by enumeration. *)
Lemma octet_strings_ok :
  forallb (fun d => free_of "."%char (PyStr.str_int d) &&
                    match PyStr.int_of_str (PyStr.str_int d) with
                    | Some v => v =? d
                    | None => false
                    end)
          (zrange 0 256) = true.
Proof. vm_compute. reflexivity. Qed.

Lemma str_int_free (d : Z) :
  0 <= d < 256 -> free_of "."%char (PyStr.str_int d) = true.
Proof.
  intros H. pose proof octet_strings_ok as Hall.
  rewrite forallb_forall in Hall.
  specialize (Hall d). rewrite zrange_In in Hall.
  apply andb_prop in Hall; [tauto | lia].
Qed.

Lemma int_of_str_str_int (d : Z) :
  0 <= d < 256 -> PyStr.int_of_str (PyStr.str_int d) = Some d.
Proof.
  intros H. pose proof octet_strings_ok as Hall.
  rewrite forallb_forall in Hall.
  specialize (Hall d). rewrite zrange_In in Hall.
  apply andb_prop in Hall; [|lia]. destruct Hall as [_ Hall].
  destruct (PyStr.int_of_str (PyStr.str_int d)); [|discriminate].
  apply Z.eqb_eq in Hall. now subst.
Qed.

Lemma land255_mod (x : Z) : Z.land x 255 = x mod 256.
Proof. change 255 with (Z.ones 8). now rewrite Z.land_ones by lia. Qed.

Lemma octet_range (i ip : Z) : 0 <= IPAddress.octet i ip < 256.
Proof.
  unfold IPAddress.octet. rewrite land255_mod.
  apply Z.mod_pos_bound. lia.
Qed.

(** [int(str(ip).split(".")[3])] is the last octet of [ip]; it never
    raises. *)
Lemma final_octet_of_str (ip : Z) :
  final_octet_of (IPAddress.str ip) = inr (IPAddress.octet 3 ip).
Proof.
  unfold final_octet_of, IPAddress.str. cbn [map].
  rewrite split_join4 by (apply str_int_free, octet_range).
  cbn [nth_error].
  rewrite int_of_str_str_int by apply octet_range. reflexivity.
Qed.

End StringFacts.

(* ================================================================== *)
(** * The address enumeration                                          *)
(* ================================================================== *)

Section EnumerationFacts.

(** The loop never raises and is a filter followed by a map. *)
Lemma build_ips_spec (skip : pyval) (addrs : list Z) (ips : list target) :
  build_ips skip addrs ips
  = inr (ips ++ map target_of (filter (kept skip) addrs)).
Proof.
  revert ips. induction addrs as [|ip rest IH]; intros ips;
    cbn [build_ips filter].
  - cbn [map]. now rewrite app_nil_r.
  - rewrite final_octet_of_str. unfold kept at 1.
    destruct ((IPAddress.octet 3 ip =? 0)
              || int_eq_pyval (IPAddress.octet 3 ip) skip); cbn [negb map].
    + apply IH.
    + rewrite IH, <- app_assoc. reflexivity.
Qed.

Lemma enumerate_ips_spec (cidr : string) (skip : pyval) :
  enumerate_ips cidr skip
  = match IPAddress.parse_network cidr with
    | None => inl ValueError
    | Some net => inr (map target_of (filter (kept skip) (IPAddress.iter net)))
    end.
Proof.
  unfold enumerate_ips. destruct (IPAddress.parse_network cidr); [|reflexivity].
  now rewrite build_ips_spec.
Qed.

Lemma parse_network_strict (cidr : string) (net : IPAddress.IPv4Network) :
  valid24 cidr net ->
  Z.land (IPAddress.network_address net) (IPAddress.ip_int_from_prefix 24)
  = IPAddress.network_address net.
Proof.
  intros [Hp H24]. unfold IPAddress.parse_network in Hp.
  destruct (PyStr.split "/"%char cidr) as [|addr [|mask [|x l]]]; try discriminate.
  - destruct (IPAddress.ip_int_from_string addr); [|discriminate].
    inversion Hp; subst. simpl in H24. discriminate.
  - destruct (IPAddress.ip_int_from_string addr) as [a|]; [|discriminate].
    destruct (IPAddress.make_netmask mask) as [p|]; [|discriminate].
    destruct (Z.land a (IPAddress.ip_int_from_prefix p) =? a) eqn:E; [|discriminate].
    inversion Hp; subst. simpl in *. subst p.
    now apply Z.eqb_eq in E.
Qed.

Variable a : Z.
Hypothesis Hstrict : Z.land a (IPAddress.ip_int_from_prefix 24) = a.

Lemma net24_low_bits : a mod 256 = 0.
Proof.
  rewrite <- land255_mod, <- Hstrict, <- Z.land_assoc.
  replace (Z.land (IPAddress.ip_int_from_prefix 24) 255) with 0
    by (vm_compute; reflexivity).
  apply Z.land_0_r.
Qed.

Lemma net24_nonneg : 0 <= a.
Proof.
  rewrite <- Hstrict. apply Z.land_nonneg. right. vm_compute. discriminate.
Qed.

Lemma net24_iter : IPAddress.iter (IPAddress.mkNet a 24) = zrange a 256.
Proof.
  unfold IPAddress.iter, zrange, IPAddress.broadcast_address.
  cbn [IPAddress.network_address].
  replace (IPAddress.hostmask (IPAddress.mkNet a 24)) with 255
    by (vm_compute; reflexivity).
  pose proof (Z.add_lor_land a 255) as Hadd.
  rewrite land255_mod, net24_low_bits in Hadd.
  replace (Z.lor a 255 + 1 - a) with 256 by lia.
  reflexivity.
Qed.

Lemma net24_octet3 (k : Z) : 0 <= k < 256 -> IPAddress.octet 3 (a + k) = k.
Proof.
  intros Hk. unfold IPAddress.octet.
  replace (8 * (3 - 3)) with 0 by lia. rewrite Z.shiftr_0_r, land255_mod.
  pose proof net24_low_bits as Hm.
  rewrite Z.add_mod, Hm by lia. rewrite Z.add_0_l.
  rewrite Z.mod_mod by lia. apply Z.mod_small. lia.
Qed.

Lemma net24_div (k : Z) : 0 <= k < 256 -> (a + k) / 256 = a / 256.
Proof.
  intros Hk. pose proof net24_low_bits as Hm.
  pose proof (Z.div_mod a 256 ltac:(lia)) as Hd. rewrite Hm in Hd.
  replace (a + k) with (k + (a / 256) * 256) by lia.
  rewrite Z.div_add by lia. rewrite (Z.div_small k) by lia. lia.
Qed.

Lemma net24_octet_hi (i k : Z) :
  0 <= i < 3 -> 0 <= k < 256 ->
  IPAddress.octet i (a + k) = IPAddress.octet i a.
Proof.
  intros Hi Hk. unfold IPAddress.octet. f_equal.
  rewrite !Z.shiftr_div_pow2 by lia.
  replace (8 * (3 - i)) with (8 + 8 * (2 - i)) by lia.
  rewrite Z.pow_add_r by lia. change (2 ^ 8) with 256.
  rewrite <- !Z.div_div by lia.
  now rewrite net24_div.
Qed.

Lemma net24_target (k : Z) :
  0 <= k < 256 -> target_of (a + k) = (k, dotted (IPAddress.mkNet a 24) k).
Proof.
  intros Hk. unfold target_of, dotted, IPAddress.str. cbn [map].
  rewrite net24_octet3 by exact Hk.
  rewrite !net24_octet_hi by lia. reflexivity.
Qed.

Lemma net24_kept (skip : pyval) (k : Z) :
  0 <= k < 256 ->
  kept skip (a + k) = negb ((k =? 0) || int_eq_pyval k skip).
Proof. intros Hk. unfold kept. now rewrite net24_octet3. Qed.

Lemma zrange_shift : zrange a 256 = map (fun k => a + k) (zrange 0 256).
Proof. unfold zrange. rewrite map_map. reflexivity. Qed.

(** The targets of a /24: offsets 1..255 except the skipped one. *)
Lemma net24_targets (skip : pyval) :
  map target_of (filter (kept skip) (IPAddress.iter (IPAddress.mkNet a 24)))
  = map (fun k => (k, dotted (IPAddress.mkNet a 24) k))
        (filter (fun k => negb (int_eq_pyval k skip)) (zrange 1 255)).
Proof.
  rewrite net24_iter, zrange_shift.
  assert (Hf : forall l, (forall k, In k l -> 0 <= k < 256) ->
             map target_of (filter (kept skip) (map (fun k => a + k) l))
             = map (fun k => (k, dotted (IPAddress.mkNet a 24) k))
                   (filter (fun k => negb ((k =? 0) || int_eq_pyval k skip)) l)).
  { induction l as [|k l IH]; intros Hl; simpl; [reflexivity|].
    rewrite net24_kept by (apply Hl; now left).
    destruct (negb ((k =? 0) || int_eq_pyval k skip)); simpl.
    - rewrite net24_target by (apply Hl; now left). f_equal.
      apply IH. intros; apply Hl; now right.
    - apply IH. intros; apply Hl; now right. }
  rewrite Hf by (intros k Hk; apply zrange_In in Hk; lia).
  apply (f_equal (map (fun k => (k, dotted (IPAddress.mkNet a 24) k)))).
  rewrite zrange_0_256.
  rewrite filter_cons_false by reflexivity.
  apply filter_ext_in. intros k Hk. apply zrange_In in Hk.
  replace (k =? 0) with false by (symmetry; apply Z.eqb_neq; lia).
  reflexivity.
Qed.

End EnumerationFacts.

(** The enumeration of a valid /24. *)
Lemma enumerate_ips_24 (cidr : string) (net : IPAddress.IPv4Network) (skip : pyval) :
  valid24 cidr net ->
  enumerate_ips cidr skip
  = inr (map (fun k => (k, dotted net k))
             (filter (fun k => negb (int_eq_pyval k skip)) (zrange 1 255))).
Proof.
  intros Hv. pose proof (parse_network_strict _ _ Hv) as Hs.
  rewrite enumerate_ips_spec. destruct Hv as [Hp H24]. rewrite Hp.
  destruct net as [a p].
  cbn [IPAddress.prefixlen IPAddress.network_address] in *. subst p.
  rewrite (net24_targets a Hs). reflexivity.
Qed.

Lemma filter_all_true {A : Type} (f : A -> bool) (l : list A) :
  (forall x, f x = true) -> filter f l = l.
Proof.
  intros H. induction l as [|x l IH]; simpl; [reflexivity|].
  now rewrite H, IH.
Qed.

Lemma skip_one_length :
  forallb (fun K => Nat.eqb (List.length (filter (fun k => negb (k =? K))
                                                 (zrange 1 255)))
                            254)
          (zrange 1 255) = true.
Proof. vm_compute. reflexivity. Qed.

(** C2, as the code has it: for every valid /24 range specification the
    enumeration never raises and yields exactly 255 targets when nothing is
    excluded and 254 when one offset in [1,255] is excluded; the offsets are
    exactly 1..255 in ascending order (less the excluded one), so offset 0
    never appears and offset 255 does, each paired with its dotted-quad
    address. *)
Theorem C2_enumeration (cidr : string) (net : IPAddress.IPv4Network) :
  valid24 cidr net ->
  (forall s, enumerate_ips cidr (PStr s)
             = inr (map (fun k => (k, dotted net k)) (zrange 1 255))) /\
  List.length (zrange 1 255) = 255%nat /\
  (forall K, enumerate_ips cidr (PInt K)
             = inr (map (fun k => (k, dotted net k))
                        (filter (fun k => negb (k =? K)) (zrange 1 255)))) /\
  (forall K, 1 <= K <= 255 ->
             List.length (filter (fun k => negb (k =? K)) (zrange 1 255)) = 254%nat) /\
  (forall k, In k (zrange 1 255) <-> 1 <= k <= 255) /\
  Sorted Z.lt (zrange 1 255).
Proof.
  intros Hv.
  split; [|split; [|split; [|split; [|split]]]].
  - intros s. rewrite (enumerate_ips_24 _ _ _ Hv).
    rewrite (filter_all_true (fun k => negb (int_eq_pyval k (PStr s)))); reflexivity.
  - apply zrange_length.
  - intros K. rewrite (enumerate_ips_24 _ _ _ Hv). reflexivity.
  - intros K HK. pose proof skip_one_length as Hall.
    rewrite forallb_forall in Hall. apply Nat.eqb_eq, Hall, zrange_In. lia.
  - intros k. rewrite zrange_In. lia.
  - apply zrange_sorted.
Qed.

Lemma C2_enumeration_witness :
  valid24 "192.168.1.0/24" (IPAddress.mkNet 3232235776 24) /\
  enumerate_ips "192.168.1.0/24" (PInt 42)
  = inr (map (fun k => (k, dotted (IPAddress.mkNet 3232235776 24) k))
             (filter (fun k => negb (k =? 42)) (zrange 1 255))).
Proof.
  assert (H : valid24 "192.168.1.0/24" (IPAddress.mkNet 3232235776 24))
    by (split; vm_compute; reflexivity).
  split; [exact H|].
  exact (proj1 (proj2 (proj2 (C2_enumeration _ _ H))) 42).
Defined.

(** C2 with the specification's figures (254 targets, or 253 with one
    offset excluded, and offset 255 never enumerated) does not hold on the
    default range: 255 targets, 254 with offset 42 excluded, and the last
    target is offset 255. *)
Lemma C2_counterexample :
  exists ips ips',
    enumerate_ips "192.168.1.0/24" (PStr "") = inr ips /\
    List.length ips = 255%nat /\
    nth_error ips 254 = Some (255, "192.168.1.255") /\
    enumerate_ips "192.168.1.0/24" (PInt 42) = inr ips' /\
    List.length ips' = 254%nat.
Proof.
  eexists. eexists.
  split; [vm_compute; reflexivity|].
  split; [reflexivity|].
  split; [reflexivity|].
  split; [vm_compute; reflexivity|].
  reflexivity.
Qed.

(* ================================================================== *)
(** * The thread pools: invariants of every interleaving               *)
(* ================================================================== *)

Section ListFacts.

Lemma cnt_app (x : target) (l1 l2 : list target) :
  cnt x (l1 ++ l2) = (cnt x l1 + cnt x l2)%nat.
Proof. apply count_occ_app. Qed.

Lemma cnt_cons (x y : target) (l : list target) :
  cnt x (y :: l) = ((if target_eq_dec y x then 1 else 0) + cnt x l)%nat.
Proof. unfold cnt. simpl. destruct (target_eq_dec y x); reflexivity. Qed.

Lemma cnt_nil (x : target) : cnt x [] = 0%nat.
Proof. reflexivity. Qed.

Lemma cnt_In (x : target) (l : list target) : In x l <-> (0 < cnt x l)%nat.
Proof. unfold cnt. rewrite (count_occ_In target_eq_dec). lia. Qed.

Lemma cnt_self (x : target) (l : list target) :
  cnt x (x :: l) = S (cnt x l).
Proof. rewrite cnt_cons. destruct (target_eq_dec x x); [reflexivity|congruence]. Qed.

Lemma nth_error_upd_same {A : Type} (l : list A) (i : nat) (x y : A) :
  nth_error l i = Some y -> nth_error (upd i x l) i = Some x.
Proof.
  revert i. induction l as [|z l IH]; intros [|i] H; simpl in *;
    try discriminate; [reflexivity | now apply IH].
Qed.

Lemma nth_error_upd_other {A : Type} (l : list A) (i j : nat) (x : A) :
  i <> j -> nth_error (upd i x l) j = nth_error l j.
Proof.
  revert i j. induction l as [|z l IH]; intros [|i] [|j] H; simpl;
    try reflexivity; try congruence.
  apply IH. congruence.
Qed.

Lemma length_upd {A : Type} (l : list A) (i : nat) (x : A) :
  List.length (upd i x l) = List.length l.
Proof.
  revert i. induction l as [|z l IH]; intros [|i]; simpl; try reflexivity.
  now rewrite IH.
Qed.

Lemma inflight_upd (x : target) (ws : list wstate) (i : nat) (w w' : wstate) :
  nth_error ws i = Some w ->
  (cnt x (holding w) + cnt x (inflight (upd i w' ws))
   = cnt x (holding w') + cnt x (inflight ws))%nat.
Proof.
  unfold inflight.
  revert i. induction ws as [|z ws IH]; intros [|i] H; simpl in *;
    try discriminate.
  - inversion H; subst. rewrite !cnt_app. lia.
  - rewrite !cnt_app. specialize (IH _ H). lia.
Qed.

Lemma inflight_length_upd (ws : list wstate) (i : nat) (w w' : wstate) :
  nth_error ws i = Some w ->
  (List.length (holding w) + List.length (inflight (upd i w' ws))
   = List.length (holding w') + List.length (inflight ws))%nat.
Proof.
  unfold inflight.
  revert i. induction ws as [|z ws IH]; intros [|i] H; simpl in *;
    try discriminate.
  - inversion H; subst. rewrite !length_app. lia.
  - rewrite !length_app. specialize (IH _ H). lia.
Qed.

Lemma done_count_upd (ws : list wstate) (i : nat) (w w' : wstate) :
  nth_error ws i = Some w ->
  (at_task_done w + done_count (upd i w' ws)
   = at_task_done w' + done_count ws)%nat.
Proof.
  unfold done_count.
  revert i. induction ws as [|z ws IH]; intros [|i] H; simpl in *;
    try discriminate.
  - inversion H; subst. lia.
  - specialize (IH _ H). lia.
Qed.

Lemma holding_le_inflight (x : target) (ws : list wstate) (i : nat) (w : wstate) :
  nth_error ws i = Some w -> (cnt x (holding w) <= cnt x (inflight ws))%nat.
Proof.
  unfold inflight.
  revert i. induction ws as [|z ws IH]; intros [|i] H; simpl in *;
    try discriminate; rewrite cnt_app.
  - inversion H; subst. lia.
  - specialize (IH _ H). lia.
Qed.

(** Two different workers: what they hold counts separately. *)
Lemma holding_two (x : target) (ws : list wstate) (i j : nat) (wi wj : wstate) :
  nth_error ws i = Some wi -> nth_error ws j = Some wj -> i <> j ->
  (cnt x (holding wi) + cnt x (holding wj) <= cnt x (inflight ws))%nat.
Proof.
  intros Hi Hj Hne.
  pose proof (inflight_upd x ws i wi WGet Hi) as H1.
  assert (Hj' : nth_error (upd i WGet ws) j = Some wj)
    by (rewrite nth_error_upd_other; assumption).
  pose proof (holding_le_inflight x _ _ _ Hj') as H2.
  change (cnt x (holding WGet)) with 0%nat in H1. lia.
Qed.

Lemma inflight_app (ws ws' : list wstate) :
  inflight (ws ++ ws') = inflight ws ++ inflight ws'.
Proof. unfold inflight. apply flat_map_app. Qed.

Lemma done_count_app (ws ws' : list wstate) :
  done_count (ws ++ ws') = (done_count ws + done_count ws')%nat.
Proof. unfold done_count. rewrite map_app. apply list_sum_app. Qed.

(** With nothing in flight and nobody at [task_done], everybody waits in
    [q.get()]. *)
Lemma all_idle (ws : list wstate) (i : nat) (w : wstate) :
  inflight ws = [] -> done_count ws = 0%nat ->
  nth_error ws i = Some w -> w = WGet.
Proof.
  unfold inflight, done_count.
  revert i. induction ws as [|z ws IH]; intros [|i] Hf Hd H; simpl in *;
    try discriminate.
  - inversion H; subst. destruct w; simpl in *; try discriminate; reflexivity.
  - apply app_eq_nil in Hf. destruct Hf as [_ Hf].
    apply (IH i); [exact Hf | lia | exact H].
Qed.

Lemma calls_of_cons (p : pool_id) (t : target) (c : call) (cs : list call) :
  calls_of p t (c :: cs)
  = if is_call_of p t c then c :: calls_of p t cs else calls_of p t cs.
Proof. reflexivity. Qed.

Lemma is_call_of_true (p : pool_id) (t : target) (c : call) :
  is_call_of p t c = true <-> c_pool c = p /\ c_ip c = t.
Proof.
  unfold is_call_of. destruct (target_eq_dec (c_ip c) t) as [E|E];
    destruct (c_pool c), p; simpl; split; intros H;
    try discriminate; try tauto; try (destruct H; congruence).
Qed.

Lemma calls_of_In (p : pool_id) (t : target) (c : call) (cs : list call) :
  In c (calls_of p t cs) <-> In c cs /\ c_pool c = p /\ c_ip c = t.
Proof. unfold calls_of. rewrite filter_In, is_call_of_true. tauto. Qed.

End ListFacts.

Section StateFacts.

Lemma get_pool_set_same (p : pool_id) (pl : pool) (s : state) :
  get_pool p (set_pool p pl s) = pl.
Proof. destruct p; reflexivity. Qed.

Lemma get_pool_set_other (p q : pool_id) (pl : pool) (s : state) :
  p <> q -> get_pool p (set_pool q pl s) = get_pool p s.
Proof. destruct p, q; intros H; try reflexivity; congruence. Qed.

Lemma main_pc_set_pool (p : pool_id) (pl : pool) (s : state) :
  main_pc (set_pool p pl s) = main_pc s.
Proof. destruct p; reflexivity. Qed.

Lemma calls_set_pool (p : pool_id) (pl : pool) (s : state) :
  calls (set_pool p pl s) = calls s.
Proof. destruct p; reflexivity. Qed.

Lemma stdout_set_pool (p : pool_id) (pl : pool) (s : state) :
  stdout (set_pool p pl s) = stdout s.
Proof. destruct p; reflexivity. Qed.

Lemma get_pool_set_main_pc (p : pool_id) (pc : list minstr) (s : state) :
  get_pool p (set_main_pc pc s) = get_pool p s.
Proof. destruct p; reflexivity. Qed.

Lemma get_pool_add_call (p : pool_id) (c : call) (s : state) :
  get_pool p (add_call c s) = get_pool p s.
Proof. destruct p; reflexivity. Qed.

Lemma get_pool_print (p : pool_id) (l : line) (s : state) :
  get_pool p (print l s) = get_pool p s.
Proof. destruct p; reflexivity. Qed.

Lemma main_pc_set_main_pc (pc : list minstr) (s : state) :
  main_pc (set_main_pc pc s) = pc.
Proof. reflexivity. Qed.

Lemma calls_set_main_pc (pc : list minstr) (s : state) :
  calls (set_main_pc pc s) = calls s.
Proof. reflexivity. Qed.

Lemma main_pc_add_call (c : call) (s : state) :
  main_pc (add_call c s) = main_pc s.
Proof. reflexivity. Qed.

Lemma calls_add_call (c : call) (s : state) :
  calls (add_call c s) = c :: calls s.
Proof. reflexivity. Qed.

Lemma main_pc_print (l : line) (s : state) : main_pc (print l s) = main_pc s.
Proof. reflexivity. Qed.

Lemma calls_print (l : line) (s : state) : calls (print l s) = calls s.
Proof. reflexivity. Qed.

Lemma queue_mkPool q u w f : queue (mkPool q u w f) = q.
Proof. reflexivity. Qed.
Lemma unfinished_mkPool q u w f : unfinished_tasks (mkPool q u w f) = u.
Proof. reflexivity. Qed.
Lemma workers_mkPool q u w f : workers (mkPool q u w f) = w.
Proof. reflexivity. Qed.
Lemma faillist_mkPool q u w f : faillist (mkPool q u w f) = f.
Proof. reflexivity. Qed.

Lemma queue_set_worker i w pl : queue (set_worker i w pl) = queue pl.
Proof. reflexivity. Qed.
Lemma unfinished_set_worker i w pl :
  unfinished_tasks (set_worker i w pl) = unfinished_tasks pl.
Proof. reflexivity. Qed.
Lemma workers_set_worker i w pl :
  workers (set_worker i w pl) = upd i w (workers pl).
Proof. reflexivity. Qed.
Lemma faillist_set_worker i w pl : faillist (set_worker i w pl) = faillist pl.
Proof. reflexivity. Qed.

End StateFacts.

Create Rewrite HintDb state.
#[global] Hint Rewrite get_pool_set_same main_pc_set_pool calls_set_pool
  stdout_set_pool get_pool_set_main_pc get_pool_add_call get_pool_print
  main_pc_set_main_pc calls_set_main_pc main_pc_add_call calls_add_call
  main_pc_print calls_print queue_mkPool unfinished_mkPool workers_mkPool
  faillist_mkPool queue_set_worker unfinished_set_worker workers_set_worker
  faillist_set_worker : state.

Section PoolInvariant.

Variable get_returncode : nat -> target -> Z.
Variables ips1 ips2 : list target.

Local Abbreviation ips_of := (ips_of ips1 ips2).
Local Abbreviation pool_inv := (pool_inv ips1 ips2).
Local Abbreviation log_ok := (log_ok get_returncode).
Local Abbreviation inv := (inv get_returncode ips1 ips2).

Lemma pool_id_eqb_eq (p q : pool_id) : pool_id_eqb p q = true <-> p = q.
Proof. destruct p, q; simpl; split; intros; congruence. Qed.

Lemma calls_of_other (p : pool_id) (t : target) (c : call) (cs : list call) :
  c_pool c <> p -> calls_of p t (c :: cs) = calls_of p t cs.
Proof.
  intros H. rewrite calls_of_cons.
  destruct (is_call_of p t c) eqn:E; [|reflexivity].
  apply is_call_of_true in E. tauto.
Qed.

Lemma calls_of_other_ip (p : pool_id) (t : target) (c : call) (cs : list call) :
  c_ip c <> t -> calls_of p t (c :: cs) = calls_of p t cs.
Proof.
  intros H. rewrite calls_of_cons.
  destruct (is_call_of p t c) eqn:E; [|reflexivity].
  apply is_call_of_true in E. tauto.
Qed.

Lemma calls_of_same (p : pool_id) (t : target) (c : call) (cs : list call) :
  c_pool c = p -> c_ip c = t -> calls_of p t (c :: cs) = c :: calls_of p t cs.
Proof.
  intros H1 H2. rewrite calls_of_cons.
  destruct (is_call_of p t c) eqn:E; [reflexivity|].
  assert (is_call_of p t c = true) by (apply is_call_of_true; tauto).
  congruence.
Qed.

(** A step that leaves pool [p], its pending puts and its calls alone
    keeps the invariant of [p]. *)
Lemma pool_inv_frame (p : pool_id) (s s' : state) (ups : list target) :
  get_pool p s' = get_pool p s ->
  unput p (main_pc s') = unput p (main_pc s) ->
  (calls s' = calls s \/ exists c, calls s' = c :: calls s /\ c_pool c <> p) ->
  pool_inv p s ups -> pool_inv p s' ups.
Proof.
  intros Hp Hu Hc [H1 H2 H3 H4 H5 H6 H7].
  assert (Hco : forall t, calls_of p t (calls s') = calls_of p t (calls s)).
  { intros t. destruct Hc as [Hc | [c [Hc Hne]]]; rewrite Hc;
      [reflexivity | now apply calls_of_other]. }
  constructor; rewrite ?Hp, ?Hu.
  - exact H1.
  - exact H2.
  - intros i w Hw. specialize (H3 i w Hw).
    destruct w; simpl in *; try exact I; rewrite Hco; exact H3.
  - intros t Ht. rewrite Hco. now apply H4.
  - intros t Ht. rewrite Hco. now apply H5.
  - intros t Ht. rewrite Hco. now apply H6.
  - intros c Hin Hcp. destruct Hc as [Hc | [c0 [Hc Hne]]]; rewrite Hc in Hin.
    + now apply H7.
    + destruct Hin as [Heq | Hin]; [subst; contradiction | now apply H7].
Qed.

Lemma workers_snoc (p : pool_id) (ws : list wstate) (cs : list call) :
  (forall i w, nth_error ws i = Some w -> worker_ok p i w cs) ->
  forall i w, nth_error (ws ++ [WGet]) i = Some w -> worker_ok p i w cs.
Proof.
  intros H i w Hw.
  destruct (Nat.lt_ge_cases i (List.length ws)) as [Hl|Hl].
  - rewrite nth_error_app1 in Hw by exact Hl. now apply H.
  - rewrite nth_error_app2 in Hw by exact Hl.
    destruct (i - List.length ws)%nat as [|k]; simpl in Hw.
    + inversion Hw. exact I.
    + destruct k; discriminate.
Qed.

Lemma pool_inv_step_main (p : pool_id) (s s' : state) (ups : list target) :
  pool_inv p s ups -> step_main s = Some s' -> pool_inv p s' ups.
Proof.
  intros Hinv Hstep. unfold step_main in Hstep.
  destruct (main_pc s) as [|[q i | q ip | q] pc] eqn:Epc; try discriminate.
  - (* start a worker of pool q *)
    inversion Hstep; subst s'; clear Hstep.
    destruct (pool_id_eqb q p) eqn:E.
    + apply pool_id_eqb_eq in E. subst q.
      destruct Hinv as [H1 H2 H3 H4 H5 H6 H7].
      rewrite Epc in *. cbn [unput] in *.
      constructor; autorewrite with state;
        rewrite ?inflight_app, ?done_count_app;
        change (inflight [WGet]) with (@nil target);
        change (done_count [WGet]) with 0%nat;
        rewrite ?app_nil_r, ?Nat.add_0_r; auto.
      now apply workers_snoc.
    + apply (pool_inv_frame p s); autorewrite with state; auto.
      * apply get_pool_set_other. intros Heq. rewrite Heq in E.
        destruct q; discriminate.
      * rewrite Epc. reflexivity.
  - (* put [ip] on the queue of pool q *)
    inversion Hstep; subst s'; clear Hstep.
    destruct (pool_id_eqb q p) eqn:E.
    + apply pool_id_eqb_eq in E. subst q.
      destruct Hinv as [H1 H2 H3 H4 H5 H6 H7].
      rewrite Epc in *. cbn [unput] in *.
      replace (pool_id_eqb p p) with true in * by (destruct p; reflexivity).
      constructor; autorewrite with state; auto.
      * intros x. specialize (H1 x). rewrite cnt_app.
        rewrite !cnt_cons in *. rewrite cnt_nil. lia.
      * rewrite length_app. simpl. lia.
      * intros t Ht. apply H4. rewrite !in_app_iff in *. simpl in *. tauto.
    + apply (pool_inv_frame p s); autorewrite with state; auto.
      * apply get_pool_set_other. intros Heq. rewrite Heq in E.
        destruct q; discriminate.
      * rewrite Epc. cbn [unput]. rewrite E. reflexivity.
  - (* join the queue of pool q *)
    destruct (unfinished_tasks (get_pool q s) =? 0)%nat; [|discriminate].
    inversion Hstep; subst s'; clear Hstep.
    apply (pool_inv_frame p s); autorewrite with state; auto.
    rewrite Epc. reflexivity.
Qed.

Lemma worker_ok_other_ip (p : pool_id) (j : nat) (w : wstate) (c : call)
      (cs : list call) :
  (forall t, In t (holding w) -> c_ip c <> t) ->
  worker_ok p j w cs -> worker_ok p j w (c :: cs).
Proof.
  intros Hne Hok.
  destruct w as [| t a | t a rc |]; cbn [worker_ok holding] in *;
    try exact I;
    rewrite calls_of_other_ip by (apply Hne; now left); exact Hok.
Qed.

Lemma worker_ok_other_pool (p : pool_id) (j : nat) (w : wstate) (c : call)
      (cs : list call) :
  c_pool c <> p -> worker_ok p j w cs -> worker_ok p j w (c :: cs).
Proof.
  intros Hne Hok.
  destruct w as [| t a | t a rc |]; cbn [worker_ok] in *; try exact I;
    rewrite calls_of_other by exact Hne; exact Hok.
Qed.

Lemma pool_inv_step_worker_other (p q : pool_id) (i : nat) (s s' : state)
      (ups : list target) :
  p <> q -> pool_inv p s ups -> ping_thread get_returncode q i s = Some s' ->
  pool_inv p s' ups.
Proof.
  intros Hne Hinv Hstep. unfold ping_thread in Hstep.
  destruct (nth_error (workers (get_pool q s)) i) as [w|]; [|discriminate].
  destruct w as [| t a | t a rc |].
  - destruct (queue (get_pool q s)); [discriminate|].
    inversion Hstep; subst s'.
    apply (pool_inv_frame p s); autorewrite with state; auto.
    now apply get_pool_set_other.
  - destruct (a <? 4); inversion Hstep; subst s'.
    + apply (pool_inv_frame p s); autorewrite with state; auto.
      * now apply get_pool_set_other.
      * right. eexists. split; [reflexivity|]. simpl. congruence.
    + apply (pool_inv_frame p s); autorewrite with state; auto.
      now apply get_pool_set_other.
  - destruct (judge rc a); inversion Hstep; subst s';
      apply (pool_inv_frame p s); autorewrite with state; auto;
      now apply get_pool_set_other.
  - inversion Hstep; subst s'.
    apply (pool_inv_frame p s); autorewrite with state; auto.
    now apply get_pool_set_other.
Qed.

Lemma cnt_le_1 (l : list target) (x : target) :
  NoDup l -> (cnt x l <= 1)%nat.
Proof. intros H. unfold cnt. now apply NoDup_count_occ. Qed.

Lemma cnt_0_not_In (x y : target) (l : list target) :
  cnt x l = 0%nat -> In y l -> x <> y.
Proof. intros H Hin Heq. subst. apply cnt_In in Hin. lia. Qed.

Lemma cnt_single (x t : target) :
  cnt x [t] = if target_eq_dec t x then 1%nat else 0%nat.
Proof. rewrite cnt_cons, cnt_nil. destruct (target_eq_dec t x); reflexivity. Qed.

(** A target held by a worker is nowhere else. *)
Lemma held_alone (p : pool_id) (s : state) (ups : list target)
      (i : nat) (w : wstate) (t : target) :
  NoDup (ips_of p) -> pool_inv p s ups ->
  nth_error (workers (get_pool p s)) i = Some w -> In t (holding w) ->
  cnt t (unput p (main_pc s)) = 0%nat /\
  cnt t (queue (get_pool p s)) = 0%nat /\
  cnt t ups = 0%nat /\
  cnt t (faillist (get_pool p s)) = 0%nat /\
  In t (ips_of p) /\
  (forall j w', nth_error (workers (get_pool p s)) j = Some w' -> i <> j ->
                forall t', In t' (holding w') -> t <> t').
Proof.
  intros Hnd Hinv Ew Hin.
  pose proof (pi_count _ _ _ _ _ Hinv t) as H1.
  pose proof (cnt_le_1 _ t Hnd) as Hle.
  pose proof (holding_le_inflight t _ _ _ Ew) as Hh.
  apply cnt_In in Hin.
  repeat split; try lia.
  - apply cnt_In. lia.
  - intros j w' Ew' Hij t' Hin' Heq. subst t'.
    pose proof (holding_two t _ _ _ _ _ Ew Ew' Hij) as H2.
    apply cnt_In in Hin'. lia.
Qed.

Lemma pool_inv_step_worker_same (p : pool_id) (i : nat) (s s' : state)
      (ups : list target) :
  NoDup (ips_of p) -> pool_inv p s ups -> ping_thread get_returncode p i s = Some s' ->
  exists ups', pool_inv p s' ups'.
Proof.
  intros Hnd Hinv Hstep. unfold ping_thread in Hstep.
  destruct (nth_error (workers (get_pool p s)) i) as [w|] eqn:Ew;
    [|discriminate].
  pose proof Hinv as [H1 H2 H3 H4 H5 H6 H7].
  pose proof (H3 _ _ Ew) as Hw.
  destruct w as [| t a | t a rc |].
  - (* q.get() *)
    destruct (queue (get_pool p s)) as [|t q'] eqn:Eq; [discriminate|].
    inversion Hstep; subst s'; clear Hstep.
    exists ups. constructor; autorewrite with state; auto.
    + intros x. specialize (H1 x).
      pose proof (inflight_upd x _ _ _ (WPing t 1) Ew) as Hu.
      cbn [holding] in Hu. rewrite cnt_nil, cnt_single in Hu.
      rewrite cnt_cons in H1. lia.
    + pose proof (inflight_length_upd _ _ _ (WPing t 1) Ew) as Hu.
      pose proof (done_count_upd _ _ _ (WPing t 1) Ew) as Hd.
      simpl in *. lia.
    + intros j w Hj. destruct (Nat.eq_dec i j) as [->|Hij].
      * rewrite (nth_error_upd_same _ _ _ _ Ew) in Hj. inversion Hj; subst w.
        exists 0%nat. split; [lia|]. split; [reflexivity|].
        rewrite H4; [exact I|]. apply in_or_app. right. now left.
      * rewrite nth_error_upd_other in Hj by exact Hij. now apply H3.
    + intros t' Ht'. apply H4. apply in_app_or in Ht'. apply in_or_app.
      destruct Ht'; [now left | right; now right].
  - (* one ping and its return code *)
    destruct Hw as [n [Hn [Ha Hrun]]].
    assert (Hin : In t (holding (WPing t a))) by (now left).
    destruct (held_alone _ _ _ _ _ _ Hnd Hinv Ew Hin)
      as [Hc1 [Hc2 [Hc3 [Hc4 [Hips Hoth]]]]].
    destruct (a <? 4) eqn:E4; inversion Hstep; subst s'; clear Hstep;
      [|apply Z.ltb_ge in E4; lia].
    set (rc := get_returncode (List.length (calls s)) t).
    exists ups. constructor; autorewrite with state; auto.
    + intros x. specialize (H1 x).
      pose proof (inflight_upd x _ _ _ (WBranch t a rc) Ew) as Hu.
      cbn [holding] in Hu. lia.
    + pose proof (inflight_length_upd _ _ _ (WBranch t a rc) Ew) as Hu.
      pose proof (done_count_upd _ _ _ (WBranch t a rc) Ew) as Hd.
      simpl in *. lia.
    + intros j w Hj. destruct (Nat.eq_dec i j) as [<-|Hij].
      * rewrite (nth_error_upd_same _ _ _ _ Ew) in Hj. inversion Hj; subst w.
        exists n, (calls_of p t (calls s)).
        split; [exact Hn|]. split; [exact Ha|]. split; [|exact Hrun].
        now apply calls_of_same.
      * rewrite nth_error_upd_other in Hj by exact Hij.
        apply worker_ok_other_ip; [|now apply H3].
        intros t' Ht'. simpl. now apply (Hoth j w).
    + intros t' Ht'. rewrite calls_of_other_ip; [now apply H4|].
      simpl. apply in_app_or in Ht'.
      destruct Ht' as [Ht'|Ht'];
        [exact (cnt_0_not_In _ _ _ Hc1 Ht') | exact (cnt_0_not_In _ _ _ Hc2 Ht')].
    + intros t' Ht'. rewrite calls_of_other_ip; [now apply H5|].
      simpl. exact (cnt_0_not_In _ _ _ Hc3 Ht').
    + intros t' Ht'. rewrite calls_of_other_ip; [now apply H6|].
      simpl. exact (cnt_0_not_In _ _ _ Hc4 Ht').
    + intros c' [Hc'|Hc'] Hp'; [subst c'; exact Hips | now apply H7].
  - (* the branch on the return code *)
    destruct Hw as [n [r [Hn [Ha [Hcalls Hrun]]]]].
    assert (Hin : In t (holding (WBranch t a rc))) by (now left).
    destruct (held_alone _ _ _ _ _ _ Hnd Hinv Ew Hin)
      as [Hc1 [Hc2 [Hc3 [Hc4 [Hips Hoth]]]]].
    unfold judge in Hstep.
    destruct (rc =? 0) eqn:Erc; [|destruct (a =? 3) eqn:Ea];
      cbn [negb andb] in Hstep;
      inversion Hstep; subst s'; clear Hstep.
    + (* up *)
      apply Z.eqb_eq in Erc. subst rc.
      exists (t :: ups). constructor; autorewrite with state; auto.
      * intros x. specialize (H1 x).
        pose proof (inflight_upd x _ _ _ WTaskDone Ew) as Hu.
        cbn [holding] in Hu. rewrite cnt_nil in Hu.
        rewrite cnt_single in Hu. rewrite cnt_cons. lia.
      * pose proof (inflight_length_upd _ _ _ WTaskDone Ew) as Hu.
        pose proof (done_count_upd _ _ _ WTaskDone Ew) as Hd.
        simpl in *. lia.
      * intros j w Hj. destruct (Nat.eq_dec i j) as [<-|Hij].
        -- rewrite (nth_error_upd_same _ _ _ _ Ew) in Hj.
           inversion Hj; subst w. exact I.
        -- rewrite nth_error_upd_other in Hj by exact Hij. now apply H3.
      * intros t' [<-|Ht']; [|now apply H5].
        exists i, n, r. rewrite Hcalls, Ha. auto.
    + (* down *)
      apply Z.eqb_neq in Erc. apply Z.eqb_eq in Ea.
      exists ups. constructor; autorewrite with state; auto.
      * intros x. specialize (H1 x).
        pose proof (inflight_upd x _ _ _ WTaskDone Ew) as Hu.
        cbn [holding] in Hu. rewrite cnt_nil in Hu.
        rewrite cnt_single in Hu. rewrite cnt_app, cnt_single. lia.
      * pose proof (inflight_length_upd _ _ _ WTaskDone Ew) as Hu.
        pose proof (done_count_upd _ _ _ WTaskDone Ew) as Hd.
        simpl in *. lia.
      * intros j w Hj. destruct (Nat.eq_dec i j) as [<-|Hij].
        -- rewrite (nth_error_upd_same _ _ _ _ Ew) in Hj.
           inversion Hj; subst w. exact I.
        -- rewrite nth_error_upd_other in Hj by exact Hij. now apply H3.
      * intros t' Ht'. apply in_app_or in Ht'.
        destruct Ht' as [Ht'|[<-|[]]]; [now apply H6|].
        exists i. rewrite Hcalls.
        assert (n = 2%nat) by lia. subst n a.
        cbn [failed_run c_rc]. auto.
    + (* retry *)
      apply Z.eqb_neq in Erc. apply Z.eqb_neq in Ea.
      exists ups. constructor; autorewrite with state; auto.
      * intros x. specialize (H1 x).
        pose proof (inflight_upd x _ _ _ (WPing t (a + 1)) Ew) as Hu.
        cbn [holding] in Hu. lia.
      * pose proof (inflight_length_upd _ _ _ (WPing t (a + 1)) Ew) as Hu.
        pose proof (done_count_upd _ _ _ (WPing t (a + 1)) Ew) as Hd.
        simpl in *. lia.
      * intros j w Hj. destruct (Nat.eq_dec i j) as [<-|Hij].
        -- rewrite (nth_error_upd_same _ _ _ _ Ew) in Hj.
           inversion Hj; subst w.
           exists (S n). split; [lia|]. split; [lia|].
           rewrite Hcalls. cbn [failed_run c_rc].
           split; [now rewrite <- Ha|]. split; assumption.
        -- rewrite nth_error_upd_other in Hj by exact Hij. now apply H3.
  - (* q.task_done() *)
    inversion Hstep; subst s'; clear Hstep.
    exists ups. constructor; autorewrite with state; auto.
    + intros x. specialize (H1 x).
      pose proof (inflight_upd x _ _ _ WGet Ew) as Hu.
      cbn [holding] in Hu. lia.
    + pose proof (inflight_length_upd _ _ _ WGet Ew) as Hu.
      pose proof (done_count_upd _ _ _ WGet Ew) as Hd.
      simpl in *. lia.
    + intros j w Hj. destruct (Nat.eq_dec i j) as [<-|Hij].
      * rewrite (nth_error_upd_same _ _ _ _ Ew) in Hj.
        inversion Hj; subst w. exact I.
      * rewrite nth_error_upd_other in Hj by exact Hij. now apply H3.
Qed.

(** ** The log and the main thread's position *)

Lemma step_worker_calls (q : pool_id) (i : nat) (s s' : state) :
  ping_thread get_returncode q i s = Some s' ->
  main_pc s' = main_pc s /\
  (forall p, p <> q -> get_pool p s' = get_pool p s) /\
  (calls s' = calls s \/
   exists ip a,
     calls s' = mkCall q i ip a (get_returncode (List.length (calls s)) ip)
                :: calls s).
Proof.
  intros Hstep. unfold ping_thread in Hstep.
  destruct (nth_error (workers (get_pool q s)) i) as [w|]; [|discriminate].
  destruct w as [| t a | t a rc |].
  - destruct (queue (get_pool q s)); [discriminate|].
    inversion Hstep; subst s'. autorewrite with state.
    split; [reflexivity|]. split; [|now left].
    intros p Hp. now apply get_pool_set_other.
  - destruct (a <? 4); inversion Hstep; subst s'; autorewrite with state.
    + split; [reflexivity|]. split; [|right; now exists t, a].
      intros p Hp. now apply get_pool_set_other.
    + split; [reflexivity|]. split; [|now left].
      intros p Hp. now apply get_pool_set_other.
  - destruct (judge rc a); inversion Hstep; subst s'; autorewrite with state;
      (split; [reflexivity|]; split; [|now left]);
      intros p Hp; autorewrite with state; now apply get_pool_set_other.
  - inversion Hstep; subst s'. autorewrite with state.
    split; [reflexivity|]. split; [|now left].
    intros p Hp. now apply get_pool_set_other.
Qed.

Lemma step_main_calls (s s' : state) :
  step_main s = Some s' -> calls s' = calls s.
Proof.
  unfold step_main. intros Hstep.
  destruct (main_pc s) as [|[q i | q ip | q] pc]; try discriminate.
  - inversion Hstep. now autorewrite with state.
  - inversion Hstep. now autorewrite with state.
  - destruct (unfinished_tasks (get_pool q s) =? 0)%nat; [|discriminate].
    inversion Hstep. now autorewrite with state.
Qed.

Lemma log_ok_step (t : tid) (s s' : state) :
  log_ok (calls s) -> step get_returncode t s = Some s' -> log_ok (calls s').
Proof.
  intros Hlog Hstep. destruct t as [|q i]; simpl in Hstep.
  - now rewrite (step_main_calls _ _ Hstep).
  - destruct (step_worker_calls _ _ _ _ Hstep) as [_ [_ [Hc|[ip [a Hc]]]]];
      rewrite Hc; [exact Hlog|].
    split; [reflexivity | exact Hlog].
Qed.

(** A pool whose queue has no unfinished task cannot move. *)
Lemma quiet_pool (p : pool_id) (s : state) (ups : list target) :
  pool_inv p s ups -> unfinished_tasks (get_pool p s) = 0%nat ->
  queue (get_pool p s) = [] /\
  inflight (workers (get_pool p s)) = [] /\
  (forall i w, nth_error (workers (get_pool p s)) i = Some w -> w = WGet).
Proof.
  intros Hinv H0. pose proof (pi_unfinished _ _ _ _ _ Hinv) as Hu.
  rewrite H0 in Hu.
  assert (Hq : queue (get_pool p s) = [])
    by (apply length_zero_iff_nil; lia).
  assert (Hf : inflight (workers (get_pool p s)) = [])
    by (apply length_zero_iff_nil; lia).
  split; [exact Hq|]. split; [exact Hf|].
  intros i w Hw.
  apply (all_idle (workers (get_pool p s)) i); [exact Hf | lia | exact Hw].
Qed.

Lemma frozen (p : pool_id) (i : nat) (s : state) (ups : list target) :
  pool_inv p s ups -> unfinished_tasks (get_pool p s) = 0%nat ->
  ping_thread get_returncode p i s = None.
Proof.
  intros Hinv H0. destruct (quiet_pool _ _ _ Hinv H0) as [Hq [_ Hw]].
  unfold ping_thread.
  destruct (nth_error (workers (get_pool p s)) i) as [w|] eqn:E;
    [|reflexivity].
  rewrite (Hw _ _ E), Hq. reflexivity.
Qed.

Lemma pc_ok_step (t : tid) (s s' : state) :
  inv s -> step get_returncode t s = Some s' -> pc_ok s'.
Proof.
  intros [[u1 Hi1] [[u2 Hi2] [_ Hpc]]] Hstep.
  destruct t as [|q i]; simpl in Hstep.
  - unfold step_main in Hstep.
    destruct Hpc as [[pre [Hnj Hpc]] | [[Hpc H1] | [Hpc _]]];
      rewrite Hpc in Hstep.
    + destruct pre as [|x pre].
      * simpl in Hstep.
        destruct (unfinished_tasks (pool1 s) =? 0)%nat eqn:E; [|discriminate].
        inversion Hstep; subst s'. right. left.
        split; [reflexivity|]. now apply Nat.eqb_eq in E.
      * assert (Hnj' : no_join pre)
          by (intros p Hin; apply (Hnj p); now right).
        destruct x as [q i | q ip | q].
        -- simpl in Hstep. inversion Hstep; subst s'. left.
           exists pre. now autorewrite with state.
        -- simpl in Hstep. inversion Hstep; subst s'. left.
           exists pre. now autorewrite with state.
        -- exfalso. apply (Hnj q). now left.
    + destruct (unfinished_tasks (get_pool P2 s) =? 0)%nat eqn:E;
        [|discriminate].
      inversion Hstep; subst s'. right. right.
      split; [reflexivity|]. split; [exact H1 | now apply Nat.eqb_eq in E].
    + discriminate.
  - destruct (step_worker_calls _ _ _ _ Hstep) as [Hm [Hoth _]].
    destruct Hpc as [[pre [Hnj Hpc]] | [[Hpc H1] | [Hpc [H1 H2]]]].
    + left. exists pre. split; [exact Hnj | congruence].
    + right. left. split; [congruence|].
      destruct q.
      * rewrite (frozen P1 i s u1 Hi1 H1) in Hstep. discriminate.
      * change (pool1 s') with (get_pool P1 s').
        rewrite Hoth by discriminate. exact H1.
    + destruct q.
      * rewrite (frozen P1 i s u1 Hi1 H1) in Hstep. discriminate.
      * rewrite (frozen P2 i s u2 Hi2 H2) in Hstep. discriminate.
Qed.

Hypothesis ips1_nodup : NoDup ips1.
Hypothesis ips2_nodup : NoDup ips2.

Lemma ips_of_nodup (p : pool_id) : NoDup (ips_of p).
Proof. destruct p; assumption. Qed.

Lemma pool_inv_step (p : pool_id) (t : tid) (s s' : state) (ups : list target) :
  pool_inv p s ups -> step get_returncode t s = Some s' ->
  exists ups', pool_inv p s' ups'.
Proof.
  intros Hinv Hstep. destruct t as [|q i]; simpl in Hstep.
  - exists ups. now apply (pool_inv_step_main p s).
  - destruct (pool_id_eqb p q) eqn:E.
    + apply pool_id_eqb_eq in E. subst q.
      apply (pool_inv_step_worker_same p i s s' ups); auto.
      apply ips_of_nodup.
    + exists ups. apply (pool_inv_step_worker_other p q i s); auto.
      intros Heq. subst. destruct q; discriminate.
Qed.

Lemma inv_step (t : tid) (s s' : state) :
  inv s -> step get_returncode t s = Some s' -> inv s'.
Proof.
  intros Hinv Hstep. pose proof (pc_ok_step _ _ _ Hinv Hstep) as Hpc.
  destruct Hinv as [[u1 Hi1] [[u2 Hi2] [Hlog _]]].
  split; [now apply (pool_inv_step P1 t s s' u1)|].
  split; [now apply (pool_inv_step P2 t s s' u2)|].
  split; [now apply (log_ok_step t s) | exact Hpc].
Qed.

Lemma inv_run (sched : list tid) (s : state) :
  inv s -> inv (run get_returncode sched s).
Proof.
  revert s. induction sched as [|t rest IH]; intros s Hinv; simpl.
  - exact Hinv.
  - destruct (step get_returncode t s) as [s'|] eqn:E.
    + apply IH. now apply (inv_step t s).
    + now apply IH.
Qed.

Lemma unput_app (p : pool_id) (a b : list minstr) :
  unput p (a ++ b) = unput p a ++ unput p b.
Proof.
  induction a as [|[q i | q ip | q] a IH]; simpl; auto.
  destruct (pool_id_eqb q p); simpl; now rewrite IH.
Qed.

Lemma unput_starts (p q : pool_id) (l : list nat) :
  unput p (map (MStart q) l) = [].
Proof. induction l; simpl; auto. Qed.

Lemma unput_puts (p q : pool_id) (l : list target) :
  unput p (map (MPut q) l) = if pool_id_eqb q p then l else [].
Proof.
  induction l as [|x l IH]; simpl.
  - now destruct (pool_id_eqb q p).
  - rewrite IH. now destruct (pool_id_eqb q p).
Qed.

Lemma unput_main_program (p : pool_id) :
  unput p (main_program ips1 ips2) = ips_of p.
Proof.
  unfold main_program. rewrite !unput_app, !unput_starts, !unput_puts.
  destruct p; simpl; now rewrite ?app_nil_r.
Qed.

Lemma inv_initial (out : list line) : inv (initial_state out ips1 ips2).
Proof.
  assert (Hp : forall p, pool_inv p (initial_state out ips1 ips2) []).
  { intros p. constructor.
    - intros x. cbn [initial_state main_pc].
      rewrite unput_main_program. destruct p; simpl; lia.
    - destruct p; reflexivity.
    - intros i w Hw. destruct p; simpl in Hw; destruct i; discriminate.
    - intros t _. reflexivity.
    - intros t [].
    - intros t Ht. destruct p; destruct Ht.
    - intros c []. }
  split; [exists []; apply Hp|]. split; [exists []; apply Hp|].
  split; [exact I|].
  left. exists (map (MStart P1) (seq 0 num_threads) ++ map (MPut P1) ips1 ++
                map (MStart P2) (seq 0 num_threads) ++ map (MPut P2) ips2).
  split.
  - intros p Hin. rewrite !in_app_iff, !in_map_iff in Hin.
    destruct Hin as [[x [H _]] | [[x [H _]] | [[x [H _]] | [x [H _]]]]];
      discriminate.
  - cbn [initial_state main_pc]. unfold main_program.
    now rewrite <- !app_assoc.
Qed.

(** What holds when the main thread has returned from both joins. *)
Lemma final_pool (p : pool_id) (s : state) :
  inv s -> main_pc s = [] ->
  queue (get_pool p s) = [] /\
  (forall i w, nth_error (workers (get_pool p s)) i = Some w -> w = WGet) /\
  exists ups,
    (forall x, cnt x (ips_of p)
               = (cnt x ups + cnt x (faillist (get_pool p s)))%nat) /\
    (forall t, In t ups -> up_history p t (calls_of p t (calls s))) /\
    (forall t, In t (faillist (get_pool p s)) ->
               down_history p t (calls_of p t (calls s))) /\
    (forall c, In c (calls s) -> c_pool c = p -> In (c_ip c) (ips_of p)).
Proof.
  intros [[u1 Hi1] [[u2 Hi2] [_ Hpc]]] Hm.
  assert (H0 : unfinished_tasks (get_pool p s) = 0%nat).
  { destruct Hpc as [[pre [_ Hpc]] | [[Hpc _] | [_ [H1 H2]]]].
    - rewrite Hm in Hpc. destruct pre; discriminate.
    - congruence.
    - destruct p; assumption. }
  assert (Hex : exists ups, pool_inv p s ups)
    by (destruct p; [now exists u1 | now exists u2]).
  destruct Hex as [ups Hinv].
  destruct (quiet_pool _ _ _ Hinv H0) as [Hq [Hf Hw]].
  split; [exact Hq|]. split; [exact Hw|].
  exists ups. destruct Hinv as [H1 H2 H3 H4 H5 H6 H7].
  split; [|auto].
  intros x. specialize (H1 x). rewrite Hm, Hq, Hf in H1.
  cbn [unput] in H1. rewrite !cnt_nil in H1. lia.
Qed.

End PoolInvariant.

(* ================================================================== *)
(** * The enumerated targets are pairwise distinct                     *)
(* ================================================================== *)

Section Distinct.

Lemma lor_bound (a b n : Z) :
  0 < n -> 0 <= a < 2 ^ n -> 0 <= b < 2 ^ n -> 0 <= Z.lor a b < 2 ^ n.
Proof.
  intros Hn Ha Hb.
  assert (H0 : 0 <= Z.lor a b) by (apply Z.lor_nonneg; lia).
  split; [exact H0|].
  destruct (Z.eq_dec (Z.lor a b) 0) as [E|E].
  - rewrite E. apply Z.pow_pos_nonneg; lia.
  - apply Z.log2_lt_pow2; [lia|].
    rewrite Z.log2_lor by lia.
    assert (Hla : Z.log2 a < n).
    { destruct (Z.eq_dec a 0) as [->|Hne]; [simpl; lia|].
      apply Z.log2_lt_pow2; lia. }
    assert (Hlb : Z.log2 b < n).
    { destruct (Z.eq_dec b 0) as [->|Hne]; [simpl; lia|].
      apply Z.log2_lt_pow2; lia. }
    lia.
Qed.

Lemma digit_val_nonneg (c : ascii) :
  PyStr.is_digit c = true -> 0 <= PyStr.digit_val c.
Proof.
  unfold PyStr.is_digit, PyStr.digit_val. intros H.
  apply andb_prop in H. destruct H as [H _].
  apply Nat.leb_le in H. lia.
Qed.

Lemma digits_value_nonneg (s : string) (acc : Z) :
  PyStr.all_chars PyStr.is_digit s = true -> 0 <= acc ->
  0 <= PyStr.digits_value acc s.
Proof.
  revert acc. induction s as [|c r IH]; intros acc Hd Ha;
    cbn [PyStr.all_chars PyStr.digits_value] in *.
  - exact Ha.
  - apply andb_prop in Hd. destruct Hd as [Hc Hr].
    apply IH; [exact Hr|]. pose proof (digit_val_nonneg c Hc). lia.
Qed.

Lemma parse_octet_range (s : string) (v : Z) :
  IPAddress.parse_octet s = Some v -> 0 <= v < 256.
Proof.
  unfold IPAddress.parse_octet. intros H.
  destruct (PyStr.is_ascii_digits s) eqn:Ed; [|discriminate].
  cbn [negb] in H.
  destruct (3 <? String.length s)%nat; [discriminate|].
  destruct (negb (s =? "0")%string &&
            match s with String c _ => Ascii.eqb c "0" | EmptyString => false end);
    [discriminate|].
  destruct (255 <? PyStr.digits_value 0 s) eqn:E; [discriminate|].
  inversion H; subst v. apply Z.ltb_ge in E.
  split; [|lia]. apply digits_value_nonneg; [|lia].
  destruct s; [discriminate | exact Ed].
Qed.

Lemma from_bytes_range (o1 o2 o3 o4 : Z) :
  0 <= o1 < 256 -> 0 <= o2 < 256 -> 0 <= o3 < 256 -> 0 <= o4 < 256 ->
  0 <= IPAddress.from_bytes o1 o2 o3 o4 < 2 ^ 32.
Proof.
  intros H1 H2 H3 H4. unfold IPAddress.from_bytes.
  rewrite !Z.shiftl_mul_pow2 by lia.
  repeat apply lor_bound; lia.
Qed.

Lemma ip_int_from_string_range (s : string) (a : Z) :
  IPAddress.ip_int_from_string s = Some a -> 0 <= a < 2 ^ 32.
Proof.
  unfold IPAddress.ip_int_from_string. intros H.
  destruct s as [|c0 s0]; [discriminate|].
  destruct (PyStr.split "." (String c0 s0)) as [|s1 [|s2 [|s3 [|s4 [|s5 l]]]]];
    cbn [map] in H; try discriminate;
    repeat match type of H with
           | context [IPAddress.parse_octet ?x] =>
               let E := fresh "E" in
               destruct (IPAddress.parse_octet x) eqn:E; try discriminate
           end.
  inversion H; subst a.
  apply from_bytes_range; eapply parse_octet_range; eassumption.
Qed.

Lemma count_zero_bits_range (n : nat) (x : Z) :
  0 <= IPAddress.count_zero_bits n x <= Z.of_nat n.
Proof.
  revert x. induction n as [|n IH]; intros x.
  - simpl. lia.
  - cbn [IPAddress.count_zero_bits].
    destruct (Z.testbit x 0); [lia|].
    specialize (IH (Z.shiftr x 1)). lia.
Qed.

Lemma prefix_from_ip_int_range (x p : Z) :
  IPAddress.prefix_from_ip_int x = Some p -> 0 <= p <= 32.
Proof.
  unfold IPAddress.prefix_from_ip_int.
  pose proof (count_zero_bits_range 32 x) as Hr.
  change (Z.of_nat 32) with 32 in Hr.
  set (tz := IPAddress.count_zero_bits 32 x) in *. clearbody tz.
  cbv zeta. intros H.
  destruct (Z.shiftr x tz =? Z.shiftl 1 (32 - tz) - 1); [|discriminate].
  assert (Hp : p = 32 - tz) by congruence. lia.
Qed.

Lemma make_netmask_range (s : string) (p : Z) :
  IPAddress.make_netmask s = Some p -> 0 <= p <= 32.
Proof.
  unfold IPAddress.make_netmask, IPAddress.prefix_from_prefix_string,
    IPAddress.prefix_from_ip_string. intros H.
  destruct (PyStr.is_ascii_digits s).
  - destruct ((0 <=? PyStr.digits_value 0 s)
              && (PyStr.digits_value 0 s <=? 32)) eqn:E.
    + inversion H; subst p. apply andb_prop in E. lia.
    + destruct (IPAddress.ip_int_from_string s) as [x|]; [|discriminate].
      destruct (IPAddress.prefix_from_ip_int x) as [q|] eqn:Eq.
      * inversion H; subst q. eapply prefix_from_ip_int_range; eassumption.
      * eapply prefix_from_ip_int_range; eassumption.
  - destruct (IPAddress.ip_int_from_string s) as [x|]; [|discriminate].
    destruct (IPAddress.prefix_from_ip_int x) as [q|] eqn:Eq.
    + inversion H; subst q. eapply prefix_from_ip_int_range; eassumption.
    + eapply prefix_from_ip_int_range; eassumption.
Qed.

Lemma hostmask_table :
  forallb (fun p => (0 <=? Z.lxor (IPAddress.ip_int_from_prefix p) IPAddress.ALL_ONES)
                    && (Z.lxor (IPAddress.ip_int_from_prefix p) IPAddress.ALL_ONES
                        <? 2 ^ 32))
          (zrange 0 33) = true.
Proof. vm_compute. reflexivity. Qed.

Lemma hostmask_range (net : IPAddress.IPv4Network) :
  0 <= IPAddress.prefixlen net <= 32 ->
  0 <= IPAddress.hostmask net < 2 ^ 32.
Proof.
  intros Hp. pose proof hostmask_table as H.
  rewrite forallb_forall in H.
  specialize (H (IPAddress.prefixlen net)).
  rewrite zrange_In in H. unfold IPAddress.hostmask.
  apply andb_prop in H; [|lia]. lia.
Qed.

(** A parsed network lies within the 32-bit addresses. *)
Lemma parse_network_range (cidr : string) (net : IPAddress.IPv4Network) :
  IPAddress.parse_network cidr = Some net ->
  0 <= IPAddress.network_address net /\
  IPAddress.broadcast_address net < 2 ^ 32.
Proof.
  unfold IPAddress.parse_network. intros H.
  assert (Hr : 0 <= IPAddress.network_address net < 2 ^ 32 /\
               0 <= IPAddress.prefixlen net <= 32).
  { destruct (PyStr.split "/" cidr) as [|addr [|mask [|x l]]];
      try discriminate.
    - destruct (IPAddress.ip_int_from_string addr) as [a|] eqn:Ea;
        [|discriminate].
      inversion H; subst net. cbn.
      split; [eapply ip_int_from_string_range; eassumption | lia].
    - destruct (IPAddress.ip_int_from_string addr) as [a|] eqn:Ea;
        [|discriminate].
      destruct (IPAddress.make_netmask mask) as [p|] eqn:Em; [|discriminate].
      destruct (_ =? _); [|discriminate].
      inversion H; subst net. cbn.
      split; [eapply ip_int_from_string_range; eassumption
             | eapply make_netmask_range; eassumption]. }
  destruct Hr as [Ha Hp]. split; [lia|].
  unfold IPAddress.broadcast_address.
  apply lor_bound; [lia | exact Ha | now apply hostmask_range].
Qed.

Lemma map_nodup_on {A B : Type} (f : A -> B) (l : list A) :
  (forall x y, In x l -> In y l -> f x = f y -> x = y) ->
  NoDup l -> NoDup (map f l).
Proof.
  intros Hinj Hnd. induction Hnd as [|x l Hx Hnd IH]; simpl.
  - constructor.
  - constructor.
    + rewrite in_map_iff. intros [y [Hy Hin]].
      assert (y = x) by (apply Hinj; simpl; auto). now subst.
    + apply IH. intros a b Ha Hb. apply Hinj; simpl; auto.
Qed.

Lemma iter_range (net : IPAddress.IPv4Network) (ip : Z) :
  In ip (IPAddress.iter net) ->
  IPAddress.network_address net <= ip <= IPAddress.broadcast_address net.
Proof.
  unfold IPAddress.iter. rewrite in_map_iff.
  intros [k [Hk Hin]]. apply in_seq in Hin. lia.
Qed.

Lemma iter_nodup (net : IPAddress.IPv4Network) : NoDup (IPAddress.iter net).
Proof.
  unfold IPAddress.iter.
  apply map_nodup_on; [|apply seq_NoDup].
  intros x y _ _ H. lia.
Qed.

(** A 32-bit address is determined by its four octets. *)
Lemma octets_determine (ip : Z) :
  0 <= ip < 2 ^ 32 ->
  ip = IPAddress.octet 0 ip * 2 ^ 24 + IPAddress.octet 1 ip * 2 ^ 16 +
       IPAddress.octet 2 ip * 2 ^ 8 + IPAddress.octet 3 ip.
Proof.
  intros H. unfold IPAddress.octet. rewrite !land255_mod.
  rewrite !Z.shiftr_div_pow2 by lia.
  change (8 * (3 - 0)) with 24. change (8 * (3 - 1)) with 16.
  change (8 * (3 - 2)) with 8. change (8 * (3 - 3)) with 0.
  change (2 ^ 0) with 1. change (2 ^ 8) with 256.
  change (2 ^ 16) with 65536. change (2 ^ 24) with 16777216.
  change (2 ^ 32) with 4294967296 in H.
  rewrite Z.div_1_r.
  Z.to_euclidean_division_equations. lia.
Qed.

Lemma str_octets (ip ip' : Z) (i : Z) :
  IPAddress.str ip = IPAddress.str ip' ->
  List.In i [0; 1; 2; 3] ->
  IPAddress.octet i ip = IPAddress.octet i ip'.
Proof.
  intros Hs Hi.
  assert (Hsp : PyStr.split "." (IPAddress.str ip)
                = PyStr.split "." (IPAddress.str ip')) by now rewrite Hs.
  unfold IPAddress.str in Hsp. cbn [map] in Hsp.
  rewrite !split_join4 in Hsp by (apply str_int_free, octet_range).
  assert (Hinj : forall x y, PyStr.str_int (IPAddress.octet x ip)
                             = PyStr.str_int (IPAddress.octet y ip') ->
                             IPAddress.octet x ip = IPAddress.octet y ip').
  { intros x y Heq.
    pose proof (int_of_str_str_int _ (octet_range x ip)) as H1.
    pose proof (int_of_str_str_int _ (octet_range y ip')) as H2.
    rewrite Heq in H1. congruence. }
  inversion Hsp as [[H0 H1 H2 H3]].
  simpl in Hi. destruct Hi as [<-|[<-|[<-|[<-|[]]]]]; now apply Hinj.
Qed.

Lemma str_injective (ip ip' : Z) :
  0 <= ip < 2 ^ 32 -> 0 <= ip' < 2 ^ 32 ->
  IPAddress.str ip = IPAddress.str ip' -> ip = ip'.
Proof.
  intros H H' Hs.
  assert (E0 : IPAddress.octet 0 ip = IPAddress.octet 0 ip')
    by (apply str_octets; [exact Hs | simpl; tauto]).
  assert (E1 : IPAddress.octet 1 ip = IPAddress.octet 1 ip')
    by (apply str_octets; [exact Hs | simpl; tauto]).
  assert (E2 : IPAddress.octet 2 ip = IPAddress.octet 2 ip')
    by (apply str_octets; [exact Hs | simpl; tauto]).
  assert (E3 : IPAddress.octet 3 ip = IPAddress.octet 3 ip')
    by (apply str_octets; [exact Hs | simpl; tauto]).
  pose proof (octets_determine ip H) as D.
  pose proof (octets_determine ip' H') as D'.
  rewrite E0, E1, E2, E3 in D. congruence.
Qed.

(** The targets built for any accepted range are pairwise distinct. *)
Lemma enumerate_ips_nodup (cidr : string) (skip : pyval) (ips : list target) :
  enumerate_ips cidr skip = inr ips -> NoDup ips.
Proof.
  rewrite enumerate_ips_spec.
  destruct (IPAddress.parse_network cidr) as [net|] eqn:Ep; [|discriminate].
  intros H. inversion H; subst ips; clear H.
  destruct (parse_network_range _ _ Ep) as [Hlo Hhi].
  apply map_nodup_on; [|apply NoDup_filter, iter_nodup].
  intros x y Hx Hy Heq.
  apply filter_In in Hx. apply filter_In in Hy.
  destruct Hx as [Hx _]. destruct Hy as [Hy _].
  apply iter_range in Hx. apply iter_range in Hy.
  unfold target_of in Heq. inversion Heq.
  apply str_injective; [lia | lia | assumption].
Qed.

End Distinct.

(* ================================================================== *)
(** * What a returned sweep guarantees                                 *)
(* ================================================================== *)

Section SweepFacts.

Variable get_returncode : nat -> target -> Z.

Lemma failed_run_length (p : pool_id) (i : nat) (t : target) (n : nat)
      (cs : list call) :
  failed_run p i t n cs -> List.length cs = n.
Proof.
  revert cs. induction n as [|n IH]; intros [|c r] H; simpl in *;
    try contradiction; try reflexivity.
  destruct H as [_ [_ H]]. now rewrite (IH r H).
Qed.

Lemma failed_run_nonzero (p : pool_id) (i : nat) (t : target) (n : nat)
      (cs : list call) :
  failed_run p i t n cs -> Forall (fun c => c_rc c <> 0 /\ c_worker c = i) cs.
Proof.
  revert cs. induction n as [|n IH]; intros [|c r] H; simpl in *;
    try contradiction; try constructor.
  - destruct H as [Hc [Hrc _]]. split; [exact Hrc|]. now rewrite Hc.
  - destruct H as [_ [_ H]]. now apply IH.
Qed.

Lemma print_lines_fields (ls : list line) (s : state) :
  main_pc (print_lines ls s) = main_pc s /\
  pool1 (print_lines ls s) = pool1 s /\
  pool2 (print_lines ls s) = pool2 s /\
  calls (print_lines ls s) = calls s.
Proof.
  unfold print_lines. revert s.
  induction ls as [|l ls IH]; intros s; simpl; [auto|].
  destruct (IH (print l s)) as [H1 [H2 [H3 H4]]].
  rewrite H1, H2, H3, H4. auto.
Qed.

(** A sweep returns exactly when its schedule brings the main thread
    past both joins; the result is then [print_results] of the two
    failure lists as they are at that point. *)
Lemma initiate_returned (cidr1 cidr2 : string) (skip : pyval)
      (out : list line) (sched : list tid) (r : result) (fx : effects) :
  initiate_ping_queues get_returncode cidr1 cidr2 skip out sched
  = (Returned r, fx) ->
  exists ips1 ips2,
    enumerate_ips cidr1 skip = inr ips1 /\
    enumerate_ips cidr2 skip = inr ips2 /\
    let s := run get_returncode sched (initial_state out ips1 ips2) in
    main_pc s = [] /\
    r = snd (print_results cidr1 (faillist (pool1 s))
                           cidr2 (faillist (pool2 s))) /\
    e_calls fx = calls s /\
    e_threads fx = (List.length (workers (pool1 s)) +
                    List.length (workers (pool2 s)))%nat.
Proof.
  unfold initiate_ping_queues. intros H.
  destruct (enumerate_ips cidr1 skip) as [e|ips1]; [discriminate|].
  destruct (enumerate_ips cidr2 skip) as [e|ips2]; [discriminate|].
  exists ips1, ips2. split; [reflexivity|]. split; [reflexivity|].
  cbv zeta.
  set (s := run get_returncode sched (initial_state out ips1 ips2)) in *.
  destruct (main_pc s) eqn:Em; [|discriminate].
  destruct (print_results cidr1 (faillist (pool1 s))
                          cidr2 (faillist (pool2 s))) as [printed r0] eqn:Ep.
  inversion H; subst r fx. split; [reflexivity|]. split; [reflexivity|].
  unfold effects_of. cbn [e_calls e_threads].
  destruct (print_lines_fields printed s) as [_ [H1 [H2 H3]]].
  now rewrite H1, H2, H3.
Qed.

Lemma print_results_failed (p : pool_id) (cidr1 cidr2 : string)
      (f1 f2 : list target) :
  failed_of p (snd (print_results cidr1 f1 cidr2 f2))
  = match p with P1 => f1 | P2 => f2 end.
Proof. rewrite print_results_result. destruct p; reflexivity. Qed.

(** The fate of every enumerated target once the sweep has returned:
    it was found up (some failed attempts, at most two, then a return
    code 0, and it is not in the failure list) or down (three failed
    attempts, and it is in the failure list once); all its attempts were
    made by one worker. *)
Lemma sweep_target_fate (cidr1 cidr2 : string) (skip : pyval)
      (out : list line) (sched : list tid) (r : result) (fx : effects)
      (ips1 ips2 : list target) :
  enumerate_ips cidr1 skip = inr ips1 ->
  enumerate_ips cidr2 skip = inr ips2 ->
  initiate_ping_queues get_returncode cidr1 cidr2 skip out sched
  = (Returned r, fx) ->
  forall p t, In t (ips_of ips1 ips2 p) ->
    (up_history p t (calls_of p t (e_calls fx)) /\
     cnt t (failed_of p r) = 0%nat) \/
    (down_history p t (calls_of p t (e_calls fx)) /\
     cnt t (failed_of p r) = 1%nat).
Proof.
  intros E1 E2 H p t Hin.
  destruct (initiate_returned _ _ _ _ _ _ _ H)
    as [i1 [i2 [E1' [E2' [Hm [Hr [Hc _]]]]]]].
  rewrite E1 in E1'. rewrite E2 in E2'.
  inversion E1'; subst i1. inversion E2'; subst i2. clear E1' E2'.
  set (s := run get_returncode sched (initial_state out ips1 ips2)) in *.
  assert (Hinv : inv get_returncode ips1 ips2 s).
  { apply inv_run;
      [eapply enumerate_ips_nodup; eassumption
      | eapply enumerate_ips_nodup; eassumption | apply inv_initial]. }
  destruct (final_pool _ _ _ p s Hinv Hm)
    as [_ [_ [ups [Hcnt [Hup [Hdown _]]]]]].
  assert (Hf : failed_of p r = faillist (get_pool p s))
    by (rewrite Hr, print_results_failed; destruct p; reflexivity).
  rewrite Hf, Hc.
  assert (Hnd : NoDup (ips_of ips1 ips2 p))
    by (destruct p; eapply enumerate_ips_nodup; eassumption).
  pose proof (cnt_le_1 _ t Hnd) as Hle.
  apply cnt_In in Hin. specialize (Hcnt t).
  destruct (Nat.eq_dec (cnt t ups) 0) as [E0|E0].
  - right. split; [|lia]. apply Hdown. apply cnt_In. lia.
  - left. split; [|lia]. apply Hup. apply cnt_In. lia.
Qed.

(** A returned failure list holds enumerated targets only, each once. *)
Lemma sweep_failed_sub (cidr1 cidr2 : string) (skip : pyval)
      (out : list line) (sched : list tid) (r : result) (fx : effects)
      (ips1 ips2 : list target) :
  enumerate_ips cidr1 skip = inr ips1 ->
  enumerate_ips cidr2 skip = inr ips2 ->
  initiate_ping_queues get_returncode cidr1 cidr2 skip out sched
  = (Returned r, fx) ->
  forall p, NoDup (failed_of p r) /\
            forall t, In t (failed_of p r) -> In t (ips_of ips1 ips2 p).
Proof.
  intros E1 E2 H p.
  destruct (initiate_returned _ _ _ _ _ _ _ H)
    as [i1 [i2 [E1' [E2' [Hm [Hr [Hc _]]]]]]].
  rewrite E1 in E1'. rewrite E2 in E2'.
  inversion E1'; subst i1. inversion E2'; subst i2. clear E1' E2'.
  set (s := run get_returncode sched (initial_state out ips1 ips2)) in *.
  assert (Hinv : inv get_returncode ips1 ips2 s).
  { apply inv_run;
      [eapply enumerate_ips_nodup; eassumption
      | eapply enumerate_ips_nodup; eassumption | apply inv_initial]. }
  destruct (final_pool _ _ _ p s Hinv Hm)
    as [_ [_ [ups [Hcnt _]]]].
  assert (Hf : failed_of p r = faillist (get_pool p s))
    by (rewrite Hr, print_results_failed; destruct p; reflexivity).
  rewrite Hf.
  assert (Hnd : NoDup (ips_of ips1 ips2 p))
    by (destruct p; eapply enumerate_ips_nodup; eassumption).
  split.
  - apply (NoDup_count_occ target_eq_dec). intros x.
    pose proof (cnt_le_1 _ x Hnd). specialize (Hcnt x). unfold cnt in *. lia.
  - intros t Ht. apply cnt_In. apply cnt_In in Ht.
    specialize (Hcnt t). lia.
Qed.

(** The result of a returned sweep is [print_results] of its own two
    failure lists. *)
Lemma result_self (cidr1 cidr2 : string) (skip : pyval)
      (out : list line) (sched : list tid) (r : result) (fx : effects) :
  initiate_ping_queues get_returncode cidr1 cidr2 skip out sched
  = (Returned r, fx) ->
  r = snd (print_results cidr1 (failed_ips1 r) cidr2 (failed_ips2 r)).
Proof.
  intros H.
  destruct (initiate_returned _ _ _ _ _ _ _ H)
    as [i1 [i2 [_ [_ [_ [Hr _]]]]]].
  cbv zeta in Hr.
  set (f1 := faillist (pool1 _)) in Hr. set (f2 := faillist (pool2 _)) in Hr.
  assert (E1 : failed_ips1 r = f1)
    by (rewrite Hr, print_results_result; reflexivity).
  assert (E2 : failed_ips2 r = f2)
    by (rewrite Hr, print_results_result; reflexivity).
  rewrite E1, E2. exact Hr.
Qed.

End SweepFacts.

Section RetryPolicy.

Variable get_returncode : nat -> target -> Z.

Lemma sweep_log_ok (cidr1 cidr2 : string) (skip : pyval)
      (out : list line) (sched : list tid) (r : result) (fx : effects) :
  initiate_ping_queues get_returncode cidr1 cidr2 skip out sched
  = (Returned r, fx) ->
  log_ok get_returncode (e_calls fx).
Proof.
  intros H.
  destruct (initiate_returned _ _ _ _ _ _ _ _ H)
    as [ips1 [ips2 [E1 [E2 [Hm [Hr [Hc _]]]]]]].
  rewrite Hc.
  assert (Hinv : inv get_returncode ips1 ips2
                     (run get_returncode sched (initial_state out ips1 ips2))).
  { apply inv_run;
      [eapply enumerate_ips_nodup; eassumption
      | eapply enumerate_ips_nodup; eassumption | apply inv_initial]. }
  apply Hinv.
Qed.

(** C3: in every returned sweep, under every interleaving, each
    enumerated target was probed at least once and at most three times,
    by one worker, with attempts numbered from 1.  Either an attempt
    returned 0, no attempt followed it and the target is not in the
    failure list; or three attempts returned a nonzero code and the target
    is in the failure list exactly once.  So a target is in the failure
    list if and only if it has three attempts, all nonzero.  Every recorded
    return code is the one [get_returncode] gave. *)
Theorem C3_retry_policy (cidr1 cidr2 : string) (skip : pyval)
        (out : list line) (sched : list tid) (r : result) (fx : effects)
        (ips1 ips2 : list target) :
  enumerate_ips cidr1 skip = inr ips1 ->
  enumerate_ips cidr2 skip = inr ips2 ->
  initiate_ping_queues get_returncode cidr1 cidr2 skip out sched
  = (Returned r, fx) ->
  log_ok get_returncode (e_calls fx) /\
  forall p t, In t (ips_of ips1 ips2 p) ->
    let h := calls_of p t (e_calls fx) in
    (1 <= List.length h <= 3)%nat /\
    ((up_history p t h /\ cnt t (failed_of p r) = 0%nat) \/
     (down_history p t h /\ cnt t (failed_of p r) = 1%nat)) /\
    (In t (failed_of p r) <->
     List.length h = 3%nat /\ Forall (fun c => c_rc c <> 0) h).
Proof.
  intros E1 E2 H. split; [eapply sweep_log_ok; eassumption|].
  intros p t Hin h.
  pose proof (sweep_target_fate get_returncode _ _ _ _ _ _ _ _ _ E1 E2 H p t Hin)
    as Hfate.
  fold h in Hfate.
  destruct Hfate as [[Hup Hc] | [Hdown Hc]].
  - pose proof Hup as [i [n [rest [Hn [Hh Hrun]]]]].
    pose proof (failed_run_length _ _ _ _ _ Hrun) as Hlen.
    split; [rewrite Hh; simpl; lia|].
    split; [left; now split|].
    split.
    + intros Hf. apply cnt_In in Hf. lia.
    + intros [_ Hall]. rewrite Hh in Hall.
      inversion Hall as [|? ? Hrc _]. simpl in Hrc. congruence.
  - pose proof Hdown as [i Hrun].
    pose proof (failed_run_length _ _ _ _ _ Hrun) as Hlen.
    split; [lia|]. split; [right; now split|].
    split.
    + intros _. split; [exact Hlen|].
      eapply Forall_impl; [|eapply failed_run_nonzero; exact Hrun].
      intros c [Hc' _]. exact Hc'.
    + intros _. apply cnt_In. lia.
Qed.

End RetryPolicy.

Lemma demo_sweep_returns :
  exists r,
    initiate_ping_queues (first_fail 4) "10.0.0.0/30" "10.0.1.0/30"
      (PStr "") [] (one_worker_schedule 3 3)
    = (Returned r, snd demo_sweep).
Proof. eexists. vm_compute. reflexivity. Qed.

Lemma demo_enumerate :
  enumerate_ips "10.0.0.0/30" (PStr "") = inr demo_ips1 /\
  enumerate_ips "10.0.1.0/30" (PStr "") = inr demo_ips2.
Proof. split; vm_compute; reflexivity. Qed.

(** In the small sweep the first target of the first range is found down
    and the second up after two attempts. *)
Lemma C3_retry_policy_witness :
  exists r, fst demo_sweep = Returned r /\
    In (1, "10.0.0.1") (failed_of P1 r) /\
    ~ In (2, "10.0.0.2") (failed_of P1 r) /\
    List.length (calls_of P1 (2, "10.0.0.2") (e_calls (snd demo_sweep))) = 2%nat.
Proof.
  destruct demo_sweep_returns as [r HX]. exists r.
  split; [unfold demo_sweep at 1; now rewrite HX|].
  destruct demo_enumerate as [E1 E2].
  destruct (C3_retry_policy (first_fail 4) _ _ _ _ _ _ _ _ _ E1 E2 HX)
    as [_ Hall].
  assert (H1 : In (1, "10.0.0.1") (ips_of demo_ips1 demo_ips2 P1))
    by (simpl; tauto).
  assert (H2 : In (2, "10.0.0.2") (ips_of demo_ips1 demo_ips2 P1))
    by (simpl; tauto).
  destruct (Hall P1 _ H1) as [_ [_ Hiff1]].
  destruct (Hall P1 _ H2) as [_ [_ Hiff2]].
  split; [|split].
  - apply Hiff1. split; [vm_compute; reflexivity|].
    vm_compute. repeat constructor; discriminate.
  - intros Hin. apply Hiff2 in Hin. destruct Hin as [Hlen _].
    vm_compute in Hlen. discriminate.
  - vm_compute. reflexivity.
Defined.

(* ================================================================== *)
(** * All probes down, all probes up                                   *)
(* ================================================================== *)

Section Forced.

Variable get_returncode : nat -> target -> Z.

Lemma log_ok_In (cs : list call) (c : call) :
  log_ok get_returncode cs -> In c cs ->
  exists n, c_rc c = get_returncode n (c_ip c).
Proof.
  induction cs as [|x cs IH]; intros Hlog Hin; [destruct Hin|].
  destruct Hlog as [Hx Hlog]. destruct Hin as [<-|Hin].
  - now exists (List.length cs).
  - now apply IH.
Qed.

Lemma default_valid24 :
  valid24 "192.168.1.0/24" default_net1 /\ valid24 "192.168.2.0/24" default_net2.
Proof. split; split; vm_compute; reflexivity. Qed.

Lemma all_targets_fst (net : IPAddress.IPv4Network) :
  map fst (all_targets net) = zrange 1 255.
Proof.
  unfold all_targets. rewrite map_map. cbn [fst]. apply map_id.
Qed.

Lemma default_enumerate (s : string) :
  enumerate_ips "192.168.1.0/24" (PStr s) = inr (all_targets default_net1) /\
  enumerate_ips "192.168.2.0/24" (PStr s) = inr (all_targets default_net2).
Proof.
  destruct default_valid24 as [V1 V2].
  split; [rewrite (enumerate_ips_24 _ _ (PStr s) V1) | rewrite (enumerate_ips_24 _ _ (PStr s) V2)];
    unfold all_targets;
    rewrite (filter_all_true (fun k => negb (int_eq_pyval k (PStr s))));
    reflexivity.
Qed.

Lemma main_no_options (sched : list tid) :
  main get_returncode (GetoptOk []) sched
  = initiate_ping_queues get_returncode "192.168.1.0/24" "192.168.2.0/24"
      (PStr "") [LBlank; LCidr1 "192.168.1.0/24"; LCidr2 "192.168.2.0/24"] sched.
Proof. reflexivity. Qed.

Lemma filter_none {A : Type} (f : A -> bool) (l : list A) :
  (forall x, In x l -> f x = false) -> filter f l = [].
Proof.
  induction l as [|x l IH]; intros H; simpl; [reflexivity|].
  rewrite (H x) by now left. apply IH. intros y Hy. apply H. now right.
Qed.

Lemma filter_all {A : Type} (f : A -> bool) (l : list A) :
  (forall x, In x l -> f x = true) -> filter f l = l.
Proof.
  induction l as [|x l IH]; intros H; simpl; [reflexivity|].
  rewrite (H x) by now left. f_equal. apply IH. intros y Hy. apply H. now right.
Qed.

(** Two failure lists with the same offsets: nothing is exclusive, and
    the common octets are the sorted offsets. *)
Lemma print_results_same_offsets (cidr1 cidr2 : string) (f1 f2 : list target)
      (offs : list Z) :
  Permutation (map fst f1) offs -> Permutation (map fst f2) offs ->
  let r := snd (print_results cidr1 f1 cidr2 f2) in
  failed_ips1_excl_octets r = [] /\ failed_ips2_excl_octets r = [] /\
  Permutation (failed_ips_common_octets r) offs.
Proof.
  intros P1o P2o r. subst r. rewrite print_results_result. cbn.
  assert (H12 : forall o, In o (map fst f1) -> octet_in o (map fst f2) = true).
  { intros o Ho. apply octet_in_In.
    eapply Permutation_in; [apply Permutation_sym, P2o|].
    eapply Permutation_in; [apply P1o | exact Ho]. }
  assert (H21 : forall o, In o (map fst f2) -> octet_in o (map fst f1) = true).
  { intros o Ho. apply octet_in_In.
    eapply Permutation_in; [apply Permutation_sym, P1o|].
    eapply Permutation_in; [apply P2o | exact Ho]. }
  rewrite (filter_none (fun o => negb (octet_in o (map fst f2))))
    by (intros o Ho; now rewrite H12).
  rewrite (filter_none (fun o => negb (octet_in o (map fst f1))))
    by (intros o Ho; now rewrite H21).
  rewrite (filter_all (fun o => octet_in o (map fst f2))) by exact H12.
  split; [reflexivity|]. split; [reflexivity|].
  eapply Permutation_trans; [apply Permutation_sym, sort_perm | exact P1o].
Qed.

(** C4, as the code has it.  With the default two ranges and nothing
    excluded: if every return code is nonzero, each failure list is a
    permutation of the 255 targets of its range (offsets 1..255), the two
    exclusive sequences are empty and the common one is a permutation of
    1..255, so 255 entries; if every return code is 0, both failure lists
    and the three sequences are empty. *)
Theorem C4_forced_outcomes (sched : list tid) (r : result) (fx : effects) :
  main get_returncode (GetoptOk []) sched = (Returned r, fx) ->
  ((forall n t, get_returncode n t <> 0) ->
     Permutation (failed_ips1 r) (all_targets default_net1) /\
     Permutation (failed_ips2 r) (all_targets default_net2) /\
     List.length (failed_ips1 r) = 255%nat /\
     List.length (failed_ips2 r) = 255%nat /\
     failed_ips1_excl_octets r = [] /\
     failed_ips2_excl_octets r = [] /\
     Permutation (failed_ips_common_octets r) (zrange 1 255) /\
     List.length (failed_ips_common_octets r) = 255%nat) /\
  ((forall n t, get_returncode n t = 0) ->
     failed_ips1 r = [] /\ failed_ips2 r = [] /\
     failed_ips1_excl_octets r = [] /\
     failed_ips2_excl_octets r = [] /\
     failed_ips_common_octets r = []).
Proof.
  rewrite main_no_options. intros H.
  destruct (default_enumerate "") as [E1 E2].
  pose proof (sweep_target_fate get_returncode _ _ _ _ _ _ _ _ _ E1 E2 H) as Hfate.
  pose proof (sweep_failed_sub get_returncode _ _ _ _ _ _ _ _ _ E1 E2 H) as Hsub.
  pose proof (sweep_log_ok get_returncode _ _ _ _ _ _ _ H) as Hlog.
  pose proof (result_self get_returncode _ _ _ _ _ _ _ H) as Hr.
  split.
  - intros Hfail.
    assert (Hperm : forall p, Permutation (failed_of p r)
                      (ips_of (all_targets default_net1) (all_targets default_net2) p)).
    { intros p. destruct (Hsub p) as [Hnd Hin].
      apply NoDup_Permutation; [exact Hnd | |].
      - destruct p; eapply enumerate_ips_nodup; eassumption.
      - intros t. split; [apply Hin|]. intros Ht.
        destruct (Hfate p t Ht) as [[Hup _] | [_ Hc]].
        + destruct Hup as [i [n [rest [_ [Hh _]]]]].
          assert (Hc : In (mkCall p i t (Z.of_nat (S n)) 0) (e_calls fx)).
          { apply (calls_of_In p t). rewrite Hh. now left. }
          destruct (log_ok_In _ _ Hlog Hc) as [k Hk]. cbn in Hk.
          symmetry in Hk. now apply Hfail in Hk.
        + apply cnt_In. lia. }
    pose proof (Hperm P1) as Hp1. pose proof (Hperm P2) as Hp2.
    cbn [failed_of ips_of] in Hp1, Hp2.
    split; [exact Hp1|]. split; [exact Hp2|].
    split; [rewrite (Permutation_length Hp1); unfold all_targets;
            now rewrite length_map, zrange_length|].
    split; [rewrite (Permutation_length Hp2); unfold all_targets;
            now rewrite length_map, zrange_length|].
    assert (Ho1 : Permutation (map fst (failed_ips1 r)) (zrange 1 255))
      by (rewrite <- (all_targets_fst default_net1); now apply Permutation_map).
    assert (Ho2 : Permutation (map fst (failed_ips2 r)) (zrange 1 255))
      by (rewrite <- (all_targets_fst default_net2); now apply Permutation_map).
    destruct (print_results_same_offsets "192.168.1.0/24" "192.168.2.0/24"
                _ _ _ Ho1 Ho2) as [He1 [He2 Hc]].
    rewrite <- Hr in He1, He2, Hc.
    split; [exact He1|]. split; [exact He2|]. split; [exact Hc|].
    rewrite (Permutation_length Hc). apply zrange_length.
  - intros Hok.
    assert (Hnot : forall p t, ~ In t (failed_of p r)).
    { intros p t Ht. destruct (Hsub p) as [_ Hin].
      destruct (Hfate p t (Hin t Ht)) as [[_ Hc] | [Hdown _]].
      - apply cnt_In in Ht. lia.
      - destruct Hdown as [i Hrun].
        destruct (calls_of p t (e_calls fx)) as [|c rest] eqn:Eh;
          [destruct Hrun|].
        destruct Hrun as [_ [Hrc _]].
        assert (Hc : In c (e_calls fx)).
        { apply (calls_of_In p t). rewrite Eh. now left. }
        destruct (log_ok_In _ _ Hlog Hc) as [k Hk].
        rewrite Hok in Hk. contradiction. }
    assert (Hnil : forall p, failed_of p r = []).
    { intros p. destruct (failed_of p r) as [|t l] eqn:E; [reflexivity|].
      exfalso. apply (Hnot p t). rewrite E. now left. }
    pose proof (Hnil P1) as H1. pose proof (Hnil P2) as H2.
    cbn [failed_of] in H1, H2.
    split; [exact H1|]. split; [exact H2|].
    rewrite Hr, H1, H2. cbn. auto.
Qed.

End Forced.

Lemma all_down_run_returns :
  exists r, main (always 1) (GetoptOk []) (one_worker_schedule 255 255)
            = (Returned r, snd all_down_run).
Proof. eexists. vm_compute. reflexivity. Qed.

Lemma all_up_run_returns :
  exists r, main (always 0) (GetoptOk []) (one_worker_schedule 255 255)
            = (Returned r, snd all_up_run).
Proof. eexists. vm_compute. reflexivity. Qed.

Lemma C4_forced_outcomes_witness :
  (exists r, fst all_down_run = Returned r /\
             List.length (failed_ips1 r) = 255%nat /\
             failed_ips1_excl_octets r = [] /\
             List.length (failed_ips_common_octets r) = 255%nat) /\
  (exists r, fst all_up_run = Returned r /\
             failed_ips1 r = [] /\ failed_ips_common_octets r = []).
Proof.
  split.
  - destruct all_down_run_returns as [r HX]. exists r.
    split; [unfold all_down_run at 1; now rewrite HX|].
    destruct (C4_forced_outcomes (always 1) _ _ _ HX) as [Hdown _].
    assert (Hall : forall (n : nat) (t : target), always 1 n t <> 0)
      by (intros n t; unfold always; discriminate).
    destruct (Hdown Hall) as [_ [_ [H1 [_ [H2 [_ [_ H3]]]]]]].
    auto.
  - destruct all_up_run_returns as [r HX]. exists r.
    split; [unfold all_up_run at 1; now rewrite HX|].
    destruct (C4_forced_outcomes (always 0) _ _ _ HX) as [_ Hup].
    assert (Hall : forall (n : nat) (t : target), always 0 n t = 0)
      by (intros n t; reflexivity).
    destruct (Hup Hall) as [H1 [_ [_ [_ H2]]]].
    auto.
Defined.

(** C4 with the specification's figures (254 entries in each failure
    list and in the common sequence) does not hold on the default sweep with
    every ping failing: 255 entries each, offset 255 among them. *)
Lemma C4_counterexample :
  (forall n t, always 1 n t <> 0) /\
  exists r, fst all_down_run = Returned r /\
            List.length (failed_ips1 r) = 255%nat /\
            List.length (failed_ips2 r) = 255%nat /\
            List.length (failed_ips_common_octets r) = 255%nat /\
            In (255, "192.168.1.255") (failed_ips1 r).
Proof.
  split; [intros n t; unfold always; discriminate|].
  eexists. split; [vm_compute; reflexivity|].
  split; [vm_compute; reflexivity|].
  split; [vm_compute; reflexivity|].
  split; [vm_compute; reflexivity|].
  apply (nth_error_In _ 254). vm_compute. reflexivity.
Qed.

(* ================================================================== *)
(** * Excluded offset, failure-list entries, drain barrier             *)
(* ================================================================== *)

Section Guarantees.

Variable get_returncode : nat -> target -> Z.

Lemma attempts_desc_S (n : nat) :
  attempts_desc (S n) = Z.of_nat (S n) :: attempts_desc n.
Proof.
  unfold attempts_desc. rewrite seq_S, rev_app_distr. reflexivity.
Qed.

Lemma failed_run_attempts (p : pool_id) (i : nat) (t : target) (n : nat)
      (cs : list call) :
  failed_run p i t n cs -> map c_attempt cs = attempts_desc n.
Proof.
  revert cs. induction n as [|n IH]; intros [|c r] H;
    cbn [failed_run] in H; try contradiction; [reflexivity|].
  destruct H as [Hc [_ H]]. rewrite attempts_desc_S. cbn [map].
  rewrite (IH r H). f_equal. rewrite Hc. reflexivity.
Qed.

Lemma enumerate_ips_skipped (cidr : string) (K : Z) (ips : list target) :
  enumerate_ips cidr (PInt K) = inr ips ->
  forall t, In t ips -> fst t <> K.
Proof.
  rewrite enumerate_ips_spec.
  destruct (IPAddress.parse_network cidr); [|discriminate].
  intros H t Ht. inversion H; subst ips; clear H.
  apply in_map_iff in Ht. destruct Ht as [ip [<- Hin]].
  apply filter_In in Hin. destruct Hin as [_ Hk].
  unfold kept in Hk. apply negb_true_iff, orb_false_iff in Hk.
  destruct Hk as [_ Hk]. cbn [int_eq_pyval] in Hk.
  apply Z.eqb_neq in Hk. exact Hk.
Qed.

Lemma sweep_calls_sub (cidr1 cidr2 : string) (skip : pyval)
      (out : list line) (sched : list tid) (r : result) (fx : effects)
      (ips1 ips2 : list target) :
  enumerate_ips cidr1 skip = inr ips1 ->
  enumerate_ips cidr2 skip = inr ips2 ->
  initiate_ping_queues get_returncode cidr1 cidr2 skip out sched
  = (Returned r, fx) ->
  forall c, In c (e_calls fx) -> In (c_ip c) (ips_of ips1 ips2 (c_pool c)).
Proof.
  intros E1 E2 H c Hc.
  destruct (initiate_returned _ _ _ _ _ _ _ _ H)
    as [i1 [i2 [E1' [E2' [Hm [_ [Hcalls _]]]]]]].
  rewrite E1 in E1'. rewrite E2 in E2'.
  inversion E1'; subst i1. inversion E2'; subst i2. clear E1' E2'.
  set (s := run get_returncode sched (initial_state out ips1 ips2)) in *.
  assert (Hinv : inv get_returncode ips1 ips2 s).
  { apply inv_run;
      [eapply enumerate_ips_nodup; eassumption
      | eapply enumerate_ips_nodup; eassumption | apply inv_initial]. }
  destruct (final_pool _ _ _ (c_pool c) s Hinv Hm)
    as [_ [_ [ups [_ [_ [_ Hsub]]]]]].
  rewrite Hcalls in Hc. now apply Hsub.
Qed.

Lemma derived_sub (cidr1 cidr2 : string) (f1 f2 : list target) (o : Z) :
  let r := snd (print_results cidr1 f1 cidr2 f2) in
  (In o (failed_ips1_excl_octets r) -> In o (map fst f1)) /\
  (In o (failed_ips2_excl_octets r) -> In o (map fst f2)) /\
  (In o (failed_ips_common_octets r) -> In o (map fst f1)).
Proof.
  intros r. subst r. rewrite print_results_result. cbn.
  repeat split; intros H; apply sort_In, filter_In in H; tauto.
Qed.

(** C5: when the sweep is given the excluded offset [K], [K] is the
    offset of no entry of either failure list, it is in none of the three
    derived sequences, and no target with offset [K] was ever probed. *)
Theorem C5_excluded_offset (cidr1 cidr2 : string) (K : Z) (out : list line)
        (sched : list tid) (r : result) (fx : effects) :
  initiate_ping_queues get_returncode cidr1 cidr2 (PInt K) out sched
  = (Returned r, fx) ->
  ~ In K (map fst (failed_ips1 r)) /\
  ~ In K (map fst (failed_ips2 r)) /\
  ~ In K (failed_ips1_excl_octets r) /\
  ~ In K (failed_ips2_excl_octets r) /\
  ~ In K (failed_ips_common_octets r) /\
  (forall c, In c (e_calls fx) -> fst (c_ip c) <> K).
Proof.
  intros H.
  destruct (initiate_returned _ _ _ _ _ _ _ _ H)
    as [ips1 [ips2 [E1 [E2 _]]]].
  pose proof (sweep_failed_sub get_returncode _ _ _ _ _ _ _ _ _ E1 E2 H) as Hsub.
  pose proof (sweep_calls_sub _ _ _ _ _ _ _ _ _ E1 E2 H) as Hcalls.
  pose proof (result_self get_returncode _ _ _ _ _ _ _ H) as Hr.
  assert (Hips : forall p t, In t (ips_of ips1 ips2 p) -> fst t <> K).
  { intros p t Ht. destruct p; cbn [ips_of] in Ht;
      [exact (enumerate_ips_skipped _ _ _ E1 t Ht)
      | exact (enumerate_ips_skipped _ _ _ E2 t Ht)]. }
  assert (Hf : forall p, ~ In K (map fst (failed_of p r))).
  { intros p Hin. apply in_map_iff in Hin. destruct Hin as [t [Hk Ht]].
    apply (Hips p t); [|exact Hk]. now apply (proj2 (Hsub p)). }
  pose proof (Hf P1) as Hf1. pose proof (Hf P2) as Hf2.
  cbn [failed_of] in Hf1, Hf2.
  destruct (derived_sub cidr1 cidr2 (failed_ips1 r) (failed_ips2 r) K)
    as [D1 [D2 D3]].
  rewrite <- Hr in D1, D2, D3.
  split; [exact Hf1|]. split; [exact Hf2|].
  split; [intros Hin; apply Hf1, D1, Hin|].
  split; [intros Hin; apply Hf2, D2, Hin|].
  split; [intros Hin; apply Hf1, D3, Hin|].
  intros c Hc. apply (Hips (c_pool c)). now apply Hcalls.
Qed.

Lemma inr_eq {A B : Type} (x y : B) : @inr A B x = inr y -> x = y.
Proof. intros H. injection H. auto. Qed.

Lemma dotted_split (net : IPAddress.IPv4Network) (k : Z) :
  0 <= k < 256 ->
  PyStr.split "." (dotted net k)
  = [PyStr.str_int (IPAddress.octet 0 (IPAddress.network_address net));
     PyStr.str_int (IPAddress.octet 1 (IPAddress.network_address net));
     PyStr.str_int (IPAddress.octet 2 (IPAddress.network_address net));
     PyStr.str_int k].
Proof.
  intros Hk. unfold dotted.
  apply split_join4; try (apply str_int_free, octet_range).
  now apply str_int_free.
Qed.

Lemma dotted_final_octet (net : IPAddress.IPv4Network) (k : Z) :
  0 <= k < 256 -> final_octet_of (dotted net k) = inr k.
Proof.
  intros Hk. unfold final_octet_of. rewrite dotted_split by exact Hk.
  cbn [nth_error]. now rewrite int_of_str_str_int.
Qed.

(** C9: every entry of a returned failure list is a tuple enumerated for
    its range; its offset is the integer final octet of its address and lies
    in 1..255; its address is the dotted quad of the range's first three
    octets and that offset. *)
Theorem C9_failure_entries (cidr1 cidr2 : string) (skip : pyval)
        (net1 net2 : IPAddress.IPv4Network) (out : list line)
        (sched : list tid) (r : result) (fx : effects) :
  valid24 cidr1 net1 -> valid24 cidr2 net2 ->
  initiate_ping_queues get_returncode cidr1 cidr2 skip out sched
  = (Returned r, fx) ->
  forall p o addr, In (o, addr) (failed_of p r) ->
    (exists ips, enumerate_ips (pick p cidr1 cidr2) skip = inr ips /\
                 In (o, addr) ips) /\
    final_octet_of addr = inr o /\
    1 <= o <= 255 /\
    addr = dotted (pick p net1 net2) o /\
    firstn 3 (PyStr.split "." addr)
    = map (fun i => PyStr.str_int
                      (IPAddress.octet i
                         (IPAddress.network_address (pick p net1 net2))))
          [0; 1; 2].
Proof.
  intros V1 V2 H p o addr Hin.
  destruct (initiate_returned _ _ _ _ _ _ _ _ H) as [ips1 [ips2 [E1 [E2 _]]]].
  pose proof (sweep_failed_sub get_returncode _ _ _ _ _ _ _ _ _ E1 E2 H p)
    as [_ Hsub].
  specialize (Hsub _ Hin).
  assert (Hen : enumerate_ips (pick p cidr1 cidr2) skip
                = inr (ips_of ips1 ips2 p)) by (destruct p; assumption).
  rewrite (enumerate_ips_24 _ _ skip V1) in E1.
  rewrite (enumerate_ips_24 _ _ skip V2) in E2.
  apply inr_eq in E1. apply inr_eq in E2.
  assert (Hin' : In (o, addr)
                    (map (fun k => (k, dotted (pick p net1 net2) k))
                         (filter (fun k => negb (int_eq_pyval k skip))
                                 (zrange 1 255)))).
  { destruct p; cbn [ips_of pick] in *; [rewrite E1 | rewrite E2]; exact Hsub. }
  apply in_map_iff in Hin'. destruct Hin' as [k [Hk Hf]].
  apply filter_In in Hf. destruct Hf as [Hr _]. apply zrange_In in Hr.
  assert (Hko : k = o) by congruence.
  assert (Hkd : dotted (pick p net1 net2) k = addr) by congruence.
  subst o addr.
  split; [|split; [|split; [|split]]].
  - exists (ips_of ips1 ips2 p). split; [exact Hen | exact Hsub].
  - apply dotted_final_octet. lia.
  - lia.
  - reflexivity.
  - rewrite dotted_split by lia. reflexivity.
Qed.

End Guarantees.


(* ================================================================== *)
(** * Every sweep can run to its return                                *)
(* ================================================================== *)

Section Termination.

Variable get_returncode : nat -> target -> Z.
Variables ips1 ips2 : list target.
Hypothesis ips1_nodup : NoDup ips1.
Hypothesis ips2_nodup : NoDup ips2.

Lemma unstarted_app (p : pool_id) (a b : list minstr) :
  unstarted p (a ++ b) = (unstarted p a + unstarted p b)%nat.
Proof.
  induction a as [|[q i | q ip | q] a IH]; simpl; auto.
  destruct (pool_id_eqb q p); simpl; now rewrite IH.
Qed.

Lemma unstarted_starts (p q : pool_id) (l : list nat) :
  unstarted p (map (MStart q) l)
  = if pool_id_eqb q p then List.length l else 0%nat.
Proof.
  induction l as [|x l IH]; simpl.
  - now destruct (pool_id_eqb q p).
  - rewrite IH. now destruct (pool_id_eqb q p).
Qed.

Lemma unstarted_puts (p q : pool_id) (l : list target) :
  unstarted p (map (MPut q) l) = 0%nat.
Proof. induction l; simpl; auto. Qed.

Lemma threads_ok_initial (out : list line) :
  threads_ok (initial_state out ips1 ips2).
Proof.
  intros p. cbn [initial_state main_pc]. unfold main_program.
  rewrite !unstarted_app, !unstarted_starts, !unstarted_puts, !length_seq.
  destruct p; reflexivity.
Qed.

Lemma threads_ok_step (t : tid) (s s' : state) :
  threads_ok s -> step get_returncode t s = Some s' -> threads_ok s'.
Proof.
  intros Hok Hstep p. specialize (Hok p).
  destruct t as [|q i]; simpl in Hstep.
  - unfold step_main in Hstep.
    destruct (main_pc s) as [|[q i | q ip | q] pc] eqn:Epc; try discriminate.
    + inversion Hstep; subst s'. autorewrite with state.
      cbn [unstarted] in Hok.
      destruct (pool_id_eqb q p) eqn:E.
      * apply pool_id_eqb_eq in E. subst q. autorewrite with state.
        rewrite length_app. simpl. lia.
      * rewrite get_pool_set_other;
          [exact Hok | intros Heq; rewrite Heq in E; destruct q; discriminate].
    + inversion Hstep; subst s'. autorewrite with state.
      cbn [unstarted] in Hok.
      destruct (pool_id_eqb q p) eqn:E.
      * apply pool_id_eqb_eq in E. subst q. autorewrite with state. exact Hok.
      * rewrite get_pool_set_other;
          [exact Hok | intros Heq; rewrite Heq in E; destruct q; discriminate].
    + destruct (unfinished_tasks (get_pool q s) =? 0)%nat; [|discriminate].
      inversion Hstep; subst s'. autorewrite with state. exact Hok.
  - unfold ping_thread in Hstep.
    destruct (nth_error (workers (get_pool q s)) i) as [w|]; [|discriminate].
    assert (Hgen : forall pl',
               List.length (workers pl') = List.length (workers (get_pool q s)) ->
               (List.length (workers (get_pool p (set_pool q pl' s))) +
                unstarted p (main_pc s) = num_threads)%nat).
    { intros pl' Hl. destruct (pool_id_eqb q p) eqn:E.
      - apply pool_id_eqb_eq in E. subst q. autorewrite with state. lia.
      - rewrite get_pool_set_other;
          [exact Hok | intros Heq; rewrite Heq in E; destruct q; discriminate]. }
    destruct w as [| ip a | ip a rc |].
    + destruct (queue (get_pool q s)); [discriminate|].
      inversion Hstep; subst s'. autorewrite with state.
      apply Hgen. autorewrite with state. apply length_upd.
    + destruct (a <? 4); inversion Hstep; subst s'; autorewrite with state;
        apply Hgen; autorewrite with state; apply length_upd.
    + destruct (judge rc a); inversion Hstep; subst s'; autorewrite with state;
        apply Hgen; autorewrite with state; apply length_upd.
    + inversion Hstep; subst s'. autorewrite with state.
      apply Hgen. autorewrite with state. apply length_upd.
Qed.

Lemma weight_upd (ws : list wstate) (i : nat) (w w' : wstate) :
  nth_error ws i = Some w ->
  (worker_weight w + list_sum (map worker_weight (upd i w' ws))
   = worker_weight w' + list_sum (map worker_weight ws))%nat.
Proof.
  revert i. induction ws as [|z ws IH]; intros [|i] H; simpl in *;
    try discriminate.
  - inversion H; subst. lia.
  - specialize (IH _ H). lia.
Qed.

Lemma pool_weight_other (p q : pool_id) (pl : pool) (s : state) :
  p <> q -> pool_weight (get_pool p (set_pool q pl s)) = pool_weight (get_pool p s).
Proof. intros H. now rewrite get_pool_set_other. Qed.

Lemma measure_pools (s : state) (q : pool_id) :
  measure s
  = (list_sum (map instr_weight (main_pc s)) +
     pool_weight (get_pool q s) +
     pool_weight (get_pool (match q with P1 => P2 | P2 => P1 end) s))%nat.
Proof. unfold measure. destruct q; cbn [get_pool]; lia. Qed.

Lemma other_pool_neq (q : pool_id) : match q with P1 => P2 | P2 => P1 end <> q.
Proof. destruct q; discriminate. Qed.

(** Every step brings the sweep closer to its end. *)
Lemma measure_step (t : tid) (s s' : state) :
  inv get_returncode ips1 ips2 s -> step get_returncode t s = Some s' ->
  (measure s' < measure s)%nat.
Proof.
  intros Hinv Hstep. destruct t as [|q i]; simpl in Hstep.
  - unfold step_main in Hstep.
    destruct (main_pc s) as [|[q i | q ip | q] pc] eqn:Epc; try discriminate.
    + inversion Hstep; subst s'.
      rewrite (measure_pools _ q), (measure_pools s q).
      autorewrite with state. rewrite pool_weight_other by apply other_pool_neq.
      rewrite Epc. unfold pool_weight. autorewrite with state.
      rewrite map_app, list_sum_app. simpl. lia.
    + inversion Hstep; subst s'.
      rewrite (measure_pools _ q), (measure_pools s q).
      autorewrite with state. rewrite pool_weight_other by apply other_pool_neq.
      rewrite Epc. unfold pool_weight. autorewrite with state.
      rewrite length_app. simpl. lia.
    + destruct (unfinished_tasks (get_pool q s) =? 0)%nat; [|discriminate].
      inversion Hstep; subst s'. unfold measure. autorewrite with state.
      rewrite Epc. simpl. lia.
  - assert (Hex : exists ups, pool_inv ips1 ips2 q s ups)
      by (destruct Hinv as [[u1 H1] [[u2 H2] _]];
          destruct q; [now exists u1 | now exists u2]).
    destruct Hex as [ups Hq].
    unfold ping_thread in Hstep.
    destruct (nth_error (workers (get_pool q s)) i) as [w|] eqn:Ew;
      [|discriminate].
    pose proof (pi_workers _ _ _ _ _ Hq _ _ Ew) as Hw.
    rewrite (measure_pools s q).
    destruct w as [| ip a | ip a rc |].
    + destruct (queue (get_pool q s)) as [|t q'] eqn:Eq; [discriminate|].
      inversion Hstep; subst s'. rewrite (measure_pools _ q).
      autorewrite with state. rewrite pool_weight_other by apply other_pool_neq.
      unfold pool_weight. autorewrite with state. rewrite Eq.
      pose proof (weight_upd _ _ _ (WPing t 1) Ew) as Hu. simpl in *. lia.
    + destruct Hw as [n [Hn [Ha _]]].
      destruct (a <? 4); inversion Hstep; subst s'; rewrite (measure_pools _ q);
        autorewrite with state;
        rewrite pool_weight_other by apply other_pool_neq;
        unfold pool_weight; autorewrite with state.
      * pose proof (weight_upd _ _ _ (WBranch ip a
                      (get_returncode (List.length (calls s)) ip)) Ew) as Hu.
        cbn [worker_weight] in Hu. lia.
      * pose proof (weight_upd _ _ _ WTaskDone Ew) as Hu.
        cbn [worker_weight] in Hu. lia.
    + destruct Hw as [n [r [Hn [Ha _]]]].
      unfold judge in Hstep.
      destruct (rc =? 0); [|destruct (a =? 3) eqn:Ea];
        cbn [negb andb] in Hstep; inversion Hstep; subst s';
        rewrite (measure_pools _ q); autorewrite with state;
        rewrite pool_weight_other by apply other_pool_neq;
        unfold pool_weight; autorewrite with state.
      * pose proof (weight_upd _ _ _ WTaskDone Ew) as Hu.
        cbn [worker_weight] in Hu. lia.
      * pose proof (weight_upd _ _ _ WTaskDone Ew) as Hu.
        cbn [worker_weight] in Hu. lia.
      * apply Z.eqb_neq in Ea.
        pose proof (weight_upd _ _ _ (WPing ip (a + 1)) Ew) as Hu.
        cbn [worker_weight] in Hu. lia.
    + inversion Hstep; subst s'. rewrite (measure_pools _ q).
      autorewrite with state. rewrite pool_weight_other by apply other_pool_neq.
      unfold pool_weight. autorewrite with state.
      pose proof (weight_upd _ _ _ WGet Ew) as Hu.
      cbn [worker_weight] in Hu. lia.
Qed.

End Termination.

Section Progress.

Variable get_returncode : nat -> target -> Z.

Lemma idle_or_busy (ws : list wstate) :
  (forall i w, nth_error ws i = Some w -> w = WGet) \/
  (exists i w, nth_error ws i = Some w /\ w <> WGet).
Proof.
  induction ws as [|z ws [IH|[i [w [Hi Hw]]]]].
  - left. intros [|i] w H; discriminate.
  - destruct z as [| t a | t a rc |];
      try (right; exists 0%nat; eexists; split; [reflexivity | discriminate]).
    left. intros [|i] w H; simpl in H; [now inversion H | now apply (IH i)].
  - right. exists (S i), w. now split.
Qed.

Lemma all_get_quiet (ws : list wstate) :
  (forall i w, nth_error ws i = Some w -> w = WGet) ->
  inflight ws = [] /\ done_count ws = 0%nat.
Proof.
  induction ws as [|z ws IH]; intros H; [now split|].
  assert (Hz : z = WGet) by (apply (H 0%nat); reflexivity). subst z.
  destruct IH as [H1 H2]; [intros i w Hi; now apply (H (S i))|].
  unfold inflight, done_count in *. simpl. now rewrite H1, H2.
Qed.

Lemma busy_can_step (q : pool_id) (i : nat) (s : state) (w : wstate) :
  nth_error (workers (get_pool q s)) i = Some w -> w <> WGet ->
  exists s', ping_thread get_returncode q i s = Some s'.
Proof.
  intros Hi Hw. unfold ping_thread. rewrite Hi.
  destruct w as [| t a | t a rc |]; [contradiction | | |].
  - destruct (a <? 4); eexists; reflexivity.
  - destruct (judge rc a); eexists; reflexivity.
  - eexists; reflexivity.
Qed.

(** A pool with an unfinished task and all its workers started has a
    worker that can move. *)
Lemma pool_progress (ips1 ips2 : list target) (q : pool_id) (s : state)
      (ups : list target) :
  pool_inv ips1 ips2 q s ups ->
  unfinished_tasks (get_pool q s) <> 0%nat ->
  List.length (workers (get_pool q s)) = num_threads ->
  exists i s', ping_thread get_returncode q i s = Some s'.
Proof.
  intros Hinv Hu Hlen.
  destruct (idle_or_busy (workers (get_pool q s))) as [Hidle|[i [w [Hi Hw]]]].
  - destruct (all_get_quiet _ Hidle) as [Hf Hd].
    pose proof (pi_unfinished _ _ _ _ _ Hinv) as Hun.
    rewrite Hf, Hd in Hun. simpl in Hun.
    destruct (queue (get_pool q s)) as [|t q'] eqn:Eq; [simpl in Hun; lia|].
    destruct (workers (get_pool q s)) as [|w ws] eqn:Ew; [discriminate|].
    assert (w = WGet) by (apply (Hidle 0%nat); reflexivity). subst w.
    exists 0%nat. unfold ping_thread. rewrite Ew, Eq. simpl.
    eexists; reflexivity.
  - exists i. now apply (busy_can_step q i s w).
Qed.

(** No deadlock: until the main thread has returned, some thread can
    move. *)
Lemma progress (ips1 ips2 : list target) (s : state) :
  inv get_returncode ips1 ips2 s -> threads_ok s -> main_pc s <> [] ->
  exists t s', step get_returncode t s = Some s'.
Proof.
  intros [[u1 Hi1] [[u2 Hi2] [_ Hpc]]] Hth Hm.
  assert (Hjoin : forall q pc, main_pc s = MJoin q :: pc ->
                    unstarted q (main_pc s) = 0%nat ->
                    forall ups, pool_inv ips1 ips2 q s ups ->
                    exists t s', step get_returncode t s = Some s').
  { intros q pc Epc Hun ups Hq.
    destruct (Nat.eq_dec (unfinished_tasks (get_pool q s)) 0) as [E|E].
    - exists TMain. simpl. unfold step_main. rewrite Epc, E. simpl.
      eexists; reflexivity.
    - pose proof (Hth q) as Hl. rewrite Hun in Hl.
      destruct (pool_progress _ _ q s ups Hq E) as [i [s' Hs]]; [lia|].
      exists (TWorker q i), s'. exact Hs. }
  destruct Hpc as [[pre [Hnj Hpc]] | [[Hpc _] | [Hpc _]]].
  - destruct pre as [|x pre].
    + apply (Hjoin P1 [MJoin P2] Hpc) with (ups := u1); [|exact Hi1].
      rewrite Hpc. reflexivity.
    + exists TMain. simpl. unfold step_main. rewrite Hpc.
      destruct x as [q i | q ip | q].
      * eexists; reflexivity.
      * eexists; reflexivity.
      * exfalso. apply (Hnj q). now left.
  - apply (Hjoin P2 [] Hpc) with (ups := u2); [|exact Hi2].
    rewrite Hpc. reflexivity.
  - contradiction.
Qed.

Lemma run_app (a b : list tid) (s : state) :
  run get_returncode (a ++ b) s = run get_returncode b (run get_returncode a s).
Proof.
  revert s. induction a as [|t a IH]; intros s; simpl; [reflexivity|].
  destruct (step get_returncode t s); apply IH.
Qed.

Lemma threads_ok_run (sched : list tid) (s : state) :
  threads_ok s -> threads_ok (run get_returncode sched s).
Proof.
  revert s. induction sched as [|t rest IH]; intros s H; simpl; [exact H|].
  destruct (step get_returncode t s) as [s'|] eqn:E.
  - apply IH. now apply (threads_ok_step get_returncode t s).
  - now apply IH.
Qed.

(** From any state a sweep reaches, some schedule brings the main thread
    to its return, in at most [measure s] steps. *)
Lemma can_finish (ips1 ips2 : list target) (n : nat) :
  NoDup ips1 -> NoDup ips2 ->
  forall s, (measure s < n)%nat ->
    inv get_returncode ips1 ips2 s -> threads_ok s ->
    exists sched, main_pc (run get_returncode sched s) = [] /\
                  (List.length sched <= measure s)%nat.
Proof.
  intros N1 N2. induction n as [|n IH]; intros s Hlt Hinv Hth; [lia|].
  destruct (main_pc s) as [|x pc] eqn:Epc.
  - exists []. split; [exact Epc | simpl; lia].
  - destruct (progress ips1 ips2 s Hinv Hth) as [t [s' Hs]];
      [rewrite Epc; discriminate|].
    pose proof (measure_step get_returncode ips1 ips2 t s s' Hinv Hs) as Hm.
    destruct (IH s') as [sched [Hfin Hlen]];
      [lia | now apply (inv_step get_returncode ips1 ips2 N1 N2 t s)
       | now apply (threads_ok_step get_returncode t s) |].
    exists (t :: sched). simpl. rewrite Hs. split; [exact Hfin | lia].
Qed.

(** Wherever a schedule has left a sweep, it can be continued to the
    return of [initiate_ping_queues]. *)
Theorem sweep_can_return (cidr1 cidr2 : string) (skip : pyval)
        (out : list line) (ips1 ips2 : list target) (sched : list tid) :
  enumerate_ips cidr1 skip = inr ips1 ->
  enumerate_ips cidr2 skip = inr ips2 ->
  exists sched' r,
    fst (initiate_ping_queues get_returncode cidr1 cidr2 skip out
           (sched ++ sched')) = Returned r.
Proof.
  intros E1 E2.
  pose proof (enumerate_ips_nodup _ _ _ E1) as N1.
  pose proof (enumerate_ips_nodup _ _ _ E2) as N2.
  set (s := run get_returncode sched (initial_state out ips1 ips2)).
  assert (Hinv : inv get_returncode ips1 ips2 s)
    by (apply inv_run; [assumption | assumption | apply inv_initial]).
  assert (Hth : threads_ok s)
    by (apply threads_ok_run, threads_ok_initial).
  destruct (can_finish ips1 ips2 (S (measure s)) N1 N2 s (Nat.lt_succ_diag_r _)
              Hinv Hth) as [sched' [Hfin _]].
  exists sched'. unfold initiate_ping_queues. rewrite E1, E2, run_app.
  fold s. rewrite Hfin.
  destruct (print_results cidr1 _ cidr2 _) as [printed r].
  exists r. reflexivity.
Qed.

End Progress.

Section Barrier.

Variable get_returncode : nat -> target -> Z.

Lemma final_unfinished (ips1 ips2 : list target) (p : pool_id) (s : state) :
  inv get_returncode ips1 ips2 s -> main_pc s = [] ->
  unfinished_tasks (get_pool p s) = 0%nat.
Proof.
  intros [_ [_ [_ Hpc]]] Hm.
  destruct Hpc as [[pre [_ Hpc]] | [[Hpc _] | [_ [H1 H2]]]].
  - rewrite Hm in Hpc. destruct pre; discriminate.
  - congruence.
  - destruct p; assumption.
Qed.

Lemma failed_run_forallb (p : pool_id) (i : nat) (t : target) (n : nat)
      (cs : list call) :
  failed_run p i t n cs -> forallb (fun c => negb (c_rc c =? 0)) cs = true.
Proof.
  intros H. apply forallb_forall. intros c Hc.
  pose proof (failed_run_nonzero _ _ _ _ _ H) as Hall.
  rewrite Forall_forall in Hall. destruct (Hall c Hc) as [Hrc _].
  apply negb_true_iff, Z.eqb_neq. exact Hrc.
Qed.

Lemma up_history_not_down (p : pool_id) (cs : list call) (t : target) :
  up_history p t (calls_of p t cs) -> down_in_log p cs t = false.
Proof.
  intros [i [n [rest [_ [Hh _]]]]]. unfold down_in_log. rewrite Hh.
  cbn [forallb c_rc]. rewrite Z.eqb_refl. cbn [negb andb].
  apply andb_false_r.
Qed.

Lemma down_history_down (p : pool_id) (cs : list call) (t : target) :
  down_history p t (calls_of p t cs) -> down_in_log p cs t = true.
Proof.
  intros [i Hrun]. unfold down_in_log.
  rewrite (failed_run_length _ _ _ _ _ Hrun).
  rewrite (failed_run_forallb _ _ _ _ _ Hrun). reflexivity.
Qed.

(** The attempts on a target: numbered [n], ..., 1 with [n] at most 3,
    all by one worker. *)
Lemma history_shape (p : pool_id) (t : target) (h : list call) :
  up_history p t h \/ down_history p t h ->
  exists i n, (1 <= n <= 3)%nat /\
    map c_attempt h = attempts_desc n /\
    Forall (fun c => c_worker c = i /\ c_pool c = p /\ c_ip c = t) h.
Proof.
  assert (Hall : forall i n cs, failed_run p i t n cs ->
            Forall (fun c => c_worker c = i /\ c_pool c = p /\ c_ip c = t) cs).
  { intros i n. induction n as [|n IH]; intros [|c r] H;
      cbn [failed_run] in H; try contradiction; constructor.
    - destruct H as [Hc _]. rewrite Hc. auto.
    - apply IH. tauto. }
  intros [[i [n [rest [Hn [Hh Hrun]]]]] | [i Hrun]].
  - exists i, (S n). split; [lia|]. rewrite Hh. split.
    + rewrite attempts_desc_S. cbn [map c_attempt].
      now rewrite (failed_run_attempts _ _ _ _ _ Hrun).
    + constructor; [auto | now apply (Hall i n)].
  - exists i, 3%nat. split; [lia|]. split.
    + now apply (failed_run_attempts p i t).
    + now apply (Hall i 3%nat).
Qed.

(** The state of a sweep when and only when the main thread is past both
    joins. *)
Lemma drain_barrier_state (cidr1 cidr2 : string) (skip : pyval)
        (out : list line) (sched : list tid) (ips1 ips2 : list target) :
  enumerate_ips cidr1 skip = inr ips1 ->
  enumerate_ips cidr2 skip = inr ips2 ->
  let s := run get_returncode sched (initial_state out ips1 ips2) in
  let X := initiate_ping_queues get_returncode cidr1 cidr2 skip out sched in
  (main_pc s <> [] -> fst X = Running) /\
  (main_pc s = [] ->
     (exists r, fst X = Returned r /\
                failed_ips1 r = faillist (pool1 s) /\
                failed_ips2 r = faillist (pool2 s)) /\
     forall p,
       queue (get_pool p s) = [] /\
       unfinished_tasks (get_pool p s) = 0%nat /\
       (forall i w, nth_error (workers (get_pool p s)) i = Some w -> w = WGet) /\
       (forall t, In t (ips_of ips1 ips2 p) ->
          exists i n, (1 <= n <= 3)%nat /\
            map c_attempt (calls_of p t (calls s)) = attempts_desc n /\
            Forall (fun c => c_worker c = i /\ c_pool c = p /\ c_ip c = t)
                   (calls_of p t (calls s))) /\
       (forall c, In c (calls s) -> c_pool c = p ->
                  In (c_ip c) (ips_of ips1 ips2 p)) /\
       Permutation (faillist (get_pool p s))
                   (filter (down_in_log p (calls s)) (ips_of ips1 ips2 p))).
Proof.
  intros E1 E2 s X.
  assert (Hinv : inv get_returncode ips1 ips2 s).
  { apply inv_run;
      [eapply enumerate_ips_nodup; eassumption
      | eapply enumerate_ips_nodup; eassumption | apply inv_initial]. }
  assert (HX : X = match main_pc s with
                   | [] => let '(printed, r) :=
                             print_results cidr1 (faillist (pool1 s))
                                           cidr2 (faillist (pool2 s)) in
                           (Returned r, effects_of (print_lines printed s))
                   | _ => (Running, effects_of s)
                   end).
  { subst X. unfold initiate_ping_queues. rewrite E1, E2. reflexivity. }
  split.
  - intros Hm. rewrite HX. destruct (main_pc s); [contradiction | reflexivity].
  - intros Hm. split.
    + rewrite HX, Hm.
      destruct (print_results cidr1 (faillist (pool1 s))
                              cidr2 (faillist (pool2 s))) as [printed r] eqn:Ep.
      exists r. split; [reflexivity|].
      assert (Hr : r = snd (print_results cidr1 (faillist (pool1 s))
                                          cidr2 (faillist (pool2 s))))
        by now rewrite Ep.
      rewrite Hr, print_results_result. auto.
    + intros p.
      destruct (final_pool _ _ _ p s Hinv Hm)
        as [Hq [Hw [ups [Hcnt [Hup [Hdown Hsub]]]]]].
      assert (Hnd : NoDup (ips_of ips1 ips2 p))
        by (destruct p; eapply enumerate_ips_nodup; eassumption).
      assert (Hfate : forall t, In t (ips_of ips1 ips2 p) ->
                (up_history p t (calls_of p t (calls s)) /\
                 cnt t (faillist (get_pool p s)) = 0%nat) \/
                (down_history p t (calls_of p t (calls s)) /\
                 cnt t (faillist (get_pool p s)) = 1%nat)).
      { intros t Ht. pose proof (cnt_le_1 _ t Hnd) as Hle.
        apply cnt_In in Ht. specialize (Hcnt t).
        destruct (Nat.eq_dec (cnt t ups) 0) as [E0|E0].
        - right. split; [|lia]. apply Hdown. apply cnt_In. lia.
        - left. split; [|lia]. apply Hup. apply cnt_In. lia. }
      split; [exact Hq|].
      split; [now apply (final_unfinished ips1 ips2)|].
      split; [exact Hw|].
      split; [|split; [exact Hsub|]].
      * intros t Ht. apply history_shape.
        destruct (Hfate t Ht) as [[H _]|[H _]]; [now left | now right].
      * apply NoDup_Permutation.
        -- apply (NoDup_count_occ target_eq_dec). intros x.
           pose proof (cnt_le_1 _ x Hnd). specialize (Hcnt x).
           unfold cnt in *. lia.
        -- now apply NoDup_filter.
        -- intros t. rewrite filter_In. split.
           ++ intros Ht.
              assert (Hi : In t (ips_of ips1 ips2 p)).
              { apply cnt_In. apply cnt_In in Ht. specialize (Hcnt t). lia. }
              split; [exact Hi|].
              destruct (Hfate t Hi) as [[_ Hc]|[Hd _]].
              ** apply cnt_In in Ht. lia.
              ** now apply down_history_down.
           ++ intros [Hi Hd].
              destruct (Hfate t Hi) as [[Hu _]|[_ Hc]].
              ** rewrite (up_history_not_down _ _ _ Hu) in Hd. discriminate.
              ** apply cnt_In. lia.
Qed.

(** C8: the sweep has a result only when the main thread is past both
    joins, and never before (until then the outcome is "still running").
    At that point each queue is empty with no unfinished task and every
    worker waits in [q.get()], so no probe is in flight; every enumerated
    target was probed by exactly one worker, its attempts numbered without
    repetition; and each failure list is, up to order, exactly the
    enumerated targets whose three attempts all failed: no append was lost
    and none was made twice.  Wherever the schedule has left the sweep, it
    can be continued to that point: the barrier is always reached. *)
Theorem C8_drain_barrier (cidr1 cidr2 : string) (skip : pyval)
        (out : list line) (sched : list tid) (ips1 ips2 : list target) :
  enumerate_ips cidr1 skip = inr ips1 ->
  enumerate_ips cidr2 skip = inr ips2 ->
  let s := run get_returncode sched (initial_state out ips1 ips2) in
  let X := initiate_ping_queues get_returncode cidr1 cidr2 skip out sched in
  (main_pc s <> [] -> fst X = Running) /\
  (main_pc s = [] ->
     (exists r, fst X = Returned r /\
                failed_ips1 r = faillist (pool1 s) /\
                failed_ips2 r = faillist (pool2 s)) /\
     forall p,
       queue (get_pool p s) = [] /\
       unfinished_tasks (get_pool p s) = 0%nat /\
       (forall i w, nth_error (workers (get_pool p s)) i = Some w -> w = WGet) /\
       (forall t, In t (ips_of ips1 ips2 p) ->
          exists i n, (1 <= n <= 3)%nat /\
            map c_attempt (calls_of p t (calls s)) = attempts_desc n /\
            Forall (fun c => c_worker c = i /\ c_pool c = p /\ c_ip c = t)
                   (calls_of p t (calls s))) /\
       (forall c, In c (calls s) -> c_pool c = p ->
                  In (c_ip c) (ips_of ips1 ips2 p)) /\
       Permutation (faillist (get_pool p s))
                   (filter (down_in_log p (calls s)) (ips_of ips1 ips2 p))) /\
  (exists sched' r,
      fst (initiate_ping_queues get_returncode cidr1 cidr2 skip out
             (sched ++ sched')) = Returned r).
Proof.
  intros E1 E2 s X.
  pose proof (drain_barrier_state cidr1 cidr2 skip out sched ips1 ips2 E1 E2)
    as [H1 H2].
  split; [exact H1|]. split; [exact H2|].
  now apply sweep_can_return with (ips1 := ips1) (ips2 := ips2).
Qed.

End Barrier.

(* ================================================================== *)
(** * [main]: options, rejected ranges, the skip value                 *)
(* ================================================================== *)

Section MainFacts.

Variable get_returncode : nat -> target -> Z.

Lemma last3_cons (c : ascii) (s : string) :
  (3 <= String.length s)%nat -> PyStr.last3 (String c s) = PyStr.last3 s.
Proof.
  intros H. unfold PyStr.last3. cbn [String.length].
  replace (S (String.length s) - 3)%nat with (S (String.length s - 3)) by lia.
  reflexivity.
Qed.

Lemma last3_suffix (s : string) :
  PyStr.last3 s = "/24" -> exists pre, s = (pre ++ "/24")%string.
Proof.
  induction s as [|c s IH]; intros H.
  - discriminate.
  - destruct (le_lt_dec 3 (String.length s)) as [Hl|Hl].
    + rewrite last3_cons in H by exact Hl.
      destruct (IH H) as [pre Hpre]. exists (String c pre).
      rewrite Hpre. reflexivity.
    + exists ""%string.
      destruct s as [|c1 [|c2 [|c3 s]]]; cbn in H; try exact H; try discriminate.
      cbn in Hl. lia.
Qed.

Lemma split_nonempty (sep : ascii) (s : string) : PyStr.split sep s <> [].
Proof.
  induction s as [|c r IH]; simpl; [discriminate|].
  destruct (Ascii.eqb c sep); [discriminate|].
  destruct (PyStr.split sep r); [contradiction | discriminate].
Qed.

Lemma split_snoc (sep : ascii) (pre t : string) :
  free_of sep t = true ->
  PyStr.split sep (pre ++ String sep t)%string = PyStr.split sep pre ++ [t].
Proof.
  intros Ht. induction pre as [|c r IH]; cbn [append PyStr.split].
  - rewrite Ascii.eqb_refl, (split_free _ _ Ht). reflexivity.
  - rewrite IH. destruct (Ascii.eqb c sep); [reflexivity|].
    pose proof (split_nonempty sep r) as Hne.
    destruct (PyStr.split sep r); [contradiction | reflexivity].
Qed.

(** A specification that ends in "/24" and is accepted is a /24. *)
Lemma suffix24_prefixlen (cidr : string) (net : IPAddress.IPv4Network) :
  PyStr.last3 cidr = "/24" -> IPAddress.parse_network cidr = Some net ->
  IPAddress.prefixlen net = 24.
Proof.
  intros Hs Hp. destruct (last3_suffix _ Hs) as [pre Hpre]. subst cidr.
  unfold IPAddress.parse_network in Hp.
  change (pre ++ "/24")%string with (pre ++ String "/" "24")%string in Hp.
  rewrite split_snoc in Hp by reflexivity.
  pose proof (split_nonempty "/" pre) as Hne.
  destruct (PyStr.split "/" pre) as [|addr [|x l]]; [contradiction | |].
  - cbn [app] in Hp.
    destruct (IPAddress.ip_int_from_string addr) as [a|]; [|discriminate].
    change (IPAddress.make_netmask "24") with (Some 24) in Hp.
    cbv iota beta in Hp.
    destruct (Z.land a (IPAddress.ip_int_from_prefix 24) =? a); [|discriminate].
    apply (f_equal (option_map IPAddress.prefixlen)) in Hp.
    cbn in Hp. congruence.
  - cbn [app] in Hp. destruct l; discriminate.
Qed.

Lemma valid24_length (cidr : string) (net : IPAddress.IPv4Network) :
  valid24 cidr net -> List.length (IPAddress.iter net) = 256%nat.
Proof.
  intros Hv. pose proof (parse_network_strict _ _ Hv) as Hs.
  destruct Hv as [_ H24]. destruct net as [a p].
  cbn [IPAddress.prefixlen IPAddress.network_address] in *. subst p.
  rewrite (net24_iter a Hs). apply zrange_length.
Qed.

Lemma read_opts_cidrs (opts : list (string * string)) :
  forall cidr1 cidr2 skip out c1 c2 sk,
  read_opts opts cidr1 cidr2 skip = (out, Returned (c1, c2, sk)) ->
  PyStr.last3 cidr1 = "/24" -> PyStr.last3 cidr2 = "/24" ->
  PyStr.last3 c1 = "/24" /\ PyStr.last3 c2 = "/24".
Proof.
  induction opts as [|[opt arg] rest IH];
    intros cidr1 cidr2 skip out c1 c2 sk H H1 H2; cbn [read_opts] in H.
  - inversion H; subst. now split.
  - destruct (opt =? "-h")%string; [discriminate|].
    destruct (PyStr.contains opt "--cidr1").
    + destruct (PyStr.last3 arg =? "/24")%string eqn:E;
        cbn [negb] in H; [|discriminate].
      apply String.eqb_eq in E. now apply (IH _ _ _ _ _ _ _ H).
    + destruct (PyStr.contains opt "--cidr2").
      * destruct (PyStr.last3 arg =? "/24")%string eqn:E;
          cbn [negb] in H; [|discriminate].
        apply String.eqb_eq in E. now apply (IH _ _ _ _ _ _ _ H).
      * destruct (PyStr.contains opt "--skip"); [|discriminate].
        destruct (PyStr.int_of_str arg) as [v|]; [|discriminate].
        destruct ((0 <=? v) && (v <=? 255)); [|discriminate].
        now apply (IH _ _ _ _ _ _ _ H).
Qed.

Lemma read_opts_not_running (opts : list (string * string)) :
  forall cidr1 cidr2 skip out,
  read_opts opts cidr1 cidr2 skip <> (out, Running).
Proof.
  induction opts as [|[opt arg] rest IH]; intros cidr1 cidr2 skip out;
    cbn [read_opts].
  - discriminate.
  - destruct (opt =? "-h")%string; [discriminate|].
    destruct (PyStr.contains opt "--cidr1").
    + destruct (negb (PyStr.last3 arg =? "/24")%string);
        [discriminate | apply IH].
    + destruct (PyStr.contains opt "--cidr2").
      * destruct (negb (PyStr.last3 arg =? "/24")%string);
          [discriminate | apply IH].
      * destruct (PyStr.contains opt "--skip"); [|discriminate].
        destruct (PyStr.int_of_str arg) as [v|]; [|discriminate].
        destruct ((0 <=? v) && (v <=? 255)); [apply IH | discriminate].
Qed.

(** What [initiate_ping_queues] does with two specifications ending in
    "/24": it starts the sweep on two /24 ranges or raises [ValueError]
    before any thread is started. *)
Lemma initiate_started_or_rejected (cidr1 cidr2 : string) (skip : pyval)
      (out : list line) (sched : list tid) :
  PyStr.last3 cidr1 = "/24" -> PyStr.last3 cidr2 = "/24" ->
  let X := initiate_ping_queues get_returncode cidr1 cidr2 skip out sched in
  (sweep_started (fst X) /\
   exists net1 net2, valid24 cidr1 net1 /\ valid24 cidr2 net2) \/
  (X = (Raised ValueError, mkEffects out [] 0) /\
   ~ (denotes_256 cidr1 /\ denotes_256 cidr2)).
Proof.
  intros H1 H2 X. subst X. unfold initiate_ping_queues.
  rewrite !enumerate_ips_spec.
  destruct (IPAddress.parse_network cidr1) as [net1|] eqn:E1.
  - destruct (IPAddress.parse_network cidr2) as [net2|] eqn:E2.
    + left. split.
      * destruct (main_pc _); [|exact I].
        destruct (print_results _ _ _ _). exact I.
      * exists net1, net2.
        split; [split; [exact E1 | exact (suffix24_prefixlen _ _ H1 E1)]
               | split; [exact E2 | exact (suffix24_prefixlen _ _ H2 E2)]].
    + right. split; [reflexivity|].
      intros [_ [net [Hn _]]]. congruence.
  - right. split; [reflexivity|].
    intros [[net [Hn _]] _]. congruence.
Qed.

(** C7: whatever options [main] is given, either the sweep is started,
    and then both ranges it runs on are accepted specifications of exactly
    256 addresses, or the run is rejected by [sys.exit] or an exception with
    no worker started and no probe issued.  In particular a range whose
    final specification does not denote a 256-address block makes [main]
    raise [ValueError] before any worker starts, and a single range option
    that does not denote such a block is always rejected. *)
Theorem C7_invalid_range_rejected (opts : list (string * string))
        (sched : list tid) :
  let X := main get_returncode (GetoptOk opts) sched in
  ((sweep_started (fst X) /\
    exists out cidr1 cidr2 skip,
      read_opts opts "192.168.1.0/24" "192.168.2.0/24" (PStr "")
      = (out, Returned (cidr1, cidr2, skip)) /\
      denotes_256 cidr1 /\ denotes_256 cidr2) \/
   rejected X) /\
  (forall out cidr1 cidr2 skip,
      read_opts opts "192.168.1.0/24" "192.168.2.0/24" (PStr "")
      = (out, Returned (cidr1, cidr2, skip)) ->
      ~ (denotes_256 cidr1 /\ denotes_256 cidr2) ->
      fst X = Raised ValueError /\ rejected X) /\
  (forall arg, ~ denotes_256 arg ->
      rejected (main get_returncode (GetoptOk [("--cidr1", arg)]) sched) /\
      rejected (main get_returncode (GetoptOk [("--cidr2", arg)]) sched)).
Proof.
  assert (Hgen : forall opts0,
    let X := main get_returncode (GetoptOk opts0) sched in
    ((sweep_started (fst X) /\
      exists out cidr1 cidr2 skip,
        read_opts opts0 "192.168.1.0/24" "192.168.2.0/24" (PStr "")
        = (out, Returned (cidr1, cidr2, skip)) /\
        denotes_256 cidr1 /\ denotes_256 cidr2) \/
     rejected X) /\
    (forall out cidr1 cidr2 skip,
        read_opts opts0 "192.168.1.0/24" "192.168.2.0/24" (PStr "")
        = (out, Returned (cidr1, cidr2, skip)) ->
        ~ (denotes_256 cidr1 /\ denotes_256 cidr2) ->
        fst X = Raised ValueError /\ rejected X)).
  { intros opts0 X. subst X. unfold main.
    destruct (read_opts opts0 "192.168.1.0/24" "192.168.2.0/24" (PStr ""))
      as [out o] eqn:Er.
    destruct o as [[[c1 c2] sk] | code | e |].
    - destruct (read_opts_cidrs _ _ _ _ _ _ _ _ Er eq_refl eq_refl) as [L1 L2].
      destruct (initiate_started_or_rejected c1 c2 sk
                  (out ++ [LBlank; LCidr1 c1; LCidr2 c2]) sched L1 L2)
        as [[Hst [n1 [n2 [V1 V2]]]] | [HX Hno]].
      + assert (D : denotes_256 c1 /\ denotes_256 c2).
        { split; [exists n1 | exists n2];
            (split; [apply V1 || apply V2 | eapply valid24_length; eassumption]). }
        split.
        * left. split; [exact Hst|]. exists out, c1, c2, sk. now split.
        * intros out' c1' c2' sk' Heq Hno. inversion Heq; subst. contradiction.
      + assert (R : rejected (initiate_ping_queues get_returncode c1 c2 sk
                                (out ++ [LBlank; LCidr1 c1; LCidr2 c2]) sched)).
        { rewrite HX. split; [right; now exists ValueError | now split]. }
        split; [right; exact R|].
        intros out' c1' c2' sk' Heq _. inversion Heq; subst.
        split; [now rewrite HX | exact R].
    - split; [|intros; discriminate].
      right. split; [left; now exists code | now split].
    - split; [|intros; discriminate].
      right. split; [right; now exists e | now split].
    - exfalso. now apply (read_opts_not_running _ _ _ _ _ Er). }
  intros X. split; [apply (Hgen opts)|]. split; [apply (Hgen opts)|].
  intros arg Hno.
  assert (Hone : forall opt, opt = "--cidr1" \/ opt = "--cidr2" ->
            rejected (main get_returncode (GetoptOk [(opt, arg)]) sched)).
  { intros opt Hopt.
    destruct (Hgen [(opt, arg)]) as [[[Hst [out [c1 [c2 [sk [Hr [D1 D2]]]]]]] | R] _];
      [|exact R].
    exfalso.
    destruct Hopt as [-> | ->]; cbn [read_opts] in Hr;
      change ("--cidr1" =? "-h")%string with false in Hr;
      change ("--cidr2" =? "-h")%string with false in Hr;
      change (PyStr.contains "--cidr1" "--cidr1") with true in Hr;
      change (PyStr.contains "--cidr2" "--cidr1") with false in Hr;
      change (PyStr.contains "--cidr2" "--cidr2") with true in Hr;
      cbv iota in Hr;
      destruct (negb (PyStr.last3 arg =? "/24")%string); try discriminate;
      inversion Hr; subst; contradiction. }
  split; apply Hone; auto.
Qed.

End MainFacts.

Section SkipOption.

Variable get_returncode : nat -> target -> Z.

Lemma read_opts_skip (arg : string) (rest : list (string * string))
      (cidr1 cidr2 : string) (skip : pyval) :
  read_opts (("--skip", arg) :: rest) cidr1 cidr2 skip
  = match PyStr.int_of_str arg with
    | None => ([LSkipInvalid], SysExit None)
    | Some v =>
        if (0 <=? v) && (v <=? 255)
        then read_opts rest cidr1 cidr2 (PInt v)
        else ([], Raised AssertionError)
    end.
Proof. reflexivity. Qed.

Lemma is_space_ascii (c : ascii) :
  PyStr.is_space c = true -> (nat_of_ascii c <? 128)%nat = true.
Proof.
  unfold PyStr.is_space. intros H. apply Nat.ltb_lt.
  apply orb_true_iff in H. destruct H as [H|H].
  - apply andb_true_iff in H. destruct H as [_ H]. apply Nat.leb_le in H. lia.
  - apply Nat.eqb_eq in H. lia.
Qed.

Lemma is_digit_ascii (c : ascii) :
  PyStr.is_digit c = true -> (nat_of_ascii c <? 128)%nat = true.
Proof.
  unfold PyStr.is_digit. intros H. apply Nat.ltb_lt.
  apply andb_true_iff in H. destruct H as [_ H]. apply Nat.leb_le in H. lia.
Qed.

Lemma is_ascii_cons (c : ascii) (s : string) :
  PyStr.is_ascii (String c s)
  = ((nat_of_ascii c <? 128)%nat && PyStr.is_ascii s).
Proof. reflexivity. Qed.

Lemma lstrip_ascii (s : string) :
  PyStr.is_ascii (PyStr.lstrip s) = true -> PyStr.is_ascii s = true.
Proof.
  induction s as [|c r IH]; [trivial|].
  cbn [PyStr.lstrip]. destruct (PyStr.is_space c) eqn:E; [|trivial].
  intros H. rewrite is_ascii_cons, (is_space_ascii c E). now apply IH.
Qed.

Lemma rstrip_ascii (s : string) :
  PyStr.is_ascii (PyStr.rstrip s) = true -> PyStr.is_ascii s = true.
Proof.
  induction s as [|c r IH]; [trivial|].
  cbn [PyStr.rstrip]. destruct (PyStr.rstrip r) as [|d r'] eqn:Er.
  - intros H. rewrite is_ascii_cons, (IH eq_refl), andb_true_r.
    destruct (PyStr.is_space c) eqn:E; [now apply is_space_ascii|].
    rewrite is_ascii_cons in H. now apply andb_true_iff in H.
  - rewrite !(is_ascii_cons c). intros H.
    apply andb_true_iff in H. destruct H as [Hc Hr].
    now rewrite Hc, (IH Hr).
Qed.

Lemma int_digits_ascii (s : string) :
  forall prev acc v, PyStr.int_digits prev acc s = Some v ->
                     PyStr.is_ascii s = true.
Proof.
  induction s as [|c r IH]; intros prev acc v H; [reflexivity|].
  cbn [PyStr.int_digits] in H. rewrite is_ascii_cons.
  destruct (PyStr.is_digit c) eqn:Ed.
  - rewrite (is_digit_ascii c Ed). exact (IH _ _ _ H).
  - destruct (Ascii.eqb c "_") eqn:Eu; [|discriminate H].
    apply Ascii.eqb_eq in Eu. subst c.
    destruct prev; [|discriminate H].
    destruct r as [|d r']; [discriminate H|].
    destruct (PyStr.is_digit d); [|discriminate H].
    exact (IH _ _ _ H).
Qed.

Lemma int_body_ascii (t : string) (v : Z) :
  PyStr.int_body t = Some v -> PyStr.is_ascii t = true.
Proof.
  unfold PyStr.int_body.
  destruct (PyStr.int_digits false 0 t) as [w|] eqn:E; [|discriminate].
  intros _. exact (int_digits_ascii _ _ _ _ E).
Qed.

(** Whatever [int_of_str] accepts is an ASCII string. *)
Lemma int_of_str_ascii (s : string) (v : Z) :
  PyStr.int_of_str s = Some v -> PyStr.is_ascii s = true.
Proof.
  unfold PyStr.int_of_str. intros H. apply lstrip_ascii, rstrip_ascii.
  destruct (PyStr.rstrip (PyStr.lstrip s)) as [|c r];
    [exact (int_body_ascii _ _ H)|].
  destruct (Ascii.eqb c "+") eqn:Ep.
  - apply Ascii.eqb_eq in Ep. subst c.
    rewrite is_ascii_cons. exact (int_body_ascii _ _ H).
  - destruct (Ascii.eqb c "-") eqn:Em.
    + apply Ascii.eqb_eq in Em. subst c. rewrite is_ascii_cons.
      destruct (PyStr.int_body r) as [w|] eqn:E; [|discriminate H].
      exact (int_body_ascii _ _ E).
    + apply (int_body_ascii _ v).
      destruct c as [[] [] [] [] [] [] [] []]; try exact H;
        discriminate.
Qed.

(** C6, what the code does: a [--skip] value that [int] accepts but that
    lies outside [0,255] makes the [assert] fail, and the [AssertionError]
    is not caught by [except ValueError or AssertionError] (which catches
    [ValueError] only): [main] ends with an uncaught [AssertionError],
    nothing printed, before any probing.  The message and clean exit that
    the handler holds are reached only for a value that is not an
    integer.  The values in question are ASCII spellings of an integer
    ([int_of_str_ascii]), on which [int_of_str] is [int]: whitespace of C's
    [isspace] around the number, one sign, digits with single underscores
    between them, at most 4300 digits. *)
Theorem C6_skip_out_of_range_raises (arg : string) (v : Z)
        (rest : list (string * string)) (sched : list tid) :
  PyStr.int_of_str arg = Some v -> ~ (0 <= v <= 255) ->
  main get_returncode (GetoptOk (("--skip", arg) :: rest)) sched
  = (Raised AssertionError, mkEffects [] [] 0).
Proof.
  intros Hint Hv. unfold main. rewrite read_opts_skip, Hint.
  replace ((0 <=? v) && (v <=? 255)) with false; [reflexivity|].
  symmetry. apply andb_false_iff.
  destruct (Z.leb_spec 0 v); [right | now left].
  apply Z.leb_gt. lia.
Qed.

(** The sibling path: an ASCII [--skip] value that is not an integer
    prints the message and exits. *)
Lemma skip_not_an_integer (arg : string) (rest : list (string * string))
      (sched : list tid) :
  PyStr.is_ascii arg = true -> PyStr.int_of_str arg = None ->
  main get_returncode (GetoptOk (("--skip", arg) :: rest)) sched
  = (SysExit None, mkEffects [LSkipInvalid] [] 0).
Proof.
  intros _ Hint. unfold main. now rewrite read_opts_skip, Hint.
Qed.

End SkipOption.

Lemma C6_skip_out_of_range_raises_witness :
  PyStr.int_of_str "300" = Some 300 /\ ~ (0 <= 300 <= 255) /\
  main (always 0) (GetoptOk [("--skip", "300")]) []
  = (Raised AssertionError, mkEffects [] [] 0).
Proof.
  assert (H1 : PyStr.int_of_str "300" = Some 300) by reflexivity.
  assert (H2 : ~ (0 <= 300 <= 255)) by lia.
  split; [exact H1|]. split; [exact H2|].
  exact (C6_skip_out_of_range_raises (always 0) "300" 300 [] [] H1 H2).
Defined.

Lemma skip_sweep_returns :
  exists r,
    initiate_ping_queues (always 1) "10.0.0.0/30" "10.0.1.0/30"
      (PInt 2) [] (one_worker_schedule 2 2)
    = (Returned r, snd skip_sweep).
Proof. eexists. vm_compute. reflexivity. Qed.

Lemma C5_excluded_offset_witness :
  exists r, fst skip_sweep = Returned r /\
            ~ In 2 (map fst (failed_ips1 r)) /\
            ~ In 2 (failed_ips_common_octets r) /\
            List.length (failed_ips1 r) = 2%nat.
Proof.
  destruct skip_sweep_returns as [r HX]. exists r.
  split; [unfold skip_sweep at 1; now rewrite HX|].
  destruct (C5_excluded_offset (always 1) _ _ _ _ _ _ _ HX)
    as [H1 [_ [_ [_ [H5 _]]]]].
  split; [exact H1|]. split; [exact H5|].
  assert (Hr : Returned r = fst skip_sweep)
    by (unfold skip_sweep at 1; now rewrite HX).
  assert (Hl : match fst skip_sweep with
               | Returned r0 => List.length (failed_ips1 r0) = 2%nat
               | _ => True
               end) by (vm_compute; reflexivity).
  rewrite <- Hr in Hl. exact Hl.
Defined.

Lemma all_down_sweep_returns :
  exists r,
    initiate_ping_queues (always 1) "192.168.1.0/24" "192.168.2.0/24"
      (PStr "") [LBlank; LCidr1 "192.168.1.0/24"; LCidr2 "192.168.2.0/24"]
      (one_worker_schedule 255 255)
    = (Returned r, snd all_down_run).
Proof. eexists. vm_compute. reflexivity. Qed.

Lemma C9_failure_entries_witness :
  exists r, fst all_down_run = Returned r /\
    forall o addr, In (o, addr) (failed_ips1 r) ->
      final_octet_of addr = inr o /\ 1 <= o <= 255 /\
      addr = dotted default_net1 o.
Proof.
  destruct all_down_sweep_returns as [r HX]. exists r.
  split.
  - unfold all_down_run at 1. rewrite main_no_options, HX. reflexivity.
  - intros o addr Hin.
    destruct default_valid24 as [V1 V2].
    destruct (C9_failure_entries (always 1) _ _ _ _ _ _ _ _ _ V1 V2 HX
                P1 o addr Hin) as [_ [H2 [H3 [H4 _]]]].
    auto.
Defined.

Lemma C8_drain_barrier_witness :
  enumerate_ips "10.0.0.0/30" (PStr "") = inr demo_ips1 /\
  enumerate_ips "10.0.1.0/30" (PStr "") = inr demo_ips2 /\
  main_pc (run (first_fail 4) (one_worker_schedule 3 3)
               (initial_state [] demo_ips1 demo_ips2)) = [] /\
  Permutation
    (faillist (pool1 (run (first_fail 4) (one_worker_schedule 3 3)
                          (initial_state [] demo_ips1 demo_ips2))))
    (filter (down_in_log P1
               (calls (run (first_fail 4) (one_worker_schedule 3 3)
                           (initial_state [] demo_ips1 demo_ips2))))
            demo_ips1).
Proof.
  destruct demo_enumerate as [E1 E2].
  assert (Hm : main_pc (run (first_fail 4) (one_worker_schedule 3 3)
                            (initial_state [] demo_ips1 demo_ips2)) = [])
    by (vm_compute; reflexivity).
  split; [exact E1|]. split; [exact E2|]. split; [exact Hm|].
  destruct (C8_drain_barrier (first_fail 4) _ _ _ [] (one_worker_schedule 3 3)
              _ _ E1 E2) as [_ [Hfin _]].
  destruct (Hfin Hm) as [_ Hp].
  destruct (Hp P1) as [_ [_ [_ [_ [_ Hperm]]]]].
  exact Hperm.
Defined.

(* ================================================================== *)
(** * [print_results]: what the three sequences depend on              *)
(* ================================================================== *)

Section ClassificationFacts.

(** Two ascending lists with the same elements, each as often, are
    equal. *)
Lemma sorted_perm_eq (l l' : list Z) :
  Sorted Z.le l -> Sorted Z.le l' -> Permutation l l' -> l = l'.
Proof.
  intros Hl Hl'.
  apply Sorted_StronglySorted in Hl; [|intros x y z; apply Z.le_trans].
  apply Sorted_StronglySorted in Hl'; [|intros x y z; apply Z.le_trans].
  revert l' Hl'.
  induction Hl as [|x r Hr IH Hx]; intros l' Hl' HP.
  - apply Permutation_nil in HP. now subst.
  - destruct Hl' as [|y r' Hr' Hy].
    + apply Permutation_sym, Permutation_nil in HP. discriminate.
    + assert (Exy : x = y).
      { assert (Hxin : In x (y :: r')).
        { eapply Permutation_in; [exact HP | now left]. }
        assert (Hyin : In y (x :: r)).
        { eapply Permutation_in; [apply Permutation_sym; exact HP | now left]. }
        rewrite Forall_forall in Hx, Hy.
        destruct Hxin as [E | Hxin]; [now subst|].
        destruct Hyin as [E | Hyin]; [now subst|].
        specialize (Hx _ Hyin). specialize (Hy _ Hxin). lia. }
      subst y. f_equal. apply IH; [exact Hr'|].
      eapply Permutation_cons_inv; exact HP.
Qed.

Lemma sort_perm_eq (l l' : list Z) : Permutation l l' -> sort l = sort l'.
Proof.
  intros HP. apply sorted_perm_eq; try apply sort_sorted.
  eapply perm_trans; [apply Permutation_sym, sort_perm|].
  eapply perm_trans; [exact HP | apply sort_perm].
Qed.

Lemma filter_perm {A : Type} (f : A -> bool) (l l' : list A) :
  Permutation l l' -> Permutation (filter f l) (filter f l').
Proof.
  induction 1 as [|x l l' _ IH|x y l|l l' l'' _ IH1 _ IH2]; simpl.
  - constructor.
  - destruct (f x); [now constructor | exact IH].
  - destruct (f x), (f y); try apply Permutation_refl. apply perm_swap.
  - eapply perm_trans; eassumption.
Qed.

Lemma octet_in_perm (o : Z) (l l' : list Z) :
  Permutation l l' -> octet_in o l = octet_in o l'.
Proof.
  intros HP.
  destruct (octet_in o l) eqn:E; symmetry.
  - apply octet_in_In. apply octet_in_In in E.
    eapply Permutation_in; eassumption.
  - apply octet_in_not_In. apply octet_in_not_In in E.
    intros Hin. apply E.
    eapply Permutation_in; [apply Permutation_sym|]; eassumption.
Qed.

Lemma filter_ext_perm (f g : Z -> bool) (l l' : list Z) :
  (forall o, f o = g o) -> Permutation l l' ->
  Permutation (filter f l) (filter g l').
Proof.
  intros Hfg HP. rewrite (filter_ext f g Hfg). now apply filter_perm.
Qed.

(** The three sequences of two pairs of failure lists with the same
    offsets, each as often. *)
Lemma derived_perm (cidr1 cidr2 cidr1' cidr2' : string)
      (f1 f2 f1' f2' : list target) :
  Permutation (map fst f1) (map fst f1') ->
  Permutation (map fst f2) (map fst f2') ->
  derived (snd (print_results cidr1 f1 cidr2 f2))
  = derived (snd (print_results cidr1' f1' cidr2' f2')).
Proof.
  intros H1 H2. rewrite !print_results_result. unfold derived.
  cbn [failed_ips1_excl_octets failed_ips2_excl_octets failed_ips_common_octets].
  f_equal; [f_equal|]; apply sort_perm_eq, filter_ext_perm; trivial;
    intros o; rewrite ?(octet_in_perm o _ _ H1), ?(octet_in_perm o _ _ H2);
    reflexivity.
Qed.

(** A list is, up to order, what a test keeps and what it drops. *)
Lemma filter_partition {A : Type} (f : A -> bool) (l : list A) :
  Permutation (filter (fun x => negb (f x)) l ++ filter f l) l.
Proof.
  induction l as [|x l IH]; simpl; [constructor|].
  destruct (f x); simpl.
  - apply Permutation_sym, Permutation_cons_app, Permutation_sym, IH.
  - now constructor.
Qed.

Lemma sorted_nodup_lt (l : list Z) :
  Sorted Z.le l -> NoDup l -> Sorted Z.lt l.
Proof.
  intros Hs Hn.
  apply Sorted_StronglySorted in Hs; [|intros x y z; apply Z.le_trans].
  induction Hs as [|x r Hr IH Hx]; [constructor|].
  inversion Hn as [|? ? Hnotin Hn']; subst.
  constructor; [now apply IH|].
  destruct r as [|y r']; constructor.
  rewrite Forall_forall in Hx. specialize (Hx y (or_introl eq_refl)).
  assert (x <> y) by (intros ->; apply Hnotin; now left). lia.
Qed.

Lemma sort_nodup (l : list Z) : NoDup l -> NoDup (sort l).
Proof. intros H. eapply Permutation_NoDup; [apply sort_perm | exact H]. Qed.

(** The offsets common to two lists without repetition, taken from either
    side. *)
Lemma common_sym (A B : list Z) :
  NoDup A -> NoDup B ->
  Permutation (filter (fun o => octet_in o B) A) (filter (fun o => octet_in o A) B).
Proof.
  intros HA HB. apply NoDup_Permutation; try now apply NoDup_filter.
  intros o. rewrite !filter_In, !octet_in_In. tauto.
Qed.

End ClassificationFacts.

(** X1: the three derived sequences of [print_results] depend only on
    which offsets each failure list holds and how often: two pairs of
    failure lists whose offsets are the same up to order give the same three
    sequences, whatever the order in which the workers appended the entries,
    whatever the addresses and whatever the two range strings. *)
Theorem print_results_order_independent
        (cidr1 cidr2 cidr1' cidr2' : string) (f1 f2 f1' f2' : list target) :
  Permutation (map fst f1) (map fst f1') ->
  Permutation (map fst f2) (map fst f2') ->
  derived (snd (print_results cidr1 f1 cidr2 f2))
  = derived (snd (print_results cidr1' f1' cidr2' f2')).
Proof. apply derived_perm. Qed.

Lemma print_results_order_independent_witness :
  Permutation (map fst [(9, "1.1.1.9"); (3, "1.1.1.3"); (7, "1.1.1.7")])
              (map fst [(7, "1.1.1.7"); (9, "1.1.1.9"); (3, "1.1.1.3")]) /\
  Permutation (map fst [(7, "2.2.2.7"); (4, "2.2.2.4")])
              (map fst [(4, "2.2.2.4"); (7, "2.2.2.7")]) /\
  derived (snd (print_results "a" [(9, "1.1.1.9"); (3, "1.1.1.3"); (7, "1.1.1.7")]
                              "b" [(7, "2.2.2.7"); (4, "2.2.2.4")]))
  = derived (snd (print_results "a" [(7, "1.1.1.7"); (9, "1.1.1.9"); (3, "1.1.1.3")]
                                "b" [(4, "2.2.2.4"); (7, "2.2.2.7")])).
Proof.
  assert (H1 : Permutation (map fst [(9, "1.1.1.9"); (3, "1.1.1.3"); (7, "1.1.1.7")])
                           (map fst [(7, "1.1.1.7"); (9, "1.1.1.9"); (3, "1.1.1.3")])).
  { cbn [map fst]. apply Permutation_sym. apply (Permutation_cons_app [9; 3] []).
    apply Permutation_refl. }
  assert (H2 : Permutation (map fst [(7, "2.2.2.7"); (4, "2.2.2.4")])
                           (map fst [(4, "2.2.2.4"); (7, "2.2.2.7")])).
  { cbn [map fst]. apply perm_swap. }
  split; [exact H1 | split; [exact H2|]].
  exact (print_results_order_independent "a" "b" "a" "b" _ _ _ _ H1 H2).
Defined.

(** X2: every offset of the first failure list is reported once for each
    of its entries, as exclusive to the first range or as common: the two
    sequences together are the offsets of the first list up to order.  When
    no offset is repeated within either list the same holds for the second
    list, the three sequences are strictly ascending, and exchanging the two
    ranges exchanges the two exclusive sequences and leaves the common one
    as it is. *)
Theorem print_results_partition (cidr1 cidr2 : string) (f1 f2 : list target) :
  let r := snd (print_results cidr1 f1 cidr2 f2) in
  let r' := snd (print_results cidr2 f2 cidr1 f1) in
  Permutation (failed_ips1_excl_octets r ++ failed_ips_common_octets r)
              (map fst f1) /\
  failed_ips1_excl_octets r' = failed_ips2_excl_octets r /\
  failed_ips2_excl_octets r' = failed_ips1_excl_octets r /\
  (NoDup (map fst f1) -> NoDup (map fst f2) ->
     Permutation (failed_ips2_excl_octets r ++ failed_ips_common_octets r)
                 (map fst f2) /\
     failed_ips_common_octets r' = failed_ips_common_octets r /\
     Sorted Z.lt (failed_ips1_excl_octets r) /\
     Sorted Z.lt (failed_ips2_excl_octets r) /\
     Sorted Z.lt (failed_ips_common_octets r)).
Proof.
  intros r r'. subst r r'. rewrite !print_results_result.
  cbn [failed_ips1_excl_octets failed_ips2_excl_octets failed_ips_common_octets].
  set (A := map fst f1). set (B := map fst f2).
  split; [|split; [reflexivity | split; [reflexivity|]]].
  - eapply perm_trans; [|apply (filter_partition (fun o => octet_in o B) A)].
    apply Permutation_app; apply Permutation_sym, sort_perm.
  - intros HA HB.
    assert (Hc : sort (filter (fun o => octet_in o A) B)
                 = sort (filter (fun o => octet_in o B) A)).
    { apply sort_perm_eq, common_sym; assumption. }
    split; [|split; [exact Hc | split; [|split]]].
    + rewrite <- Hc.
      eapply perm_trans; [|apply (filter_partition (fun o => octet_in o A) B)].
      apply Permutation_app; apply Permutation_sym, sort_perm.
    + apply sorted_nodup_lt; [apply sort_sorted | now apply sort_nodup, NoDup_filter].
    + apply sorted_nodup_lt; [apply sort_sorted | now apply sort_nodup, NoDup_filter].
    + apply sorted_nodup_lt; [apply sort_sorted | now apply sort_nodup, NoDup_filter].
Qed.

Lemma print_results_partition_witness :
  NoDup (map fst [(9, "1.1.1.9"); (3, "1.1.1.3"); (7, "1.1.1.7")]) /\
  NoDup (map fst [(7, "2.2.2.7"); (4, "2.2.2.4")]) /\
  failed_ips_common_octets
    (snd (print_results "b" [(7, "2.2.2.7"); (4, "2.2.2.4")]
                        "a" [(9, "1.1.1.9"); (3, "1.1.1.3"); (7, "1.1.1.7")]))
  = failed_ips_common_octets
      (snd (print_results "a" [(9, "1.1.1.9"); (3, "1.1.1.3"); (7, "1.1.1.7")]
                          "b" [(7, "2.2.2.7"); (4, "2.2.2.4")])).
Proof.
  assert (H1 : NoDup (map fst [(9, "1.1.1.9"); (3, "1.1.1.3"); (7, "1.1.1.7")])).
  { cbn [map fst]. repeat constructor; cbn [In]; intros H;
      repeat (destruct H as [H|H]; [discriminate H|]); exact H. }
  assert (H2 : NoDup (map fst [(7, "2.2.2.7"); (4, "2.2.2.4")])).
  { cbn [map fst]. repeat constructor; cbn [In]; intros H;
      repeat (destruct H as [H|H]; [discriminate H|]); exact H. }
  split; [exact H1 | split; [exact H2|]].
  exact (proj1 (proj2 (proj2 (proj2 (proj2
           (print_results_partition "a" "b" _ _))) H1 H2))).
Defined.

(* ================================================================== *)
(** * The enumeration loops: the skip value and the only error         *)
(* ================================================================== *)

Section SkipValue.

Variable get_returncode : nat -> target -> Z.

(** A skip value that is a [str], or an [int] outside 1..255, drops no
    address that the test on octet 0 does not drop. *)
Lemma kept_inert (skip : pyval) (ip : Z) :
  match skip with PStr _ => True | PInt z => ~ (1 <= z <= 255) end ->
  kept skip ip = kept (PStr "") ip.
Proof.
  intros H. unfold kept. destruct skip as [s|z]; cbn [int_eq_pyval]; [reflexivity|].
  pose proof (octet_range 3 ip) as Hr.
  destruct (IPAddress.octet 3 ip =? 0) eqn:E0; [reflexivity|].
  apply Z.eqb_neq in E0.
  destruct (IPAddress.octet 3 ip =? z) eqn:Ez; [|reflexivity].
  apply Z.eqb_eq in Ez. exfalso. apply H. lia.
Qed.

Lemma enumerate_ips_inert (cidr : string) (skip : pyval) :
  match skip with PStr _ => True | PInt z => ~ (1 <= z <= 255) end ->
  enumerate_ips cidr skip = enumerate_ips cidr (PStr "").
Proof.
  intros H. rewrite !enumerate_ips_spec.
  destruct (IPAddress.parse_network cidr) as [net|]; [|reflexivity].
  apply f_equal. apply (f_equal (map target_of)).
  apply filter_ext. intros ip. now apply kept_inert.
Qed.

Lemma initiate_inert (cidr1 cidr2 : string) (skip : pyval)
      (out : list line) (sched : list tid) :
  match skip with PStr _ => True | PInt z => ~ (1 <= z <= 255) end ->
  initiate_ping_queues get_returncode cidr1 cidr2 skip out sched
  = initiate_ping_queues get_returncode cidr1 cidr2 (PStr "") out sched.
Proof.
  intros H. unfold initiate_ping_queues.
  now rewrite (enumerate_ips_inert cidr1 skip H), (enumerate_ips_inert cidr2 skip H).
Qed.

(** X3: the excluded offset is compared with an [int] final octet, and
    octet 0 is dropped anyway: a sweep given a [str] as skip value (the type
    its docstring names), or an [int] outside 1..255 (so also 0, which
    [main] accepts for [--skip]), is in every respect the sweep with nothing
    excluded, for every pair of range strings and every schedule. *)
Theorem skip_inert (cidr1 cidr2 : string) (out : list line) (sched : list tid) :
  (forall s,
     initiate_ping_queues get_returncode cidr1 cidr2 (PStr s) out sched
     = initiate_ping_queues get_returncode cidr1 cidr2 (PStr "") out sched) /\
  (forall z, ~ (1 <= z <= 255) ->
     initiate_ping_queues get_returncode cidr1 cidr2 (PInt z) out sched
     = initiate_ping_queues get_returncode cidr1 cidr2 (PStr "") out sched).
Proof.
  split.
  - intros s. now apply initiate_inert.
  - intros z Hz. now apply initiate_inert.
Qed.

(** How [initiate_ping_queues] can end before its sweep. *)
Lemma initiate_outcomes (cidr1 cidr2 : string) (skip : pyval)
      (out : list line) (sched : list tid) :
  let X := initiate_ping_queues get_returncode cidr1 cidr2 skip out sched in
  ((exists e, fst X = Raised e) <->
   IPAddress.parse_network cidr1 = None \/ IPAddress.parse_network cidr2 = None) /\
  (forall e, fst X = Raised e -> X = (Raised ValueError, mkEffects out [] 0)) /\
  (forall code, fst X <> SysExit code).
Proof.
  intros X. subst X. unfold initiate_ping_queues.
  rewrite !enumerate_ips_spec.
  destruct (IPAddress.parse_network cidr1) as [n1|].
  2:{ split; [|split].
      - split; [intros _; now left | intros _; now exists ValueError].
      - intros e _. reflexivity.
      - intros code H. discriminate H. }
  destruct (IPAddress.parse_network cidr2) as [n2|].
  2:{ split; [|split].
      - split; [intros _; now right | intros _; now exists ValueError].
      - intros e _. reflexivity.
      - intros code H. discriminate H. }
  set (s := run get_returncode sched _).
  destruct (main_pc s) as [|i pc].
  - destruct (print_results cidr1 (faillist (pool1 s)) cidr2 (faillist (pool2 s)))
      as [printed r].
    split; [|split].
    + split; [intros [e H]; discriminate H | intros [H|H]; discriminate H].
    + intros e H. discriminate H.
    + intros code H. discriminate H.
  - split; [|split].
    + split; [intros [e H]; discriminate H | intros [H|H]; discriminate H].
    + intros e H. discriminate H.
    + intros code H. discriminate H.
Qed.

(** X4: [initiate_ping_queues] raises exactly when [IPv4Network] refuses
    one of the two range strings; the exception is then [ValueError], raised
    before anything is printed, any thread started or any probe made.  The
    loops themselves never raise ([int(octets[3])] never fails on an address
    that [str] printed), and the function never exits the process. *)
Theorem sweep_raises_only_value_error (cidr1 cidr2 : string) (skip : pyval)
        (out : list line) (sched : list tid) :
  let X := initiate_ping_queues get_returncode cidr1 cidr2 skip out sched in
  ((exists e, fst X = Raised e) <->
   IPAddress.parse_network cidr1 = None \/ IPAddress.parse_network cidr2 = None) /\
  (forall e, fst X = Raised e -> X = (Raised ValueError, mkEffects out [] 0)) /\
  (forall code, fst X <> SysExit code).
Proof. apply initiate_outcomes. Qed.

End SkipValue.

Lemma skip_inert_witness :
  ~ (1 <= 0 <= 255) /\
  initiate_ping_queues (always 1) "10.0.0.0/30" "10.0.1.0/30" (PInt 0) []
    (one_worker_schedule 3 3)
  = initiate_ping_queues (always 1) "10.0.0.0/30" "10.0.1.0/30" (PStr "") []
      (one_worker_schedule 3 3).
Proof.
  assert (H : ~ (1 <= 0 <= 255)) by lia.
  split; [exact H|].
  exact (proj2 (skip_inert (always 1) "10.0.0.0/30" "10.0.1.0/30" []
                  (one_worker_schedule 3 3)) 0 H).
Defined.

Lemma sweep_raises_only_value_error_witness :
  initiate_ping_queues (always 1) "10.0.0.1/24" "10.0.1.0/24" (PStr "")
    [LBlank] (one_worker_schedule 3 3)
  = (Raised ValueError, mkEffects [LBlank] [] 0).
Proof.
  apply (proj1 (proj2 (sweep_raises_only_value_error (always 1)
                         "10.0.0.1/24" "10.0.1.0/24" (PStr "") [LBlank]
                         (one_worker_schedule 3 3))) ValueError).
  vm_compute. reflexivity.
Defined.

(* ================================================================== *)
(** * After the return; the cost of a sweep                            *)
(* ================================================================== *)

Section SweepCost.

Variable get_returncode : nat -> target -> Z.

Lemma stdout_print_lines (ls : list line) (s : state) :
  stdout (print_lines ls s) = stdout s ++ ls.
Proof.
  unfold print_lines. revert s.
  induction ls as [|l ls IH]; intros s; cbn [fold_left].
  - now rewrite app_nil_r.
  - rewrite IH. cbn [print stdout]. now rewrite <- app_assoc.
Qed.

(** The outcome and the effects of a sweep in terms of the state its
    schedule leads to. *)
Lemma initiate_effects (cidr1 cidr2 : string) (skip : pyval)
      (out : list line) (sched : list tid) (ips1 ips2 : list target) :
  enumerate_ips cidr1 skip = inr ips1 ->
  enumerate_ips cidr2 skip = inr ips2 ->
  let s := run get_returncode sched (initial_state out ips1 ips2) in
  let X := initiate_ping_queues get_returncode cidr1 cidr2 skip out sched in
  e_calls (snd X) = calls s /\
  e_threads (snd X) = (List.length (workers (pool1 s)) +
                       List.length (workers (pool2 s)))%nat /\
  (main_pc s <> [] -> fst X = Running /\ e_stdout (snd X) = stdout s) /\
  (main_pc s = [] ->
     fst X = Returned (snd (print_results cidr1 (faillist (pool1 s))
                                          cidr2 (faillist (pool2 s)))) /\
     e_stdout (snd X)
     = stdout s ++ fst (print_results cidr1 (faillist (pool1 s))
                                      cidr2 (faillist (pool2 s)))).
Proof.
  intros E1 E2 s X. subst X. unfold initiate_ping_queues.
  rewrite E1, E2. fold s.
  destruct (main_pc s) as [|i pc] eqn:Em.
  - destruct (print_results cidr1 (faillist (pool1 s)) cidr2 (faillist (pool2 s)))
      as [printed r] eqn:Ep.
    cbn [fst snd]. unfold effects_of. cbn [e_calls e_threads e_stdout].
    destruct (print_lines_fields printed s) as [_ [H1 [H2 H3]]].
    rewrite H1, H2, H3, stdout_print_lines.
    split; [reflexivity|]. split; [reflexivity|].
    split; [intros H; now contradiction H | intros _; now split].
  - cbn [fst snd]. unfold effects_of. cbn [e_calls e_threads e_stdout].
    split; [reflexivity|]. split; [reflexivity|].
    split; [intros _; now split | intros H; discriminate H].
Qed.

Lemma sweep_inv (cidr1 cidr2 : string) (skip : pyval)
      (out : list line) (sched : list tid) (ips1 ips2 : list target) :
  enumerate_ips cidr1 skip = inr ips1 ->
  enumerate_ips cidr2 skip = inr ips2 ->
  inv get_returncode ips1 ips2
      (run get_returncode sched (initial_state out ips1 ips2)) /\
  threads_ok (run get_returncode sched (initial_state out ips1 ips2)).
Proof.
  intros E1 E2. split.
  - apply inv_run;
      [eapply enumerate_ips_nodup; eassumption
      | eapply enumerate_ips_nodup; eassumption | apply inv_initial].
  - apply threads_ok_run, threads_ok_initial.
Qed.

(** Once the main thread is past both joins no thread can move. *)
Lemma run_final (ips1 ips2 : list target) (more : list tid) (s : state) :
  inv get_returncode ips1 ips2 s -> main_pc s = [] ->
  run get_returncode more s = s.
Proof.
  intros Hinv Hm. induction more as [|t more IH]; [reflexivity|].
  cbn [run].
  assert (Hnone : step get_returncode t s = None).
  { destruct t as [|p i]; cbn [step].
    - unfold step_main. now rewrite Hm.
    - pose proof (final_unfinished get_returncode ips1 ips2 p s Hinv Hm) as Hu.
      destruct Hinv as [[u1 Hi1] [[u2 Hi2] _]].
      destruct p.
      + exact (frozen get_returncode ips1 ips2 P1 i s u1 Hi1 Hu).
      + exact (frozen get_returncode ips1 ips2 P2 i s u2 Hi2 Hu). }
  rewrite Hnone. exact IH.
Qed.

End SweepCost.

(** X5: once [initiate_ping_queues] has returned nothing more happens:
    however the threads are scheduled afterwards, the result, the lines
    printed and the calls made stay what they were at the return (the
    workers, all blocked in [q.get()], never probe or print again). *)
Theorem sweep_result_stable (get_returncode : nat -> target -> Z)
        (cidr1 cidr2 : string) (skip : pyval) (out : list line)
        (sched : list tid) (r : result) (fx : effects) :
  initiate_ping_queues get_returncode cidr1 cidr2 skip out sched
  = (Returned r, fx) ->
  forall more,
    initiate_ping_queues get_returncode cidr1 cidr2 skip out (sched ++ more)
    = (Returned r, fx).
Proof.
  intros H more.
  destruct (initiate_returned _ _ _ _ _ _ _ _ H)
    as [ips1 [ips2 [E1 [E2 [Hm _]]]]].
  cbv zeta in Hm.
  destruct (sweep_inv get_returncode _ _ _ out sched _ _ E1 E2) as [Hinv _].
  unfold initiate_ping_queues in *. rewrite E1, E2 in *.
  rewrite run_app, (run_final get_returncode ips1 ips2 more _ Hinv Hm).
  exact H.
Qed.

Lemma sweep_result_stable_witness :
  exists r,
    initiate_ping_queues (always 1) "10.0.0.0/30" "10.0.1.0/30" (PInt 2) []
      (one_worker_schedule 2 2)
    = (Returned r, snd skip_sweep) /\
    initiate_ping_queues (always 1) "10.0.0.0/30" "10.0.1.0/30" (PInt 2) []
      (one_worker_schedule 2 2 ++ [TWorker P1 3; TMain; TWorker P2 0])
    = (Returned r, snd skip_sweep).
Proof.
  destruct skip_sweep_returns as [r Hr].
  exists r. split; [exact Hr|].
  exact (sweep_result_stable (always 1) _ _ _ _ _ r (snd skip_sweep) Hr
           [TWorker P1 3; TMain; TWorker P2 0]).
Defined.

Section CallCount.

Variable get_returncode : nat -> target -> Z.

Lemma cnt_one (l : list target) (x : target) :
  NoDup l -> In x l -> cnt x l = 1%nat.
Proof.
  intros Hn Hin. pose proof (cnt_le_1 l x Hn). apply cnt_In in Hin. lia.
Qed.

Lemma list_sum_cons (x : nat) (l : list nat) :
  list_sum (x :: l) = (x + list_sum l)%nat.
Proof. reflexivity. Qed.

(** One more call in the log is one more call in the history of its
    target, and in no other. *)
Lemma cell_sum_cons (p : pool_id) (ips : list target) (c : call) (r : list call) :
  list_sum (map (fun t => List.length (calls_of p t (c :: r))) ips)
  = (list_sum (map (fun t => List.length (calls_of p t r)) ips) +
     if pool_id_eqb (c_pool c) p then cnt (c_ip c) ips else 0)%nat.
Proof.
  induction ips as [|t ips IH]; cbn [map].
  - destruct (pool_id_eqb (c_pool c) p); reflexivity.
  - rewrite !list_sum_cons, IH. unfold calls_of at 1. cbn [filter]. fold (calls_of p t r).
    unfold is_call_of. rewrite cnt_cons.
    destruct (pool_id_eqb (c_pool c) p); cbn [andb].
    + destruct (target_eq_dec (c_ip c) t) as [E|E];
        destruct (target_eq_dec t (c_ip c)) as [E'|E'];
        try (exfalso; congruence); cbn [List.length]; lia.
    + lia.
Qed.

(** The log is the disjoint union of the histories of the targets. *)
Lemma calls_partition (ips1 ips2 : list target) (cs : list call) :
  NoDup ips1 -> NoDup ips2 ->
  (forall c, In c cs -> In (c_ip c) (ips_of ips1 ips2 (c_pool c))) ->
  List.length cs
  = (list_sum (map (fun t => List.length (calls_of P1 t cs)) ips1) +
     list_sum (map (fun t => List.length (calls_of P2 t cs)) ips2))%nat.
Proof.
  intros N1 N2. induction cs as [|c r IH]; intros Hsub.
  - cbn [List.length]. unfold calls_of. cbn [filter List.length].
    assert (Hz : forall l : list target,
               list_sum (map (fun _ : target => 0%nat) l) = 0%nat)
      by (induction l; simpl; auto).
    now rewrite !Hz.
  - rewrite !cell_sum_cons. cbn [List.length].
    rewrite IH by (intros c' Hc'; apply Hsub; now right).
    specialize (Hsub c (or_introl eq_refl)).
    destruct (c_pool c); cbn [pool_id_eqb ips_of] in *.
    + rewrite (cnt_one ips1 _ N1 Hsub). lia.
    + rewrite (cnt_one ips2 _ N2 Hsub). lia.
Qed.






End CallCount.


(* ================================================================== *)
(** * What the workers print                                           *)
(* ================================================================== *)

Section ProgressLines.

Variable get_returncode : nat -> target -> Z.

Lemma pending_upd (ws : list wstate) (i : nat) (w w' : wstate) :
  nth_error ws i = Some w ->
  Permutation (pending_line w ++ pending_lines (upd i w' ws))
              (pending_line w' ++ pending_lines ws).
Proof.
  revert i. induction ws as [|z ws IH]; intros [|i] H; cbn [nth_error] in H;
    try discriminate H.
  - injection H as ->. cbn [upd]. unfold pending_lines. cbn [flat_map].
    apply Permutation_app_swap_app.
  - cbn [upd]. unfold pending_lines in *. cbn [flat_map].
    eapply perm_trans; [apply Permutation_app_swap_app|].
    eapply perm_trans; [|apply Permutation_app_swap_app].
    apply Permutation_app_head. now apply IH.
Qed.

Lemma pend_worker (q : pool_id) (i : nat) (w w' : wstate) (s : state)
      (pl' : pool) :
  nth_error (workers (get_pool q s)) i = Some w ->
  workers pl' = upd i w' (workers (get_pool q s)) ->
  Permutation (pending_line w ++ pend (set_pool q pl' s))
              (pending_line w' ++ pend s).
Proof.
  intros Hi Hw. destruct q; unfold pend;
    cbn [set_pool pool1 pool2 get_pool] in *; rewrite Hw.
  - rewrite !app_assoc. apply Permutation_app_tail. now apply pending_upd.
  - eapply perm_trans; [apply Permutation_app_swap_app|].
    eapply perm_trans; [|apply Permutation_app_swap_app].
    apply Permutation_app_head. now apply pending_upd.
Qed.

Lemma pend_start (q : pool_id) (s : state) (pl' : pool) :
  workers pl' = workers (get_pool q s) ++ [WGet] ->
  pend (set_pool q pl' s) = pend s.
Proof.
  intros Hw. destruct q; unfold pend;
    cbn [set_pool pool1 pool2 get_pool] in *; rewrite Hw;
    unfold pending_lines; rewrite flat_map_app; cbn [flat_map pending_line];
    now rewrite !app_nil_r.
Qed.

Lemma pend_same (q : pool_id) (s : state) (pl' : pool) :
  workers pl' = workers (get_pool q s) ->
  pend (set_pool q pl' s) = pend s.
Proof.
  intros Hw. destruct q; unfold pend;
    cbn [set_pool pool1 pool2 get_pool] in *; now rewrite Hw.
Qed.

(** What one step does to the output, the log and the lines still to
    print: nothing; or a call is made and its line becomes due; or a due
    line is printed. *)
Lemma step_lines (t : tid) (s s' : state) :
  step get_returncode t s = Some s' ->
  (stdout s' = stdout s /\ calls s' = calls s /\
   Permutation (pend s') (pend s)) \/
  (exists c, stdout s' = stdout s /\ calls s' = c :: calls s /\
             Permutation (pend s') (line_of_call c :: pend s)) \/
  (exists L, stdout s' = stdout s ++ [L] /\ calls s' = calls s /\
             Permutation (pend s) (L :: pend s')).
Proof.
  intros Hstep. destruct t as [|q i]; cbn [step] in Hstep.
  - left. unfold step_main in Hstep.
    destruct (main_pc s) as [|[q i | q ip | q] pc]; try discriminate Hstep.
    + injection Hstep as <-.
      change (pend (set_main_pc pc ?x)) with (pend x).
      rewrite pend_start by reflexivity.
      autorewrite with state. repeat split; try reflexivity.
      destruct q; reflexivity.
    + injection Hstep as <-.
      change (pend (set_main_pc pc ?x)) with (pend x).
      rewrite pend_same by reflexivity.
      repeat split; try reflexivity; destruct q; reflexivity.
    + destruct (unfinished_tasks (get_pool q s) =? 0)%nat; [|discriminate Hstep].
      injection Hstep as <-. repeat split; reflexivity.
  - unfold ping_thread in Hstep.
    destruct (nth_error (workers (get_pool q s)) i) as [w|] eqn:Ei;
      [|discriminate Hstep].
    destruct w as [| ip a | ip a rc |].
    + destruct (queue (get_pool q s)) as [|ip q']; [discriminate Hstep|].
      injection Hstep as <-. left.
      split; [destruct q; reflexivity|]. split; [destruct q; reflexivity|].
      apply (pend_worker q i WGet (WPing ip 1) s); [exact Ei | reflexivity].
    + destruct (a <? 4).
      * injection Hstep as <-. right. left.
        exists (mkCall q i ip a (get_returncode (List.length (calls s)) ip)).
        split; [destruct q; reflexivity|]. split; [destruct q; reflexivity|].
        change (pend (add_call ?c ?x)) with (pend x).
        apply (pend_worker q i (WPing ip a) (WBranch ip a _) s); [exact Ei | reflexivity].
      * injection Hstep as <-. left.
        split; [destruct q; reflexivity|]. split; [destruct q; reflexivity|].
        apply (pend_worker q i (WPing ip a) WTaskDone s); [exact Ei | reflexivity].
    + right. right. exists (line_for ip a rc).
      assert (Hgen : forall w' pl',
                 workers pl' = upd i w' (workers (get_pool q s)) ->
                 pending_line w' = [] ->
                 Permutation (pend s)
                             (line_for ip a rc :: pend (set_pool q pl' s))).
      { intros w' pl' Hw Hnil. apply Permutation_sym.
        pose proof (pend_worker q i _ w' s pl' Ei Hw) as Hp.
        rewrite Hnil in Hp. exact Hp. }
      unfold line_for in *.
      destruct (judge rc a); injection Hstep as <-;
        (split; [destruct q; reflexivity|]); (split; [destruct q; reflexivity|]);
        change (pend (print ?l ?x)) with (pend x).
      * apply (Hgen WTaskDone); reflexivity.
      * apply (Hgen WTaskDone); reflexivity.
      * apply (Hgen (WPing ip (a + 1))); reflexivity.
    + injection Hstep as <-. left.
      split; [destruct q; reflexivity|]. split; [destruct q; reflexivity|].
      apply (pend_worker q i WTaskDone WGet s); [exact Ei | reflexivity].
Qed.

Lemma lines_inv_step (out : list line) (t : tid) (s s' : state) :
  lines_inv out s -> step get_returncode t s = Some s' -> lines_inv out s'.
Proof.
  intros [W [Hout HP]] Hstep.
  destruct (step_lines t s s' Hstep)
    as [[H1 [H2 H3]] | [[c [H1 [H2 H3]]] | [L [H1 [H2 H3]]]]].
  - exists W. rewrite H1, H2. split; [exact Hout|].
    eapply perm_trans; [apply Permutation_app_head; exact H3 | exact HP].
  - exists W. rewrite H1, H2. split; [exact Hout|]. cbn [map].
    eapply perm_trans; [apply Permutation_app_head; exact H3|].
    eapply perm_trans; [apply Permutation_sym, Permutation_middle|].
    now apply perm_skip.
  - exists (W ++ [L]). rewrite H1, H2, Hout, app_assoc. split; [reflexivity|].
    rewrite <- app_assoc. cbn [app].
    eapply perm_trans; [|exact HP].
    apply Permutation_app_head, Permutation_sym, H3.
Qed.

Lemma lines_inv_run (out : list line) (sched : list tid) (s : state) :
  lines_inv out s -> lines_inv out (run get_returncode sched s).
Proof.
  revert s. induction sched as [|t rest IH]; intros s H; cbn [run]; [exact H|].
  destruct (step get_returncode t s) as [s'|] eqn:E.
  - apply IH. now apply (lines_inv_step out t s).
  - now apply IH.
Qed.

Lemma lines_inv_initial (out : list line) (ips1 ips2 : list target) :
  lines_inv out (initial_state out ips1 ips2).
Proof.
  exists []. cbn [initial_state stdout calls]. rewrite app_nil_r.
  split; [reflexivity | apply Permutation_refl].
Qed.

Lemma idle_pend (ws : list wstate) :
  (forall i w, nth_error ws i = Some w -> w = WGet) -> pending_lines ws = [].
Proof.
  induction ws as [|z ws IH]; intros H; [reflexivity|].
  assert (Hz : z = WGet) by (apply (H 0%nat); reflexivity). subst z.
  unfold pending_lines in *. cbn [flat_map pending_line app].
  apply IH. intros i w Hi. now apply (H (S i)).
Qed.

(** The lines of a returned sweep. *)
Lemma sweep_lines (cidr1 cidr2 : string) (skip : pyval) (out : list line)
      (sched : list tid) (r : result) (fx : effects) :
  initiate_ping_queues get_returncode cidr1 cidr2 skip out sched
  = (Returned r, fx) ->
  exists W,
    e_stdout fx
    = out ++ W ++ fst (print_results cidr1 (failed_ips1 r) cidr2 (failed_ips2 r)) /\
    Permutation W (map line_of_call (e_calls fx)).
Proof.
  intros H.
  destruct (initiate_returned _ _ _ _ _ _ _ _ H)
    as [ips1 [ips2 [E1 [E2 [Hm [Hr [Hc _]]]]]]].
  cbv zeta in Hm, Hr, Hc.
  destruct (initiate_effects get_returncode _ _ _ out sched _ _ E1 E2)
    as [_ [_ [_ Hret]]].
  destruct (sweep_inv get_returncode _ _ _ out sched _ _ E1 E2) as [Hinv _].
  set (s := run get_returncode sched (initial_state out ips1 ips2)) in *.
  destruct (Hret Hm) as [_ Hout]. rewrite H in Hout. cbn [snd] in Hout.
  destruct (lines_inv_run out sched _ (lines_inv_initial out ips1 ips2))
    as [W [HW HP]].
  fold s in HW, HP.
  assert (Hpend : pend s = []).
  { unfold pend.
    destruct (final_pool get_returncode ips1 ips2 P1 s Hinv Hm) as [_ [Hw1 _]].
    destruct (final_pool get_returncode ips1 ips2 P2 s Hinv Hm) as [_ [Hw2 _]].
    cbn [get_pool] in Hw1, Hw2.
    now rewrite (idle_pend _ Hw1), (idle_pend _ Hw2). }
  rewrite Hpend, app_nil_r in HP.
  exists W. rewrite Hc. split; [|exact HP].
  rewrite Hout, HW, <- app_assoc.
  assert (E1' : failed_ips1 r = faillist (pool1 s))
    by (rewrite Hr, print_results_result; reflexivity).
  assert (E2' : failed_ips2 r = faillist (pool2 s))
    by (rewrite Hr, print_results_result; reflexivity).
  now rewrite E1', E2'.
Qed.

End ProgressLines.



Section VerdictLines.

Variable get_returncode : nat -> target -> Z.


Lemma list_sum_map_add {A : Type} (f g : A -> nat) (l : list A) :
  list_sum (map (fun x => f x + g x)%nat l)
  = (list_sum (map f l) + list_sum (map g l))%nat.
Proof.
  induction l as [|x l IH]; [reflexivity|].
  cbn [map]. rewrite !list_sum_cons, IH. lia.
Qed.

Lemma list_sum_map_ext {A : Type} (f g : A -> nat) (l : list A) :
  (forall x, In x l -> f x = g x) -> list_sum (map f l) = list_sum (map g l).
Proof.
  intros H. f_equal. apply map_ext_in. exact H.
Qed.

(** Summed over distinct targets, the occurrences in a list of such
    targets are its length. *)
Lemma sum_cnt (ips l : list target) :
  NoDup ips -> (forall x, In x l -> In x ips) ->
  list_sum (map (fun t => cnt t l) ips) = List.length l.
Proof.
  intros Hn. induction l as [|x l IH]; intros Hsub.
  - clear. induction ips as [|t ips IH']; [reflexivity|].
    cbn [map]. rewrite list_sum_cons, cnt_nil. exact IH'.
  - rewrite (list_sum_map_ext _ (fun t => (if target_eq_dec x t then 1 else 0)
                                          + cnt t l)%nat)
      by (intros t _; apply cnt_cons).
    rewrite list_sum_map_add, IH by (intros y Hy; apply Hsub; now right).
    assert (Hx : list_sum (map (fun t => if target_eq_dec x t then 1%nat else 0%nat)
                               ips) = cnt x ips).
    { clear. induction ips as [|t ips IH]; [reflexivity|].
      cbn [map]. rewrite list_sum_cons, IH, cnt_cons.
      destruct (target_eq_dec x t) as [E|E];
        destruct (target_eq_dec t x) as [E'|E']; try (exfalso; congruence);
        reflexivity. }
    rewrite Hx, (cnt_one ips x Hn (Hsub x (or_introl eq_refl))).
    reflexivity.
Qed.








End VerdictLines.


(* ================================================================== *)
(** * Hosts that answer the same way at every attempt                  *)
(* ================================================================== *)

Section Determined.

Variable get_returncode : nat -> target -> Z.

Lemma calls_of_sub (p : pool_id) (t : target) (cs : list call) (c : call) :
  In c (calls_of p t cs) -> In c cs /\ c_pool c = p /\ c_ip c = t.
Proof.
  unfold calls_of. rewrite filter_In. intros [Hin Hc]. split; [exact Hin|].
  unfold is_call_of in Hc. apply andb_true_iff in Hc. destruct Hc as [Hp Ht].
  split; [now apply pool_id_eqb_eq|].
  now destruct (target_eq_dec (c_ip c) t).
Qed.

(** X9: when each host answers the same way at every attempt (whether a
    return code is 0 depends on the target alone) the result of a returned
    sweep does not depend on the schedule: each failure list is, up to
    order, the enumerated targets that do not answer, the three derived
    sequences are those of [print_results] on these targets, and
    [get_returncode] was called once for each target that answers and three
    times for each that does not. *)
Theorem sweep_determined (up : target -> bool)
        (cidr1 cidr2 : string) (skip : pyval) (out : list line)
        (sched : list tid) (r : result) (fx : effects)
        (ips1 ips2 : list target) :
  (forall n t, (get_returncode n t =? 0) = up t) ->
  enumerate_ips cidr1 skip = inr ips1 ->
  enumerate_ips cidr2 skip = inr ips2 ->
  initiate_ping_queues get_returncode cidr1 cidr2 skip out sched
  = (Returned r, fx) ->
  Permutation (failed_ips1 r) (filter (fun t => negb (up t)) ips1) /\
  Permutation (failed_ips2 r) (filter (fun t => negb (up t)) ips2) /\
  derived r
  = derived (snd (print_results cidr1 (filter (fun t => negb (up t)) ips1)
                                cidr2 (filter (fun t => negb (up t)) ips2))) /\
  List.length (e_calls fx)
  = (List.length ips1 + List.length ips2 +
     2 * (List.length (failed_ips1 r) + List.length (failed_ips2 r)))%nat.
Proof.
  intros Hup E1 E2 H.
  pose proof (enumerate_ips_nodup _ _ _ E1) as N1.
  pose proof (enumerate_ips_nodup _ _ _ E2) as N2.
  pose proof (sweep_target_fate get_returncode _ _ _ _ _ _ _ _ _ E1 E2 H) as Hfate.
  pose proof (sweep_failed_sub get_returncode _ _ _ _ _ _ _ _ _ E1 E2 H) as Hsub.
  pose proof (sweep_calls_sub get_returncode _ _ _ _ _ _ _ _ _ E1 E2 H) as Hcs.
  pose proof (sweep_log_ok get_returncode _ _ _ _ _ _ _ H) as Hlog.
  (* the return code of a recorded call on [t] is 0 exactly when [up t] *)
  assert (Hrc : forall p t c, In c (calls_of p t (e_calls fx)) ->
                  (c_rc c =? 0) = up t).
  { intros p t c Hc. destruct (calls_of_sub _ _ _ _ Hc) as [Hin [_ Ht]].
    destruct (log_ok_In get_returncode _ _ Hlog Hin) as [n Hn].
    rewrite Hn, Ht. apply Hup. }
  (* a target is in the failure list exactly when it does not answer *)
  assert (Hmem : forall p t, In t (failed_of p r) <->
                   In t (filter (fun t => negb (up t)) (ips_of ips1 ips2 p))).
  { intros p t. rewrite filter_In, negb_true_iff. split.
    - intros Hin. destruct (Hsub p) as [_ Hs]. split; [now apply Hs|].
      destruct (Hfate p t (Hs t Hin)) as [[_ Hc] | [[i Hrun] _]].
      + apply cnt_In in Hin. lia.
      + destruct (calls_of p t (e_calls fx)) as [|c h] eqn:Eh; [contradiction|].
        destruct Hrun as [_ [Hnz _]].
        rewrite <- (Hrc p t c) by (rewrite Eh; now left).
        now apply Z.eqb_neq.
    - intros [Hin Hdown].
      destruct (Hfate p t Hin) as [[[i [n [h [_ [Eh _]]]]] _] | [_ Hc]].
      + assert (Habs : (0 =? 0) = up t).
        { apply (Hrc p t (mkCall p i t (Z.of_nat (S n)) 0)).
          rewrite Eh. now left. }
        rewrite Hdown in Habs. discriminate Habs.
      + apply cnt_In. lia. }
  assert (Hperm : forall p, Permutation (failed_of p r)
                    (filter (fun t => negb (up t)) (ips_of ips1 ips2 p))).
  { intros p. apply NoDup_Permutation.
    - apply (Hsub p).
    - apply NoDup_filter. destruct p; assumption.
    - apply Hmem. }
  pose proof (Hperm P1) as HP1. pose proof (Hperm P2) as HP2.
  cbn [failed_of ips_of] in HP1, HP2.
  split; [exact HP1 | split; [exact HP2 | split]].
  - rewrite (result_self get_returncode _ _ _ _ _ _ _ H) at 1.
    apply derived_perm; now apply Permutation_map.
  - (* one call for a target that answers, three for one that does not *)
    assert (Hlen : forall p t, In t (ips_of ips1 ips2 p) ->
               List.length (calls_of p t (e_calls fx))
               = (1 + 2 * cnt t (failed_of p r))%nat).
    { intros p t Hin.
      destruct (Hfate p t Hin) as [[[i [n [h [_ [Eh Hrun]]]]] Hc]
                                  | [[i Hrun] Hc]]; rewrite Hc.
      - destruct n as [|n].
        + destruct h; [now rewrite Eh | contradiction].
        + exfalso. destruct h as [|c h]; [contradiction|].
          destruct Hrun as [_ [Hnz _]].
          assert (Ha : (0 =? 0) = up t).
          { apply (Hrc p t (mkCall p i t (Z.of_nat (S (S n))) 0)).
            rewrite Eh. now left. }
          assert (Hb : (c_rc c =? 0) = up t).
          { apply (Hrc p t c). rewrite Eh. right. now left. }
          rewrite <- Ha in Hb. apply Z.eqb_eq in Hb. contradiction.
      - now rewrite (failed_run_length _ _ _ _ _ Hrun). }
    assert (Hsum : forall p,
               list_sum (map (fun t => List.length (calls_of p t (e_calls fx)))
                             (ips_of ips1 ips2 p))
               = (List.length (ips_of ips1 ips2 p) +
                  2 * List.length (failed_of p r))%nat).
    { intros p.
      rewrite (list_sum_map_ext _ (fun t => 1 + (cnt t (failed_of p r)
                                                 + cnt t (failed_of p r)))%nat)
        by (intros t Hin; rewrite (Hlen p t Hin); lia).
      rewrite (list_sum_map_add (fun _ => 1%nat)), list_sum_map_add.
      rewrite sum_cnt by (destruct p; try assumption; apply (Hsub _)).
      assert (Hone : forall l : list target,
                 list_sum (map (fun _ => 1%nat) l) = List.length l).
      { induction l as [|x l IH]; [reflexivity|].
        cbn [map List.length]. now rewrite list_sum_cons, IH. }
      rewrite Hone. lia. }
    rewrite (calls_partition ips1 ips2 _ N1 N2 Hcs).
    pose proof (Hsum P1) as S1. pose proof (Hsum P2) as S2.
    cbn [ips_of failed_of] in S1, S2. lia.
Qed.

End Determined.

Lemma sweep_determined_witness :
  exists r,
    (forall n t, (always 1 n t =? 0) = false) /\
    enumerate_ips "10.0.0.0/30" (PInt 2)
    = inr [(1, "10.0.0.1"); (3, "10.0.0.3")] /\
    enumerate_ips "10.0.1.0/30" (PInt 2)
    = inr [(1, "10.0.1.1"); (3, "10.0.1.3")] /\
    initiate_ping_queues (always 1) "10.0.0.0/30" "10.0.1.0/30" (PInt 2) []
      (one_worker_schedule 2 2)
    = (Returned r, snd skip_sweep) /\
    Permutation (failed_ips1 r)
                (filter (fun t => negb false) [(1, "10.0.0.1"); (3, "10.0.0.3")]).
Proof.
  destruct skip_sweep_returns as [r Hr].
  assert (Hup : forall n t, (always 1 n t =? 0) = false) by reflexivity.
  assert (E1 : enumerate_ips "10.0.0.0/30" (PInt 2)
               = inr [(1, "10.0.0.1"); (3, "10.0.0.3")]) by reflexivity.
  assert (E2 : enumerate_ips "10.0.1.0/30" (PInt 2)
               = inr [(1, "10.0.1.1"); (3, "10.0.1.3")]) by reflexivity.
  exists r. split; [exact Hup | split; [exact E1 | split; [exact E2 | split;
    [exact Hr|]]]].
  exact (proj1 (sweep_determined (always 1) (fun _ => false) _ _ _ _ _ r
                  (snd skip_sweep) _ _ Hup E1 E2 Hr)).
Defined.

(* ================================================================== *)
(** * Fair schedules                                                   *)
(* ================================================================== *)

Section Fairness.

Variable get_returncode : nat -> target -> Z.












End Fairness.


(* ================================================================== *)
(** * Ranges without targets                                           *)
(* ================================================================== *)

Section EmptyRanges.

Variable get_returncode : nat -> target -> Z.

(** X11: two ranges in which the loops keep no address (a single address
    whose final octet is 0 or the skipped one) are reported as fully
    responding although nothing was probed: every returned run gives five
    empty lists, made no call of [get_returncode], printed the one line
    "Both ... are fully responding" and still started all [2 * num_threads]
    workers; and the main thread alone, given 42 turns, returns. *)
Theorem empty_ranges_report (cidr1 cidr2 : string) (skip : pyval)
        (out : list line) :
  enumerate_ips cidr1 skip = inr [] ->
  enumerate_ips cidr2 skip = inr [] ->
  (forall sched r fx,
     initiate_ping_queues get_returncode cidr1 cidr2 skip out sched
     = (Returned r, fx) ->
     r = mkResult [] [] [] [] [] /\
     fx = mkEffects (out ++ [LNoFailures cidr1 cidr2]) [] (2 * num_threads)) /\
  fst (initiate_ping_queues get_returncode cidr1 cidr2 skip out (repeat TMain 42))
  = Returned (mkResult [] [] [] [] []).
Proof.
  intros E1 E2. split.
  - intros sched r fx H.
    pose proof (sweep_failed_sub get_returncode _ _ _ _ _ _ _ _ _ E1 E2 H) as Hsub.
    pose proof (sweep_calls_sub get_returncode _ _ _ _ _ _ _ _ _ E1 E2 H) as Hcs.
    destruct (sweep_lines get_returncode _ _ _ _ _ _ _ H) as [W [Hout HP]].
    assert (F1 : failed_ips1 r = []).
    { destruct (failed_ips1 r) as [|t l] eqn:E; [reflexivity|].
      destruct (Hsub P1) as [_ Hs]. cbn [failed_of ips_of] in Hs.
      destruct (Hs t). rewrite E. now left. }
    assert (F2 : failed_ips2 r = []).
    { destruct (failed_ips2 r) as [|t l] eqn:E; [reflexivity|].
      destruct (Hsub P2) as [_ Hs]. cbn [failed_of ips_of] in Hs.
      destruct (Hs t). rewrite E. now left. }
    assert (Hc : e_calls fx = []).
    { destruct (e_calls fx) as [|c cs]; [reflexivity|].
      specialize (Hcs c (or_introl eq_refl)).
      destruct (c_pool c); destruct Hcs. }
    rewrite Hc in HP. apply Permutation_sym, Permutation_nil in HP. subst W.
    rewrite F1, F2 in Hout. cbn [app] in Hout.
    pose proof (result_self get_returncode _ _ _ _ _ _ _ H) as Hr.
    rewrite F1, F2 in Hr.
    split; [exact Hr|].
    destruct (initiate_effects get_returncode _ _ _ out sched _ _ E1 E2)
      as [_ [Ht [Hrun Hret]]].
    rewrite H in Ht, Hrun. cbn [fst snd] in Ht, Hrun.
    destruct (sweep_inv get_returncode _ _ _ out sched _ _ E1 E2) as [_ Hth].
    assert (Hm : main_pc (run get_returncode sched (initial_state out [] [])) = []).
    { destruct (main_pc (run get_returncode sched (initial_state out [] [])));
        [reflexivity|].
      destruct Hrun as [Hrun _]; [discriminate | discriminate Hrun]. }
    pose proof (Hth P1) as T1. pose proof (Hth P2) as T2.
    rewrite Hm in T1, T2. cbn [unstarted get_pool] in T1, T2.
    destruct fx as [so ca th]. cbn [e_stdout e_calls e_threads] in *.
    subst so ca. f_equal. lia.
  - unfold initiate_ping_queues. rewrite E1, E2. reflexivity.
Qed.

End EmptyRanges.

Lemma empty_ranges_report_witness :
  enumerate_ips "10.0.0.0" (PInt 7) = inr [] /\
  enumerate_ips "10.0.1.7/32" (PInt 7) = inr [] /\
  fst (initiate_ping_queues (always 1) "10.0.0.0" "10.0.1.7/32" (PInt 7)
         [LBlank] (repeat TMain 42))
  = Returned (mkResult [] [] [] [] []).
Proof.
  assert (E1 : enumerate_ips "10.0.0.0" (PInt 7) = inr []) by reflexivity.
  assert (E2 : enumerate_ips "10.0.1.7/32" (PInt 7) = inr []) by reflexivity.
  split; [exact E1 | split; [exact E2|]].
  exact (proj2 (empty_ranges_report (always 1) "10.0.0.0" "10.0.1.7/32" (PInt 7)
                  [LBlank] E1 E2)).
Defined.

(* ================================================================== *)
(** * The checker of the test suite                                    *)
(* ================================================================== *)

Section VerifyOctets.

Variable get_returncode : nat -> target -> Z.

Lemma str_app_assoc (a b c : string) :
  ((a ++ b) ++ c)%string = (a ++ (b ++ c))%string.
Proof.
  induction a as [|x a IH]; [reflexivity|].
  cbn [append]. now rewrite IH.
Qed.

Lemma str_in_In (x : string) (l : list string) : str_in x l = true <-> In x l.
Proof.
  unfold str_in. rewrite existsb_exists. split.
  - intros [y [Hin Hy]]. apply String.eqb_eq in Hy. now subst.
  - intros Hin. exists x. split; [exact Hin | apply String.eqb_refl].
Qed.

(** The prefix of an address of a /24 is the dotted first three octets of
    the network, and the prefix followed by an offset is the address at
    that offset. *)
Lemma cidr_prefix_dotted (net : IPAddress.IPv4Network) (k : Z) :
  0 <= k < 256 ->
  exists pre, cidr_prefix (dotted net k) = inr pre /\
              forall o, full_ip pre o = dotted net o.
Proof.
  intros Hk. unfold cidr_prefix. rewrite (dotted_split net k Hk).
  cbn [nth_error]. eexists. split; [reflexivity|].
  intros o. unfold full_ip, dotted, PyStr.join_dot. cbn [String.concat].
  now rewrite !str_app_assoc.
Qed.

(** The entries of the failure lists of a sweep of two /24 ranges. *)
Lemma failed_entries_24 (cidr1 cidr2 : string) (skip : pyval)
      (net1 net2 : IPAddress.IPv4Network) (out : list line)
      (sched : list tid) (r : result) (fx : effects) :
  valid24 cidr1 net1 -> valid24 cidr2 net2 ->
  initiate_ping_queues get_returncode cidr1 cidr2 skip out sched
  = (Returned r, fx) ->
  forall p t, In t (failed_of p r) ->
    1 <= fst t <= 255 /\ snd t = dotted (pick p net1 net2) (fst t).
Proof.
  intros V1 V2 H p [o addr] Hin.
  destruct (initiate_returned _ _ _ _ _ _ _ _ H) as [ips1 [ips2 [E1 [E2 _]]]].
  pose proof (sweep_failed_sub get_returncode _ _ _ _ _ _ _ _ _ E1 E2 H p)
    as [_ Hsub].
  specialize (Hsub _ Hin).
  rewrite (enumerate_ips_24 _ _ skip V1) in E1.
  rewrite (enumerate_ips_24 _ _ skip V2) in E2.
  apply inr_eq in E1. apply inr_eq in E2.
  assert (Hin' : In (o, addr)
                    (map (fun k => (k, dotted (pick p net1 net2) k))
                         (filter (fun k => negb (int_eq_pyval k skip))
                                 (zrange 1 255)))).
  { destruct p; cbn [ips_of pick] in *; [rewrite E1 | rewrite E2]; exact Hsub. }
  apply in_map_iff in Hin'. destruct Hin' as [k [Hk Hf]].
  apply filter_In in Hf. destruct Hf as [Hr _]. apply zrange_In in Hr.
  assert (Hko : k = o) by congruence.
  assert (Hkd : dotted (pick p net1 net2) k = addr) by congruence.
  subst o addr. cbn [fst snd]. split; [lia | reflexivity].
Qed.

Lemma in_map_fst (l : list target) (o : Z) :
  In o (map fst l) -> exists t, In t l /\ fst t = o.
Proof.
  rewrite in_map_iff. intros [t [Ht Hin]]. now exists t.
Qed.

(** X12: the checker [verify_octets] of the test suite accepts the
    result of every returned sweep of two /24 ranges in which both ranges
    have a failure, whatever the schedule and the return codes; on a result
    with an empty failure list it raises [IndexError] instead of checking
    anything. *)
Theorem verify_octets_accepts (cidr1 cidr2 : string) (skip : pyval)
        (net1 net2 : IPAddress.IPv4Network) (out : list line)
        (sched : list tid) (r : result) (fx : effects) :
  valid24 cidr1 net1 -> valid24 cidr2 net2 ->
  initiate_ping_queues get_returncode cidr1 cidr2 skip out sched
  = (Returned r, fx) ->
  (failed_ips1 r <> [] -> failed_ips2 r <> [] -> verify_octets r = inr tt) /\
  (failed_ips1 r = [] \/ failed_ips2 r = [] -> verify_octets r = inl IndexError).
Proof.
  intros V1 V2 H.
  pose proof (failed_entries_24 _ _ _ _ _ _ _ _ _ V1 V2 H) as Hent.
  pose proof (result_self get_returncode _ _ _ _ _ _ _ H) as Hself.
  (* the prefix of the first entry, when there is one *)
  assert (Hpre : forall p t, In t (failed_of p r) ->
                   exists pre, cidr_prefix (snd t) = inr pre /\
                               forall o, full_ip pre o = dotted (pick p net1 net2) o).
  { intros p t Hin. destruct (Hent p t Hin) as [Hr ->].
    apply cidr_prefix_dotted. lia. }
  (* an offset of a failure list has its address in the list *)
  assert (Haddr : forall p o, In o (map fst (failed_of p r)) ->
                    In (dotted (pick p net1 net2) o) (map snd (failed_of p r))).
  { intros p o Ho. destruct (in_map_fst _ _ Ho) as [t [Hin <-]].
    destruct (Hent p t Hin) as [_ <-]. now apply in_map. }
  (* where the offsets of the three sequences come from *)
  assert (Hder : (forall o, In o (failed_ips1_excl_octets r) ->
                            In o (map fst (failed_ips1 r))) /\
                 (forall o, In o (failed_ips2_excl_octets r) ->
                            In o (map fst (failed_ips2 r))) /\
                 (forall o, In o (failed_ips_common_octets r) ->
                            In o (map fst (failed_ips1 r)) /\
                            In o (map fst (failed_ips2 r)))).
  { pose proof (print_results_result cidr1 cidr2 (failed_ips1 r) (failed_ips2 r))
      as Hres.
    rewrite <- Hself in Hres.
    pose proof (f_equal failed_ips1_excl_octets Hres) as X1.
    pose proof (f_equal failed_ips2_excl_octets Hres) as X2.
    pose proof (f_equal failed_ips_common_octets Hres) as X3.
    cbn [failed_ips1_excl_octets failed_ips2_excl_octets failed_ips_common_octets]
      in X1, X2, X3.
    rewrite X1, X2, X3.
    split; [|split]; intros o Ho; apply sort_In, filter_In in Ho.
    - apply Ho.
    - apply Ho.
    - split; [apply Ho | now apply octet_in_In]. }
  destruct Hder as [D1 [D2 D3]].
  split.
  - intros Hne1 Hne2. unfold verify_octets.
    destruct (failed_ips1 r) as [|t1 l1] eqn:F1; [contradiction|].
    destruct (failed_ips2 r) as [|t2 l2] eqn:F2; [contradiction|].
    destruct (Hpre P1 t1) as [pre1 [-> Hf1]];
      [cbn [failed_of]; rewrite F1; now left|].
    destruct (Hpre P2 t2) as [pre2 [-> Hf2]];
      [cbn [failed_of]; rewrite F2; now left|].
    cbn [pick] in Hf1, Hf2.
    pose proof (Haddr P1) as A1. pose proof (Haddr P2) as A2.
    cbn [failed_of pick] in A1, A2. rewrite F1 in A1. rewrite F2 in A2.
    assert (C1 : forallb (fun octet => str_in (full_ip pre1 octet) (map snd (t1 :: l1)))
                         (failed_ips1_excl_octets r) = true).
    { apply forallb_forall. intros o Ho. rewrite Hf1.
      apply str_in_In, A1, D1, Ho. }
    assert (C2 : forallb (fun octet => str_in (full_ip pre2 octet) (map snd (t2 :: l2)))
                         (failed_ips2_excl_octets r) = true).
    { apply forallb_forall. intros o Ho. rewrite Hf2.
      apply str_in_In, A2, D2, Ho. }
    assert (C3 : forallb (fun octet => str_in (full_ip pre1 octet) (map snd (t1 :: l1))
                                       && str_in (full_ip pre2 octet) (map snd (t2 :: l2)))
                         (failed_ips_common_octets r) = true).
    { apply forallb_forall. intros o Ho. rewrite Hf1, Hf2.
      destruct (D3 o Ho) as [H1 H2].
      apply andb_true_iff. split; apply str_in_In; [now apply A1 | now apply A2]. }
    cbv zeta. rewrite C1, C2, C3. reflexivity.
  - intros [F1 | F2]; unfold verify_octets.
    + now rewrite F1.
    + destruct (failed_ips1 r) as [|t1 l1] eqn:F1; [reflexivity|].
      destruct (Hpre P1 t1) as [pre1 [-> _]];
        [cbn [failed_of]; rewrite F1; now left|].
      now rewrite F2.
Qed.

End VerifyOctets.

Lemma verify_octets_accepts_witness :
  exists r,
    valid24 "192.168.1.0/24" default_net1 /\
    valid24 "192.168.2.0/24" default_net2 /\
    initiate_ping_queues (always 1) "192.168.1.0/24" "192.168.2.0/24"
      (PStr "") [LBlank; LCidr1 "192.168.1.0/24"; LCidr2 "192.168.2.0/24"]
      (one_worker_schedule 255 255)
    = (Returned r, snd all_down_run) /\
    (failed_ips1 r <> [] -> failed_ips2 r <> [] -> verify_octets r = inr tt).
Proof.
  destruct all_down_sweep_returns as [r Hr].
  destruct default_valid24 as [V1 V2].
  exists r. split; [exact V1 | split; [exact V2 | split; [exact Hr|]]].
  exact (proj1 (verify_octets_accepts (always 1) _ _ _ _ _ _ _ r
                  (snd all_down_run) V1 V2 Hr)).
Defined.

(* ================================================================== *)
(** * [main]: what it prints, and the help option                      *)
(* ================================================================== *)

Section MainOutput.

Variable get_returncode : nat -> target -> Z.

(** How the option loop can end, and what it has printed then. *)
Lemma read_opts_outcomes (opts : list (string * string)) :
  forall cidr1 cidr2 skip out o,
  read_opts opts cidr1 cidr2 skip = (out, o) ->
  match o with
  | Returned _ => out = [] /\ ~ In "-h" (map fst opts)
  | SysExit code =>
      code = None /\ exists l, out = [l] /\ In l [LHelp; LOnly24; LSkipInvalid]
  | Raised e => e = AssertionError /\ out = []
  | Running => False
  end.
Proof.
  induction opts as [|[opt arg] rest IH]; intros cidr1 cidr2 skip out o H;
    cbn [read_opts] in H.
  - injection H as <- <-. split; [reflexivity | intros []].
  - assert (Hrec : forall c1 c2 sk,
               read_opts rest c1 c2 sk = (out, o) ->
               (opt =? "-h")%string = false ->
               match o with
               | Returned _ => out = [] /\ ~ In "-h" (map fst ((opt, arg) :: rest))
               | SysExit code =>
                   code = None /\
                   exists l, out = [l] /\ In l [LHelp; LOnly24; LSkipInvalid]
               | Raised e => e = AssertionError /\ out = []
               | Running => False
               end).
    { intros c1 c2 sk Hr Hh. specialize (IH _ _ _ _ _ Hr).
      destruct o as [x | code | e |]; try exact IH.
      destruct IH as [Ho Hn]. split; [exact Ho|].
      cbn [map fst In]. intros [E | Hin]; [|now apply Hn].
      subst opt. discriminate Hh. }
    destruct (opt =? "-h")%string eqn:Eh.
    + injection H as <- <-. split; [reflexivity|].
      exists LHelp. split; [reflexivity | now left].
    + destruct (PyStr.contains opt "--cidr1").
      * destruct (negb (PyStr.last3 arg =? "/24")%string).
        -- injection H as <- <-. split; [reflexivity|].
           exists LOnly24. split; [reflexivity | right; now left].
        -- now apply (Hrec _ _ _ H).
      * destruct (PyStr.contains opt "--cidr2").
        -- destruct (negb (PyStr.last3 arg =? "/24")%string).
           ++ injection H as <- <-. split; [reflexivity|].
              exists LOnly24. split; [reflexivity | right; now left].
           ++ now apply (Hrec _ _ _ H).
        -- destruct (PyStr.contains opt "--skip").
           ++ destruct (PyStr.int_of_str arg) as [v|].
              ** destruct ((0 <=? v) && (v <=? 255)).
                 --- now apply (Hrec _ _ _ H).
                 --- injection H as <- <-. now split.
              ** injection H as <- <-. split; [reflexivity|].
                 exists LSkipInvalid. split; [reflexivity | right; right; now left].
           ++ injection H as <- <-. now split.
Qed.

(** A sweep that was started has printed what was printed before it,
    and then lines of its own. *)
Lemma initiate_stdout_prefix (cidr1 cidr2 : string) (skip : pyval)
      (out : list line) (sched : list tid) :
  let X := initiate_ping_queues get_returncode cidr1 cidr2 skip out sched in
  sweep_started (fst X) -> exists rest, e_stdout (snd X) = out ++ rest.
Proof.
  intros X Hst. subst X.
  destruct (enumerate_ips cidr1 skip) as [e|ips1] eqn:E1.
  { unfold initiate_ping_queues in Hst. rewrite E1 in Hst. destruct Hst. }
  destruct (enumerate_ips cidr2 skip) as [e|ips2] eqn:E2.
  { unfold initiate_ping_queues in Hst. rewrite E1, E2 in Hst. destruct Hst. }
  destruct (initiate_effects get_returncode _ _ _ out sched _ _ E1 E2)
    as [_ [_ [Hrun Hret]]].
  destruct (lines_inv_run get_returncode out sched _
              (lines_inv_initial out ips1 ips2)) as [W [HW _]].
  destruct (main_pc (run get_returncode sched (initial_state out ips1 ips2)))
    as [|i pc] eqn:Em.
  - destruct (Hret eq_refl) as [_ Ho]. rewrite Ho, HW, <- app_assoc.
    eexists; reflexivity.
  - destruct Hrun as [_ Ho]; [discriminate|]. rewrite Ho, HW.
    eexists; reflexivity.
Qed.

(** X13: what [main] has printed, by the way it ends.  When the sweep
    is started nothing was printed before the blank line and the two lines
    naming the ranges the options left in force, and every other line comes
    after them.  When [main] exits from its option loop the exit status is
    0 and exactly one line was printed: the help line, the "/24 only" line
    or the [--skip] line.  An [AssertionError] leaves nothing printed; a
    [ValueError] for a refused range comes after the three header lines. *)
Theorem main_prints (opts : list (string * string)) (sched : list tid) :
  let X := main get_returncode (GetoptOk opts) sched in
  (sweep_started (fst X) ->
   exists cidr1 cidr2 skip rest,
     read_opts opts "192.168.1.0/24" "192.168.2.0/24" (PStr "")
     = ([], Returned (cidr1, cidr2, skip)) /\
     e_stdout (snd X) = [LBlank; LCidr1 cidr1; LCidr2 cidr2] ++ rest) /\
  (forall code, fst X = SysExit code ->
     code = None /\
     exists l, e_stdout (snd X) = [l] /\ In l [LHelp; LOnly24; LSkipInvalid]) /\
  (fst X = Raised AssertionError -> e_stdout (snd X) = []) /\
  (fst X = Raised ValueError ->
   exists cidr1 cidr2, e_stdout (snd X) = [LBlank; LCidr1 cidr1; LCidr2 cidr2]) /\
  (forall e, fst X = Raised e -> e = AssertionError \/ e = ValueError).
Proof.
  intros X. subst X. unfold main.
  destruct (read_opts opts "192.168.1.0/24" "192.168.2.0/24" (PStr ""))
    as [out o] eqn:Er.
  pose proof (read_opts_outcomes _ _ _ _ _ _ Er) as Ho.
  destruct o as [[[c1 c2] sk] | code | e |].
  - destruct Ho as [-> _]. cbn [app].
    destruct (initiate_outcomes get_returncode c1 c2 sk
                [LBlank; LCidr1 c1; LCidr2 c2] sched) as [_ [Hraise Hexit]].
    pose proof (initiate_stdout_prefix c1 c2 sk
                  [LBlank; LCidr1 c1; LCidr2 c2] sched) as Hpre.
    cbv zeta in Hraise, Hexit, Hpre.
    set (X := initiate_ping_queues get_returncode c1 c2 sk
                [LBlank; LCidr1 c1; LCidr2 c2] sched) in *.
    split; [|split; [|split; [|split]]].
    + intros Hst. destruct (Hpre Hst) as [rest Hrest].
      exists c1, c2, sk, rest. now split.
    + intros code H. now destruct (Hexit code).
    + intros H. specialize (Hraise _ H). rewrite Hraise in H. discriminate H.
    + intros H. rewrite (Hraise _ H). now exists c1, c2.
    + intros e H. specialize (Hraise _ H). rewrite Hraise in H.
      injection H as <-. now right.
  - destruct Ho as [-> Hl]. cbn [fst snd e_stdout].
    split; [|split; [|split; [|split]]].
    + intros [].
    + intros code H. injection H as <-. now split.
    + intros H. discriminate H.
    + intros H. discriminate H.
    + intros e H. discriminate H.
  - destruct Ho as [-> ->]. cbn [fst snd e_stdout].
    split; [|split; [|split; [|split]]].
    + intros [].
    + intros code H. discriminate H.
    + reflexivity.
    + intros H. discriminate H.
    + intros e H. injection H as <-. now left.
  - destruct Ho.
Qed.


End MainOutput.

Lemma main_prints_witness :
  sweep_started (fst (main (always 1)
                        (GetoptOk [("--cidr2", "10.0.1.0/24"); ("--skip", "7")])
                        (repeat TMain 50))) /\
  exists cidr1 cidr2 skip rest,
    read_opts [("--cidr2", "10.0.1.0/24"); ("--skip", "7")]
              "192.168.1.0/24" "192.168.2.0/24" (PStr "")
    = ([], Returned (cidr1, cidr2, skip)) /\
    e_stdout (snd (main (always 1)
                     (GetoptOk [("--cidr2", "10.0.1.0/24"); ("--skip", "7")])
                     (repeat TMain 50)))
    = [LBlank; LCidr1 cidr1; LCidr2 cidr2] ++ rest.
Proof.
  assert (Hst : sweep_started
                  (fst (main (always 1)
                          (GetoptOk [("--cidr2", "10.0.1.0/24"); ("--skip", "7")])
                          (repeat TMain 50)))).
  { vm_compute. exact I. }
  split; [exact Hst|].
  exact (proj1 (main_prints (always 1)
                  [("--cidr2", "10.0.1.0/24"); ("--skip", "7")]
                  (repeat TMain 50)) Hst).
Defined.

